(** * Comparison services for records (storage/innobase/rem/rem0cmp.cc)

    A shallow embedding of the InnoDB key comparator: the scalar field
    comparison [cmp_data], the whole-field strategies of [cmp_whole_field],
    the tuple-vs-record comparison [cmp_dtuple_rec_with_match_low] with its
    debug reimplementation, the record-vs-record comparisons
    [cmp_rec_rec_simple] and [cmp_rec_rec_with_match], followed by the
    properties the specification states about them.

    Integers of the source are integers here, with the wrap-around of
    [unsigned int] written where a cast or a decrement can reach it; a
    pointer into a value is the list of the bytes from it to the end of the
    value, so that a read past the end is an explicit fault; aborts, log
    lines and the duplicate report are the effects of a small monad; and
    both builds are covered, [UNIV_DEBUG] being a parameter. *)

From Stdlib Require Import ZArith List Bool Lia String.
From Stdlib Require Import Strings.Byte.
From Stdlib Require Import Floats.SpecFloat.
Import ListNotations.
Local Open Scope Z_scope.

(* ================================================================== *)
(** * Constants of the headers the comparator includes *)
(* ================================================================== *)

(** Modelled from the spec: the "sentinel length value meaning SQL NULL"
    of an encoded field value.  univ.i is not among the sources; InnoDB
    uses the largest 32-bit value. *)
Definition UNIV_SQL_NULL : Z := 4294967295.

(** Modelled from the spec: the value by which the pad-character lookup says
    "no pad character is defined" (univ.i, not among the sources): the
    all-ones machine word. *)
Definition ULINT_UNDEFINED : Z := 18446744073709551615.

(** Modelled from the spec: the main types of a column descriptor ("enum:
    binary, fixed-binary, integer, decimal-text, float, double,
    character/varchar, collated-blob/text, system-internal types, geometry").
    data0type.h is not among the sources; the numbering is InnoDB's, and the
    development relies only on the codes being pairwise distinct, as any C
    [switch] over them requires. *)
Definition DATA_VARCHAR : Z := 1.
Definition DATA_CHAR : Z := 2.
Definition DATA_FIXBINARY : Z := 3.
Definition DATA_BINARY : Z := 4.
Definition DATA_BLOB : Z := 5.
Definition DATA_INT : Z := 6.
Definition DATA_SYS_CHILD : Z := 7.
Definition DATA_SYS : Z := 8.
Definition DATA_FLOAT : Z := 9.
Definition DATA_DOUBLE : Z := 10.
Definition DATA_DECIMAL : Z := 11.
Definition DATA_VARMYSQL : Z := 12.
Definition DATA_MYSQL : Z := 13.
Definition DATA_GEOMETRY : Z := 14.

(** Modelled from the spec: the precise-type flags ("bit flags: unsigned,
    not-null, binary-string, ...") and the mask of the MySQL type code held
    in the low byte of the precise type (data0type.h, not among the
    sources). *)
Definition DATA_MYSQL_TYPE_MASK : Z := 255.
Definition DATA_NOT_NULL : Z := 256.
Definition DATA_UNSIGNED : Z := 512.
Definition DATA_BINARY_TYPE : Z := 1024.

(** Modelled from the spec: the MySQL type codes the collation path accepts
    in a debug build (enum_field_types of the server headers, not among the
    sources). *)
Definition MYSQL_TYPE_VARCHAR : Z := 15.
Definition MYSQL_TYPE_BIT : Z := 16.
Definition MYSQL_TYPE_TINY_BLOB : Z := 249.
Definition MYSQL_TYPE_MEDIUM_BLOB : Z := 250.
Definition MYSQL_TYPE_LONG_BLOB : Z := 251.
Definition MYSQL_TYPE_BLOB : Z := 252.
Definition MYSQL_TYPE_VAR_STRING : Z := 253.
Definition MYSQL_TYPE_STRING : Z := 254.

(** Modelled from the spec: the "minimum-record marker" among the info bits
    of a record or tuple (rem0rec.h, not among the sources). *)
Definition REC_INFO_MIN_REC_FLAG : Z := 16.

(** Modelled from the spec: the index-type bits saying that the index
    "enforces uniqueness" and that it is the "generic/untyped internal
    index" (dict0mem.h, not among the sources). *)
Definition DICT_UNIQUE : Z := 2.
Definition DICT_UNIVERSAL : Z := 4.

(** [unsigned int] is 32 bits wide: the cast [(unsigned) len] and the
    decrement of an [unsigned int] wrap around modulo 2^32. *)
Definition UINT_MODULUS : Z := 4294967296.
Definition to_unsigned (x : Z) : Z := x mod UINT_MODULUS.

(* ================================================================== *)
(** * Data model *)
(* ================================================================== *)

(** A [const byte*] is modelled by the bytes that can be read through it:
    the bytes of the value from the pointer to the end of the value.
    [p + 1] is the tail of the list, and [*p] on the empty list is a read
    outside the value. *)
Definition byte_val (b : byte) : Z := Z.of_N (Byte.to_N b).

(** Modelled from the spec: the column descriptor "{main type, precise-type
    flags, fixed length or 0 if variable}" (dtype_t and dict_col_t of
    data0type.h and dict0mem.h). *)
Record dtype_t : Type := mk_dtype {
  dtype_mtype : Z;
  dtype_prtype : Z
}.

Record dict_col_t : Type := mk_dict_col {
  col_mtype : Z;
  col_prtype : Z;
  col_len : Z
}.

(** Modelled from the spec: one field of a logical tuple, an "encoded field
    value {byte pointer, length in bytes, or a sentinel length value meaning
    SQL NULL}" with its column descriptor (dfield_t of data0data.h). *)
Record dfield_t : Type := mk_dfield {
  dfield_data : list byte;
  dfield_ext : bool;
  dfield_len : Z;
  dfield_type : dtype_t
}.

(** Modelled from the spec: the logical tuple, an "ordered sequence of
    (encoded field value, column descriptor) pairs, plus a field count to
    compare and an info bits flag" (dtuple_t of data0data.h).  The field
    array carries its own length, [dtuple_get_n_fields]. *)
Record dtuple_t : Type := mk_dtuple {
  dtuple_info_bits : Z;
  dtuple_n_fields_cmp : Z;
  dtuple_fields : list dfield_t
}.

(** Modelled from the spec: the physical record, "an opaque, pre-decoded
    accessor exposing, per field index: byte pointer, length-or-NULL,
    whether the field is stored externally, and record-level info bits".
    The pair of a [rec_t*] and its [offsets] array of the source is one
    value here; [rec_comp] is the format bit of the offsets. *)
Record rec_field_t : Type := mk_rec_field {
  rec_field_data : list byte;
  rec_field_len : Z;
  rec_field_extern : bool
}.

Record rec_t : Type := mk_rec {
  rec_info_bits : Z;
  rec_comp : bool;
  rec_fields : list rec_field_t
}.

(** Modelled from the spec: the index descriptor, an "ordered sequence of
    column descriptors defining a key, plus the count of columns that must
    be unique" (dict_index_t of dict0mem.h). *)
Record dict_index_t : Type := mk_dict_index {
  index_type : Z;
  index_n_uniq : Z;
  index_n_fields : Z;
  index_cols : list dict_col_t
}.

(** Modelled from the spec: the "duplicate-key reporting sink", a MySQL
    table handle that the comparator only passes on. *)
Record TABLE : Type := mk_TABLE { table_id : Z }.

(** Modelled from the spec: a collation, consumed as an opaque "compare two
    byte strings under collation C, right-trimming trailing pad" function
    returning a signed integer (CHARSET_INFO and its [coll->strnncollsp]
    member of the server headers). *)
Record CHARSET_INFO : Type := mk_CHARSET_INFO {
  cs_number : Z;
  strnncollsp : list byte -> Z -> list byte -> Z -> Z
}.

(* ================================================================== *)
(** * Effects: aborts, undefined reads, log lines and reported rows *)
(* ================================================================== *)

Inductive fault : Type :=
| OutOfBounds
    (* a read outside the bytes of a value or outside an array *)
| AssertionFailure
    (* ut_error, or ut_ad on a false condition when UNIV_DEBUG is defined *)
| LoggedFatal (msg : string) (arg : Z).
    (* ib_logf(IB_LOG_LEVEL_FATAL, msg, arg): the line is logged and the
       server aborts *)

Inductive outcome (A : Type) : Type :=
| Ret (a : A)
| Fail (f : fault).
Arguments Ret {A} a.
Arguments Fail {A} f.

Inductive event : Type :=
| LogError (msg : string)
    (* ib_logf(IB_LOG_LEVEL_ERROR, msg) *)
| RecToMysql (table : TABLE) (rec : rec_t) (index : dict_index_t).
    (* innobase_rec_to_mysql(table, rec, index, offsets) *)

(** A computation yields the events it emitted, in order, and how it
    ended. *)
Definition M (A : Type) : Type := (list event * outcome A)%type.

Definition obind {A B : Type} (c : outcome A) (k : A -> outcome B) : outcome B :=
  match c with
  | Ret a => k a
  | Fail f => Fail f
  end.

Definition ret {A : Type} (a : A) : M A := ([], Ret a).
Definition fail {A : Type} (f : fault) : M A := ([], Fail f).
Definition lift {A : Type} (c : outcome A) : M A := ([], c).

Definition bind {A B : Type} (c : M A) (k : A -> M B) : M B :=
  match c with
  | (t, Ret a) => let '(t', r) := k a in (t ++ t', r)
  | (t, Fail f) => (t, Fail f)
  end.

Notation "x <~ c ;; k" := (obind c (fun x => k))
  (at level 61, c at next level, right associativity).
Notation "' p <~ c ;; k" := (obind c (fun x => match x with p => k end))
  (at level 61, p pattern, c at next level, right associativity).
Notation "x <- c ;; k" := (bind c (fun x => k))
  (at level 61, c at next level, right associativity).
Notation "' p <- c ;; k" := (bind c (fun x => match x with p => k end))
  (at level 61, p pattern, c at next level, right associativity).
Notation "c ;; k" := (bind c (fun _ => k))
  (at level 61, right associativity).

Definition events {A : Type} (c : M A) : list event := fst c.
Definition result {A : Type} (c : M A) : outcome A := snd c.

(** Modelled from the spec: the "fatal-error/abort reporting sink" and the
    log (ut0dbg.h and the server's ib_logf are not among the sources).
    [ut_error] aborts; a line logged at level FATAL aborts after it is
    logged ("the process reports a diagnostic (logged as fatal) and
    aborts"); a line logged at level ERROR is emitted and execution goes
    on. *)
Definition ut_error {A : Type} : M A := fail AssertionFailure.
Definition ib_logf_FATAL {A : Type} (msg : string) (arg : Z) : M A :=
  fail (LoggedFatal msg arg).
Definition ib_logf_ERROR (msg : string) : M unit := ([LogError msg], Ret tt).

Definition of_option {A : Type} (o : option A) : outcome A :=
  match o with
  | Some a => Ret a
  | None => Fail OutOfBounds
  end.

(* ================================================================== *)
(** * External collaborators *)
(* ================================================================== *)

(** What the comparator consumes from the rest of the server and what the
    build fixes.  None of it is defined in rem0cmp.cc, so the comparator is
    embedded over an arbitrary value of this record.
    - [UNIV_DEBUG]: whether the debug build flag is defined, which turns
      [ut_ad] into an assertion and compiles the cross-check in;
    - [dtype_get_pad_char]: the pad character of a type, or
      [ULINT_UNDEFINED];
    - [dtype_get_charset_coll], [get_charset], [my_charset_latin1]: the
      charset-collation id of a precise type, the registry lookup and the
      default collation;
    - [mach_double_read], [mach_float_read]: the IEEE-754 value stored at a
      pointer, [None] when the bytes of the value do not cover it;
    - [dtuple_check_typed], [rec_offs_validate]: debug validators. *)
Record collaborators : Type := mk_collaborators {
  UNIV_DEBUG : bool;
  dtype_get_pad_char : Z -> Z -> Z;
  dtype_get_charset_coll : Z -> Z;
  get_charset : Z -> option CHARSET_INFO;
  my_charset_latin1 : CHARSET_INFO;
  mach_double_read : list byte -> option spec_float;
  mach_float_read : list byte -> option spec_float;
  dtuple_check_typed : dtuple_t -> bool;
  rec_offs_validate : rec_t -> option dict_index_t -> bool
}.

(* ================================================================== *)
(** * The comparator *)
(* ================================================================== *)

(** [memcmp] of the C library: the first [n] bytes are compared as unsigned
    bytes and the sign of the result is that of the first difference. *)
Fixpoint memcmp (s1 s2 : list byte) (n : nat) {struct n} : outcome Z :=
  match n with
  | O => Ret 0
  | S n' =>
      match s1, s2 with
      | c1 :: s1', c2 :: s2' =>
          if byte_val c1 =? byte_val c2 then memcmp s1' s2' n'
          else Ret (byte_val c1 - byte_val c2)
      | _, _ => Fail OutOfBounds
      end
  end.

(** [*p] *)
Definition deref (p : list byte) : outcome byte :=
  match p with
  | [] => Fail OutOfBounds
  | c :: _ => Ret c
  end.

(** Lines 212 and 213: [for (; a_length && *a == ' '; a++, a_length--) { }].
    In this loop and the next two, [a_length] is not 0 where it is
    decremented, so the decrement does not wrap around. *)
Fixpoint skip_spaces (a : list byte) (a_length : Z) : outcome (list byte * Z) :=
  if a_length =? 0 then Ret (a, a_length)
  else
    match a with
    | [] => Fail OutOfBounds
    | c :: a' =>
        if byte_val c =? 32 (* ' ' *) then skip_spaces a' (a_length - 1)
        else Ret (a, a_length)
    end.

(** Lines 231 and 235:
    [while (a_length > 0 && ( *a == '+' || *a == '0')) { a++; a_length--; }] *)
Fixpoint skip_plus_zero (a : list byte) (a_length : Z) : outcome (list byte * Z) :=
  if 0 <? a_length then
    match a with
    | [] => Fail OutOfBounds
    | c :: a' =>
        if (byte_val c =? 43 (* '+' *)) || (byte_val c =? 48 (* '0' *))
        then skip_plus_zero a' (a_length - 1)
        else Ret (a, a_length)
    end
  else Ret (a, a_length).

(** Line 247:
    [while (a_length > 0 && *a == *b) { a++; b++; a_length--; }] *)
Fixpoint skip_equal (a b : list byte) (a_length : Z)
  : outcome (list byte * list byte * Z) :=
  if 0 <? a_length then
    match a with
    | [] => Fail OutOfBounds
    | ca :: a' =>
        match b with
        | [] => Fail OutOfBounds
        | cb :: b' =>
            if byte_val ca =? byte_val cb then skip_equal a' b' (a_length - 1)
            else Ret (a, b, a_length)
        end
    end
  else Ret (a, b, a_length).

(** Lines 231-261, the part of the DATA_DECIMAL case after the signs. *)
Definition cmp_decimal_digits (a : list byte) (a_length : Z)
    (b : list byte) (b_length : Z) (swap_flag : Z) : outcome Z :=
  '(a, a_length) <~ skip_plus_zero a a_length ;;
  '(b, b_length) <~ skip_plus_zero b b_length ;;
  if negb (a_length =? b_length) then
    if a_length <? b_length then Ret (- swap_flag)
    else Ret swap_flag
  else
    '(a, b, a_length) <~ skip_equal a b a_length ;;
    if a_length =? 0 then Ret 0
    else
      ca <~ deref a ;;
      cb <~ deref b ;;
      if byte_val ca >? byte_val cb then Ret swap_flag
      else Ret (- swap_flag).

(** Lines 210-261, the DATA_DECIMAL case of [cmp_whole_field]. *)
Definition cmp_whole_field_DATA_DECIMAL (a : list byte) (a_length : Z)
    (b : list byte) (b_length : Z) : outcome Z :=
  let swap_flag := 1 in
  (* Remove preceding spaces *)
  '(a, a_length) <~ skip_spaces a a_length ;;
  '(b, b_length) <~ skip_spaces b b_length ;;
  ca <~ deref a ;;
  if byte_val ca =? 45 (* '-' *) then
    cb <~ deref b ;;
    if negb (byte_val cb =? 45) then Ret (-1)
    else
      (* a++; b++; a_length--; b_length--; swap_flag = -1; *)
      cmp_decimal_digits (tl a) (to_unsigned (a_length - 1))
                         (tl b) (to_unsigned (b_length - 1)) (-1)
  else
    cb <~ deref b ;;
    if byte_val cb =? 45 then Ret 1
    else cmp_decimal_digits a a_length b b_length swap_flag.

(** Lines 384-389:
    [do { byte b = data1[len++];
          if (b != pad) return(b < pad ? -1 : 1); } while (len < len1);]
    [p] is [data1 + len]. *)
Fixpoint cmp_data_pad1 (p : list byte) (len len1 pad : Z) : outcome Z :=
  match p with
  | [] => Fail OutOfBounds
  | b :: p' =>
      if negb (byte_val b =? pad) then Ret (if byte_val b <? pad then -1 else 1)
      else if len + 1 <? len1 then cmp_data_pad1 p' (len + 1) len1 pad
      else Ret 0
  end.

(** Lines 393-398:
    [do { byte b = data2[len++];
          if (b != pad) return(pad < b ? -1 : 1); } while (len < len2);]
    [p] is [data2 + len]. *)
Fixpoint cmp_data_pad2 (p : list byte) (len len2 pad : Z) : outcome Z :=
  match p with
  | [] => Fail OutOfBounds
  | b :: p' =>
      if negb (byte_val b =? pad) then Ret (if pad <? byte_val b then -1 else 1)
      else if len + 1 <? len2 then cmp_data_pad2 p' (len + 1) len2 pad
      else Ret 0
  end.

(** The test [info_bits & REC_INFO_MIN_REC_FLAG]. *)
Definition has_min_rec_flag (info_bits : Z) : bool :=
  negb (Z.land info_bits REC_INFO_MIN_REC_FLAG =? 0).

(** Accessors of data0data.ic, rem0rec.ic and dict0dict.ic, read off the
    data model. *)
Definition dtuple_get_info_bits (tuple : dtuple_t) : Z := dtuple_info_bits tuple.
Definition dtuple_get_n_fields (tuple : dtuple_t) : Z :=
  Z.of_nat (List.length (dtuple_fields tuple)).
Definition dtuple_get_nth_field (tuple : dtuple_t) (n : Z) : outcome dfield_t :=
  of_option (nth_error (dtuple_fields tuple) (Z.to_nat n)).
Definition dfield_get_data (field : dfield_t) : list byte := dfield_data field.
Definition dfield_get_type (field : dfield_t) : dtype_t := dfield_type field.
Definition dfield_get_len (field : dfield_t) : Z := dfield_len field.
Definition dfield_is_ext (field : dfield_t) : bool := dfield_ext field.

Definition rec_get_info_bits (rec : rec_t) (comp : bool) : Z := rec_info_bits rec.
Definition rec_offs_comp (rec : rec_t) : bool := rec_comp rec.
Definition rec_offs_n_fields (rec : rec_t) : Z :=
  Z.of_nat (List.length (rec_fields rec)).
Definition rec_nth (rec : rec_t) (n : Z) : outcome rec_field_t :=
  of_option (nth_error (rec_fields rec) (Z.to_nat n)).
(** [rec_get_nth_field_ext(rec, offsets, n, data, len)]: whether the field
    is externally stored, with the pointer and the length it sets. *)
Definition rec_get_nth_field_ext (rec : rec_t) (n : Z)
  : outcome (bool * list byte * Z) :=
  f <~ rec_nth rec n ;;
  Ret (rec_field_extern f, rec_field_data f, rec_field_len f).
(** [rec_get_nth_field(rec, offsets, n, &len)] *)
Definition rec_get_nth_field (rec : rec_t) (n : Z) : outcome (list byte * Z) :=
  f <~ rec_nth rec n ;;
  Ret (rec_field_data f, rec_field_len f).
Definition rec_offs_nth_extern (rec : rec_t) (n : Z) : outcome bool :=
  f <~ rec_nth rec n ;;
  Ret (rec_field_extern f).
Definition rec_offs_nth_sql_null (rec : rec_t) (n : Z) : outcome bool :=
  f <~ rec_nth rec n ;;
  Ret (rec_field_len f =? UNIV_SQL_NULL).

Definition dict_index_get_n_unique (index : dict_index_t) : Z := index_n_uniq index.
Definition dict_index_get_n_fields (index : dict_index_t) : Z := index_n_fields index.
Definition dict_index_is_unique (index : dict_index_t) : bool :=
  negb (Z.land (index_type index) DICT_UNIQUE =? 0).
Definition dict_index_is_univ (index : dict_index_t) : bool :=
  negb (Z.land (index_type index) DICT_UNIVERSAL =? 0).
Definition dict_index_get_nth_col (index : dict_index_t) (n : Z)
  : outcome dict_col_t :=
  of_option (nth_error (index_cols index) (Z.to_nat n)).

Section Comparator.

Variable E : collaborators.

(** Modelled from the spec: [ut_ad(c)] of ut0dbg.h, "asserted in debug
    builds": an assertion when UNIV_DEBUG is defined, nothing otherwise. *)
Definition ut_ad (c : bool) : M unit :=
  if UNIV_DEBUG E then (if c then ret tt else fail AssertionFailure)
  else ret tt.

(** [ut_ad] on a condition that reads a record through its offsets: the
    read happens only when UNIV_DEBUG is defined. *)
Definition ut_ad_read (c : outcome bool) : M unit :=
  if UNIV_DEBUG E then (b <- lift c ;; if b then ret tt else fail AssertionFailure)
  else ret tt.

(** Lines 92-129. *)
Definition innobase_mysql_cmp (prtype : Z) (a : list byte) (a_length : Z)
    (b : list byte) (b_length : Z) : M Z :=
  (if UNIV_DEBUG E then
     let t := Z.land prtype DATA_MYSQL_TYPE_MASK in
     if (t =? MYSQL_TYPE_BIT) || (t =? MYSQL_TYPE_STRING)
        || (t =? MYSQL_TYPE_VAR_STRING) || (t =? MYSQL_TYPE_TINY_BLOB)
        || (t =? MYSQL_TYPE_MEDIUM_BLOB) || (t =? MYSQL_TYPE_BLOB)
        || (t =? MYSQL_TYPE_LONG_BLOB) || (t =? MYSQL_TYPE_VARCHAR)
     then ret tt
     else ut_error
   else ret tt) ;;
  let cs_num := dtype_get_charset_coll E prtype in
  match get_charset E cs_num with
  | Some cs =>
      let cmp := strnncollsp cs a a_length b b_length in
      ret (if cmp <? 0 then -1 else if cmp =? 0 then 0 else 1)
  | None =>
      ib_logf_FATAL "Unable to find charset-collation %u" cs_num
  end.

(** Lines 190-318.  [d_1 > d_2] on IEEE-754 values is [SFltb d_2 d_1]. *)
Definition cmp_whole_field (mtype prtype : Z) (a : list byte) (a_length : Z)
    (b : list byte) (b_length : Z) : M Z :=
  if mtype =? DATA_DECIMAL then
    lift (cmp_whole_field_DATA_DECIMAL a a_length b b_length)
  else if mtype =? DATA_DOUBLE then
    lift (d_1 <~ of_option (mach_double_read E a) ;;
          d_2 <~ of_option (mach_double_read E b) ;;
          if SFltb d_2 d_1 then Ret 1
          else if SFltb d_1 d_2 then Ret (-1)
          else Ret 0)
  else if mtype =? DATA_FLOAT then
    lift (f_1 <~ of_option (mach_float_read E a) ;;
          f_2 <~ of_option (mach_float_read E b) ;;
          if SFltb f_2 f_1 then Ret 1
          else if SFltb f_1 f_2 then Ret (-1)
          else Ret 0)
  else if (mtype =? DATA_VARCHAR) || (mtype =? DATA_CHAR) then
    let cmp := strnncollsp (my_charset_latin1 E) a a_length b b_length in
    if cmp <? 0 then ret (-1)
    else if negb (cmp =? 0) then ret 1
    else ret 0
  else if mtype =? DATA_BLOB then
    (if negb (Z.land prtype DATA_BINARY_TYPE =? 0) then
       ib_logf_ERROR "comparing a binary BLOB using a character set collation!" ;;
       ut_ad false
     else ret tt) ;;
    (* fall through *)
    innobase_mysql_cmp prtype a a_length b b_length
  else if (mtype =? DATA_VARMYSQL) || (mtype =? DATA_MYSQL) then
    innobase_mysql_cmp prtype a a_length b b_length
  else if mtype =? DATA_GEOMETRY then
    ret 0
  else
    ib_logf_FATAL "unknown data type number %lu" mtype.

(** Lines 333-402. *)
Definition cmp_data (mtype prtype : Z) (data1 : list byte) (len1 : Z)
    (data2 : list byte) (len2 : Z) : M Z :=
  if (len1 =? UNIV_SQL_NULL) || (len2 =? UNIV_SQL_NULL) then
    if len1 =? len2 then ret 0
    else
      (* We define the SQL null to be the smallest possible value of a
         field. *)
      ret (if len1 =? UNIV_SQL_NULL then -1 else 1)
  else if (mtype =? DATA_FIXBINARY) || (mtype =? DATA_BINARY)
          || (mtype =? DATA_INT) || (mtype =? DATA_SYS_CHILD)
          || (mtype =? DATA_SYS)
          || ((mtype =? DATA_BLOB)
              && negb (Z.land prtype DATA_BINARY_TYPE =? 0))
  then
    let len := Z.min len1 len2 in
    ret_ <- lift (memcmp data1 data2 (Z.to_nat len)) ;;
    if negb (ret_ =? 0) then ret (if ret_ <? 0 then -1 else 1)
    else if len1 =? len2 then ret 0
    else
      let pad := dtype_get_pad_char E mtype prtype in
      if pad =? ULINT_UNDEFINED then ret (if len <? len1 then 1 else -1)
      else if len <? len1 then
        lift (cmp_data_pad1 (skipn (Z.to_nat len) data1) len len1 pad)
      else
        ut_ad (len <? len2) ;;
        lift (cmp_data_pad2 (skipn (Z.to_nat len) data2) len len2 pad)
  else
    cmp_whole_field mtype prtype data1 (to_unsigned len1)
                    data2 (to_unsigned len2).

(** Lines 410-422. *)
Definition cmp_data_data (mtype prtype : Z) (data1 : list byte) (len1 : Z)
    (data2 : list byte) (len2 : Z) : M Z :=
  cmp_data mtype prtype data1 len1 data2 len2.

(** Lines 482-513, the loop [for (; cur_field < n_cmp; cur_field++)] with
    [k] iterations left; the value is [ret] and [cur_field] at
    [order_resolved]. *)
Fixpoint cmp_dtuple_rec_fields (dtuple : dtuple_t) (rec : rec_t) (k : nat)
    (cur_field : Z) : M (Z * Z) :=
  match k with
  | O => ret (0, cur_field)
  | S k' =>
      dtuple_field <- lift (dtuple_get_nth_field dtuple cur_field) ;;
      let dtuple_b_ptr := dfield_get_data dtuple_field in
      let type := dfield_get_type dtuple_field in
      let dtuple_f_len := dfield_get_len dtuple_field in
      ' (ext, rec_b_ptr, rec_f_len) <- lift (rec_get_nth_field_ext rec cur_field) ;;
      if (ext : bool) then
        (* We should never compare against an externally stored field. *)
        ut_error
      else
        ut_ad (negb (dfield_is_ext dtuple_field)) ;;
        ret_ <- cmp_data (dtype_mtype type) (dtype_prtype type)
                         dtuple_b_ptr dtuple_f_len rec_b_ptr rec_f_len ;;
        if negb (ret_ =? 0) then ret (ret_, cur_field)
        else cmp_dtuple_rec_fields dtuple rec k' (cur_field + 1)
  end.

(** Lines 877-910 of the debug reimplementation, the loop
    [while (cur_field < n_cmp)] with [k] iterations left. *)
Fixpoint cmp_debug_dtuple_rec_fields (dtuple : dtuple_t) (rec : rec_t)
    (k : nat) (cur_field : Z) : M (Z * Z) :=
  match k with
  | O => ret (0, cur_field)
  | S k' =>
      dtuple_field <- lift (dtuple_get_nth_field dtuple cur_field) ;;
      let mtype := dtype_mtype (dfield_get_type dtuple_field) in
      let prtype := dtype_prtype (dfield_get_type dtuple_field) in
      let dtuple_f_data := dfield_get_data dtuple_field in
      let dtuple_f_len := dfield_get_len dtuple_field in
      ' (ext, rec_f_data, rec_f_len) <- lift (rec_get_nth_field_ext rec cur_field) ;;
      if (ext : bool) then
        (* We do not compare to an externally stored field *)
        ret (0, cur_field)
      else
        ret_ <- cmp_data_data mtype prtype dtuple_f_data dtuple_f_len
                              rec_f_data rec_f_len ;;
        if negb (ret_ =? 0) then ret (ret_, cur_field)
        else cmp_debug_dtuple_rec_fields dtuple rec k' (cur_field + 1)
  end.

(** Lines 818-920, compiled only when UNIV_DEBUG is defined.  The value is
    the returned order and the matched-count written through
    [matched_fields]. *)
Definition cmp_debug_dtuple_rec_with_match (dtuple : dtuple_t) (rec : rec_t)
    (n_cmp : Z) (matched_fields : Z) : M (Z * Z) :=
  ut_ad true (* dtuple && rec && matched_fields *) ;;
  ut_ad (dtuple_check_typed E dtuple) ;;
  ut_ad (rec_offs_validate E rec None) ;;
  ut_ad (0 <? n_cmp) ;;
  ut_ad (n_cmp <=? dtuple_get_n_fields dtuple) ;;
  ut_ad (matched_fields <=? n_cmp) ;;
  ut_ad (matched_fields <=? rec_offs_n_fields rec) ;;
  let cur_field := matched_fields in
  let fields :=
    cmp_debug_dtuple_rec_fields dtuple rec (Z.to_nat (n_cmp - cur_field)) cur_field in
  ' (ret_, cur_field) <-
    (if cur_field =? 0 then
       if has_min_rec_flag (rec_get_info_bits rec (rec_offs_comp rec)) then
         ret ((if has_min_rec_flag (dtuple_get_info_bits dtuple) then 0 else 1),
              cur_field)
       else if has_min_rec_flag (dtuple_get_info_bits dtuple) then
         ret (-1, cur_field)
       else fields
     else fields) ;;
  (* order_resolved: *)
  ut_ad ((-1 <=? ret_) && (ret_ <=? 1)) ;;
  ret (ret_, cur_field).

(** Lines 437-527.  The value is the returned order and the matched-count
    written through [matched_fields].  The record and its offsets are one
    value of the data model, also when the source passes no offsets
    (ROW_FORMAT=REDUNDANT), and [rec_offs_validate] decides for both
    cases. *)
Definition cmp_dtuple_rec_with_match_low (dtuple : dtuple_t) (rec : rec_t)
    (n_cmp : Z) (matched_fields : Z) : M (Z * Z) :=
  ut_ad (dtuple_check_typed E dtuple) ;;
  ut_ad (rec_offs_validate E rec None) ;;
  let cur_field := matched_fields in
  ut_ad (0 <? n_cmp) ;;
  ut_ad (n_cmp <=? dtuple_get_n_fields dtuple) ;;
  ut_ad (cur_field <=? n_cmp) ;;
  ut_ad (cur_field <=? rec_offs_n_fields rec) ;;
  (* Match fields in a loop *)
  let fields :=
    cmp_dtuple_rec_fields dtuple rec (Z.to_nat (n_cmp - cur_field)) cur_field in
  ' (ret_, cur_field) <-
    (if cur_field =? 0 then
       let rec_info := rec_get_info_bits rec (rec_offs_comp rec) in
       let tup_info := dtuple_get_info_bits dtuple in
       if has_min_rec_flag rec_info then
         (* ret = !(tup_info & REC_INFO_MIN_REC_FLAG); goto order_resolved; *)
         ret ((if has_min_rec_flag tup_info then 0 else 1), cur_field)
       else if has_min_rec_flag tup_info then
         (* ret = -1; goto order_resolved; *)
         ret (-1, cur_field)
       else fields
     else fields) ;;
  (* order_resolved: *)
  ut_ad ((-1 <=? ret_) && (ret_ <=? 1)) ;;
  (if UNIV_DEBUG E then
     ' (dret, dmatched) <-
       cmp_debug_dtuple_rec_with_match dtuple rec n_cmp matched_fields ;;
     ut_ad (ret_ =? dret) ;;
     ut_ad (dmatched =? cur_field)
   else ret tt) ;;
  (* *matched_fields = cur_field; return(ret); *)
  ret (ret_, cur_field).

(** Lines 582-605. *)
Definition cmp_rec_rec_simple_field (rec1 rec2 : rec_t) (index : dict_index_t)
    (n : Z) : M Z :=
  col <- lift (dict_index_get_nth_col index n) ;;
  ut_ad_read (x <~ rec_offs_nth_extern rec1 n ;; Ret (negb x)) ;;
  ut_ad_read (x <~ rec_offs_nth_extern rec2 n ;; Ret (negb x)) ;;
  ' (rec1_b_ptr, rec1_f_len) <- lift (rec_get_nth_field rec1 n) ;;
  ' (rec2_b_ptr, rec2_f_len) <- lift (rec_get_nth_field rec2 n) ;;
  cmp_data (col_mtype col) (col_prtype col)
           rec1_b_ptr rec1_f_len rec2_b_ptr rec2_f_len.

(** [innobase_rec_to_mysql(table, rec, index, offsets)]: the row is handed
    to the sink. *)
Definition innobase_rec_to_mysql (table : option TABLE) (rec : rec_t)
    (index : dict_index_t) : M unit :=
  match table with
  | Some t => ([RecToMysql t rec index], Ret tt)
  | None => fail OutOfBounds
  end.

Definition non_null {A : Type} (p : option A) : bool :=
  match p with
  | Some _ => true
  | None => false
  end.

(** Lines 635-653, the loop [for (n = 0; n < n_uniq; n++)] with [k]
    iterations left.  [inl cmp] is the [return(cmp)] inside the loop,
    [inr (n, null_eq)] the state when the loop is left at its end. *)
Fixpoint cmp_rec_rec_simple_uniq (rec1 rec2 : rec_t) (index : dict_index_t)
    (k : nat) (n : Z) (null_eq : bool) : M (Z + Z * bool) :=
  match k with
  | O => ret (inr (n, null_eq))
  | S k' =>
      cmp <- cmp_rec_rec_simple_field rec1 rec2 index n ;;
      if negb (cmp =? 0) then ret (inl cmp)
      else
        (* If the fields are internally equal, they must both be NULL or
           non-NULL. *)
        ut_ad_read (n1 <~ rec_offs_nth_sql_null rec1 n ;;
                    n2 <~ rec_offs_nth_sql_null rec2 n ;;
                    Ret (Bool.eqb n1 n2)) ;;
        is_null <- lift (rec_offs_nth_sql_null rec1 n) ;;
        if (is_null : bool) then
          ut_ad_read (col <~ dict_index_get_nth_col index n ;;
                      Ret (Z.land (col_prtype col) DATA_NOT_NULL =? 0)) ;;
          cmp_rec_rec_simple_uniq rec1 rec2 index k' (n + 1) true
        else
          cmp_rec_rec_simple_uniq rec1 rec2 index k' (n + 1) null_eq
  end.

(** Lines 666-678, the loop [for (; n < dict_index_get_n_fields(index); n++)]
    with [k] iterations left.  [Some cmp] is the [return(cmp)] inside the
    loop, [None] the loop left at its end. *)
Fixpoint cmp_rec_rec_simple_rest (rec1 rec2 : rec_t) (index : dict_index_t)
    (k : nat) (n : Z) : M (option Z) :=
  match k with
  | O => ret None
  | S k' =>
      cmp <- cmp_rec_rec_simple_field rec1 rec2 index n ;;
      if negb (cmp =? 0) then ret (Some cmp)
      else
        ut_ad_read (n1 <~ rec_offs_nth_sql_null rec1 n ;;
                    n2 <~ rec_offs_nth_sql_null rec2 n ;;
                    Ret (Bool.eqb n1 n2)) ;;
        cmp_rec_rec_simple_rest rec1 rec2 index k' (n + 1)
  end.

(** Lines 615-684. *)
Definition cmp_rec_rec_simple (rec1 rec2 : rec_t) (index : dict_index_t)
    (table : option TABLE) : M Z :=
  let n_uniq := dict_index_get_n_unique index in
  let null_eq := false in
  ut_ad (n_uniq <=? rec_offs_n_fields rec1) ;;
  ut_ad (rec_offs_n_fields rec2 =? rec_offs_n_fields rec2) ;;
  ut_ad (Bool.eqb (rec_offs_comp rec1) (rec_offs_comp rec2)) ;;
  r <- cmp_rec_rec_simple_uniq rec1 rec2 index (Z.to_nat n_uniq) 0 null_eq ;;
  match r with
  | inl cmp => ret cmp
  | inr (n, null_eq) =>
      (* If we ran out of fields, the ordering columns of rec1 were equal
         to rec2. Issue a duplicate key error if needed. *)
      if negb null_eq && non_null table && dict_index_is_unique index then
        (* Report erroneous row using new version of table. *)
        innobase_rec_to_mysql table rec1 index ;;
        ret 0
      else
        (* Else, keep comparing so that we have the full internal order. *)
        r <- cmp_rec_rec_simple_rest rec1 rec2 index
               (Z.to_nat (dict_index_get_n_fields index - n)) n ;;
        match r with
        | Some cmp => ret cmp
        | None =>
            (* This should never be reached. Internally, an index must
               never contain duplicate entries. *)
            ut_ad false ;;
            ret 0
        end
  end.

(** Lines 749-794, the loop
    [for (cur_field = 0; cur_field < rec1_n_fields
          && cur_field < rec2_n_fields; cur_field++)]
    with [k] iterations left; [ret_] is the current content of [ret]. *)
Fixpoint cmp_rec_rec_fields (rec1 rec2 : rec_t) (index : dict_index_t)
    (nulls_unequal : bool) (k : nat) (cur_field : Z) (ret_ : Z) : M (Z * Z) :=
  match k with
  | O =>
      (* If we ran out of fields, rec1 was equal to rec2 up to the common
         fields *)
      ut_ad (ret_ =? 0) ;;
      ret (ret_, cur_field)
  | S k' =>
      ' (mtype, prtype) <-
        (if dict_index_is_univ index then
           (* This is for the insert buffer B-tree. *)
           ret (DATA_BINARY, 0)
         else
           col <- lift (dict_index_get_nth_col index cur_field) ;;
           ret (col_mtype col, col_prtype col)) ;;
      ut_ad_read (x <~ rec_offs_nth_extern rec1 cur_field ;; Ret (negb x)) ;;
      ut_ad_read (x <~ rec_offs_nth_extern rec2 cur_field ;; Ret (negb x)) ;;
      ' (rec1_b_ptr, rec1_f_len) <- lift (rec_get_nth_field rec1 cur_field) ;;
      ' (rec2_b_ptr, rec2_f_len) <- lift (rec_get_nth_field rec2 cur_field) ;;
      if nulls_unequal && (rec1_f_len =? UNIV_SQL_NULL)
         && (rec2_f_len =? UNIV_SQL_NULL)
      then ret (-1, cur_field)
      else
        ret_ <- cmp_data mtype prtype rec1_b_ptr rec1_f_len
                         rec2_b_ptr rec2_f_len ;;
        if negb (ret_ =? 0) then ret (ret_, cur_field)
        else cmp_rec_rec_fields rec1 rec2 index nulls_unequal k'
                                (cur_field + 1) ret_
  end.

(** Lines 702-805.  The local [cur_field] is declared without an
    initialiser (line 719) and first assigned by the [for] statement of line
    749, so what it holds before that is indeterminate:
    [cur_field_indeterminate] stands for that content.  The value is the
    returned order and the matched-count written through
    [matched_fields]. *)
Definition cmp_rec_rec_with_match (rec1 rec2 : rec_t) (index : dict_index_t)
    (nulls_unequal : bool) (cur_field_indeterminate : Z) : M (Z * Z) :=
  let cur_field := cur_field_indeterminate in
  let ret_ := 0 in
  ut_ad true (* rec1 && rec2 && index *) ;;
  ut_ad (rec_offs_validate E rec1 (Some index)) ;;
  ut_ad (rec_offs_validate E rec2 (Some index)) ;;
  ut_ad (Bool.eqb (rec_offs_comp rec1) (rec_offs_comp rec2)) ;;
  let comp := rec_offs_comp rec1 in
  let rec1_n_fields := rec_offs_n_fields rec1 in
  let rec2_n_fields := rec_offs_n_fields rec2 in
  ' (ret_, cur_field) <-
    (* Test if rec is the predefined minimum record *)
    (if has_min_rec_flag (rec_get_info_bits rec1 comp) then
       (* There should only be one such record. *)
       ut_ad (negb (has_min_rec_flag (rec_get_info_bits rec2 comp))) ;;
       (* ret = -1; goto order_resolved; *)
       ret (-1, cur_field)
     else if has_min_rec_flag (rec_get_info_bits rec2 comp) then
       (* ret = 1; goto order_resolved; *)
       ret (1, cur_field)
     else
       (* Match fields in a loop *)
       cmp_rec_rec_fields rec1 rec2 index nulls_unequal
         (Z.to_nat (Z.min rec1_n_fields rec2_n_fields)) 0 ret_) ;;
  (* order_resolved: *)
  ut_ad ((-1 <=? ret_) && (ret_ <=? 1)) ;;
  (* *matched_fields = cur_field; return(ret); *)
  ret (ret_, cur_field).

End Comparator.

(* ================================================================== *)
(** * The remaining entry points *)
(* ================================================================== *)

Section EntryPoints.

Variable E : collaborators.

(** Modelled from the spec: the two string classifiers of data0type.ic, which
    decide whether a column is a "non-binary string type" or a "binary
    string type" from its main type and precise type.  They are not among
    the sources and are taken as they come. *)
Variable dtype_is_non_binary_string_type : Z -> Z -> bool.
Variable dtype_is_binary_string_type : Z -> Z -> bool.

(** Lines 136-182. *)
Definition cmp_cols_are_equal (col1 col2 : dict_col_t) (check_charsets : bool)
  : bool :=
  if dtype_is_non_binary_string_type (col_mtype col1) (col_prtype col1)
     && dtype_is_non_binary_string_type (col_mtype col2) (col_prtype col2)
  then
    (* Both are non-binary string types: they can be compared if and only
       if the charset-collation is the same *)
    if check_charsets then
      dtype_get_charset_coll E (col_prtype col1)
      =? dtype_get_charset_coll E (col_prtype col2)
    else true
  else if dtype_is_binary_string_type (col_mtype col1) (col_prtype col1)
          && dtype_is_binary_string_type (col_mtype col2) (col_prtype col2)
  then
    (* Both are binary string types: they can be compared *)
    true
  else if negb (col_mtype col1 =? col_mtype col2) then false
  else if (col_mtype col1 =? DATA_INT)
          && negb (Z.land (col_prtype col1) DATA_UNSIGNED
                   =? Z.land (col_prtype col2) DATA_UNSIGNED)
  then
    (* The storage format of an unsigned integer is different from a signed
       integer *)
    false
  else negb (col_mtype col1 =? DATA_INT) || (col_len col1 =? col_len col2).

Definition dtuple_get_n_fields_cmp (tuple : dtuple_t) : Z :=
  dtuple_n_fields_cmp tuple.

(** Modelled from the spec: the macro [cmp_dtuple_rec_with_match] of
    rem0cmp.h, which is not among the sources: the comparison over "all of
    the tuple's declared comparison-field count" ("Only dtuple->n_fields_cmp
    first fields are taken into account", line 426). *)
Definition cmp_dtuple_rec_with_match (dtuple : dtuple_t) (rec : rec_t)
    (matched_fields : Z) : M (Z * Z) :=
  cmp_dtuple_rec_with_match_low E dtuple rec (dtuple_get_n_fields_cmp dtuple)
    matched_fields.

(** Lines 535-546. *)
Definition cmp_dtuple_rec (dtuple : dtuple_t) (rec : rec_t) : M Z :=
  let matched_fields := 0 in
  ut_ad E (rec_offs_validate E rec None) ;;
  ' (ret_, _) <- cmp_dtuple_rec_with_match dtuple rec matched_fields ;;
  ret ret_.

(** Lines 554-573. *)
Definition cmp_dtuple_is_prefix_of_rec (dtuple : dtuple_t) (rec : rec_t)
  : M bool :=
  let matched_fields := 0 in
  ut_ad E (rec_offs_validate E rec None) ;;
  let n_fields := dtuple_get_n_fields dtuple in
  if rec_offs_n_fields rec <? n_fields then
    ut_ad E false ;;
    ret false
  else
    ' (_, matched_fields) <-
      cmp_dtuple_rec_with_match dtuple rec matched_fields ;;
    ret (matched_fields =? n_fields).

End EntryPoints.

(* ================================================================== *)
(** * The specification's wording, as functions *)
(* ================================================================== *)

(** "Binary-comparable types (fixed-binary, binary, integer, two internal
    system types, and binary-flagged blob/text)". *)
Definition binary_comparable (mtype prtype : Z) : bool :=
  (mtype =? DATA_FIXBINARY) || (mtype =? DATA_BINARY) || (mtype =? DATA_INT)
  || (mtype =? DATA_SYS_CHILD) || (mtype =? DATA_SYS)
  || ((mtype =? DATA_BLOB) && negb (Z.land prtype DATA_BINARY_TYPE =? 0)).

(** "Conceptually right-pad the shorter value with that pad character out to
    the longer length and continue the byte comparison from the first extra
    byte": the order of the extra bytes of the longer value against the pad
    character. *)
Fixpoint pad_order (extra : list byte) (pad : Z) : Z :=
  match extra with
  | [] => 0
  | b :: extra' =>
      if byte_val b =? pad then pad_order extra' pad
      else if byte_val b <? pad then -1 else 1
  end.

(** "Strip leading spaces". *)
Fixpoint strip_spaces (s : list byte) : list byte :=
  match s with
  | c :: s' => if byte_val c =? 32 then strip_spaces s' else s
  | [] => []
  end.

(** "Strip leading '+'/'0'". *)
Fixpoint strip_plus_zero (s : list byte) : list byte :=
  match s with
  | c :: s' =>
      if (byte_val c =? 43) || (byte_val c =? 48) then strip_plus_zero s' else s
  | [] => []
  end.

Definition starts_with_minus (s : list byte) : bool :=
  match s with
  | c :: _ => byte_val c =? 45
  | [] => false
  end.

(** "Equal-length remainders are compared byte-for-byte". *)
Fixpoint bytewise_order (a b : list byte) : Z :=
  match a, b with
  | ca :: a', cb :: b' =>
      if byte_val ca =? byte_val cb then bytewise_order a' b'
      else if byte_val ca >? byte_val cb then 1 else -1
  | _, _ => 0
  end.

(** The decimal-as-text order in the words of the specification. *)
Definition decimal_text_order (a b : list byte) : Z :=
  let a := strip_spaces a in
  let b := strip_spaces b in
  if starts_with_minus a && negb (starts_with_minus b) then -1
  else if negb (starts_with_minus a) && starts_with_minus b then 1
  else
    let sign := if starts_with_minus a then -1 else 1 in
    let a := strip_plus_zero (if starts_with_minus a then tl a else a) in
    let b := strip_plus_zero (if starts_with_minus b then tl b else b) in
    if Nat.ltb (List.length a) (List.length b) then - sign
    else if Nat.ltb (List.length b) (List.length a) then sign
    else sign * bytewise_order a b.

(** An operand of the decimal comparison "contains at least one byte that is
    not a leading space". *)
Definition has_non_space (s : list byte) : bool :=
  existsb (fun c => negb (byte_val c =? 32)) s.

(** The length of an in-page value as the [unsigned int] the comparator is
    handed. *)
Definition len_of (s : list byte) : Z := Z.of_nat (List.length s).

(** The opposite of an order, on outcomes and on computations: a returned
    order is negated, a fault and the events are kept. *)
Definition outcome_opp (o : outcome Z) : outcome Z :=
  match o with
  | Ret r => Ret (- r)
  | Fail f => Fail f
  end.

Definition M_opp (c : M Z) : M Z := (events c, outcome_opp (result c)).

(** "All return values are normalized to exactly {-1, 0, 1}": a computation
    of an order that emits no event and returns -1, 0 or 1 when it
    returns. *)
Definition normalised (c : M Z) : Prop :=
  events c = [] /\ forall r : Z, result c = Ret r -> -1 <= r <= 1.

(** What the comparator requires of a collation: "must return a value whose
    sign (not magnitude) indicates order", so that exchanging the operands
    exchanges the sign. *)
Definition collation_antisymmetric (cs : CHARSET_INFO) : Prop :=
  forall (a : list byte) (a_length : Z) (b : list byte) (b_length : Z),
    Z.sgn (strnncollsp cs b b_length a a_length)
    = - Z.sgn (strnncollsp cs a a_length b b_length).

(** "Collated string types": the types whose scalar comparison is delegated
    to a collation. *)
Definition collated (mtype prtype : Z) : bool :=
  (mtype =? DATA_VARCHAR) || (mtype =? DATA_CHAR)
  || ((mtype =? DATA_BLOB) && (Z.land prtype DATA_BINARY_TYPE =? 0))
  || (mtype =? DATA_VARMYSQL) || (mtype =? DATA_MYSQL).

Definition collations_antisymmetric (E : collaborators) : Prop :=
  collation_antisymmetric (my_charset_latin1 E)
  /\ forall (cs_num : Z) (cs : CHARSET_INFO),
       get_charset E cs_num = Some cs -> collation_antisymmetric cs.

(** "Preconditions: n > 0; n <= tuple's field count; the matched-count input
    <= n and <= the record's field count", together with the two validators
    a debug build asserts. *)
Definition dtuple_rec_preconditions (E : collaborators) (dtuple : dtuple_t)
    (rec : rec_t) (n_cmp matched_fields : Z) : bool :=
  dtuple_check_typed E dtuple && rec_offs_validate E rec None
  && (0 <? n_cmp) && (n_cmp <=? dtuple_get_n_fields dtuple)
  && (matched_fields <=? n_cmp) && (matched_fields <=? rec_offs_n_fields rec).

(** Steps 1 to 3 of the tuple-vs-record algorithm: the sentinel rule when
    resuming from field 0, then the fields from the matched-count up to n. *)
Definition tuple_vs_record (E : collaborators) (dtuple : dtuple_t)
    (rec : rec_t) (n_cmp matched_fields : Z) : M (Z * Z) :=
  if (matched_fields =? 0) && has_min_rec_flag (rec_info_bits rec) then
    ret ((if has_min_rec_flag (dtuple_info_bits dtuple) then 0 else 1), 0)
  else if (matched_fields =? 0) && has_min_rec_flag (dtuple_info_bits dtuple)
  then ret (-1, 0)
  else cmp_dtuple_rec_fields E dtuple rec
         (Z.to_nat (n_cmp - matched_fields)) matched_fields.

(** What a debug build asserts on entry to the record-vs-record
    comparison. *)
Definition rec_rec_preconditions (E : collaborators) (rec1 rec2 : rec_t)
    (index : dict_index_t) : bool :=
  rec_offs_validate E rec1 (Some index) && rec_offs_validate E rec2 (Some index)
  && Bool.eqb (rec_comp rec1) (rec_comp rec2).

(** Column [n] of the record is SQL NULL. *)
Definition field_is_null (rec : rec_t) (n : nat) : bool :=
  match nth_error (rec_fields rec) n with
  | Some f => rec_field_len f =? UNIV_SQL_NULL
  | None => false
  end.

(** "Any uniqueness-prefix column is NULL". *)
Definition uniq_has_null (rec : rec_t) (index : dict_index_t) : bool :=
  existsb (field_is_null rec) (seq 0 (Z.to_nat (index_n_uniq index))).

(** Column [n] of the index is not declared NOT NULL. *)
Definition col_is_nullable (index : dict_index_t) (n : nat) : bool :=
  match nth_error (index_cols index) n with
  | Some col => Z.land (col_prtype col) DATA_NOT_NULL =? 0
  | None => true
  end.

(** What a debug build asserts in the unique-key comparison beyond the
    field comparisons themselves: the uniqueness prefix fits the record, the
    two records have the same format, and a NULL is found only in a column
    that admits it. *)
Definition rec_rec_simple_preconditions (rec1 rec2 : rec_t)
    (index : dict_index_t) : bool :=
  (index_n_uniq index <=? rec_offs_n_fields rec1)
  && Bool.eqb (rec_comp rec1) (rec_comp rec2)
  && forallb (fun n => negb (field_is_null rec1 n) || col_is_nullable index n)
             (seq 0 (Z.to_nat (index_n_uniq index))).

(** "No field in [0,n) is externally stored". *)
Definition no_extern_fields (rec : rec_t) (n : nat) : bool :=
  forallb (fun f => negb (rec_field_extern f)) (firstn n (rec_fields rec)).

(** The order of two byte strings "byte-for-byte (unsigned byte order)",
    where of two strings one of which is a prefix of the other "the longer
    one is greater". *)
Fixpoint lex_order (a b : list byte) : Z :=
  match a, b with
  | [], [] => 0
  | [], _ :: _ => -1
  | _ :: _, [] => 1
  | ca :: a', cb :: b' =>
      if byte_val ca =? byte_val cb then lex_order a' b'
      else if byte_val ca <? byte_val cb then -1 else 1
  end.

(** Field [i] of the tuple and field [i] of the record are both there, the
    record's is stored in the page, a debug build finds the tuple's stored
    in the tuple, and the scalar comparison under the type of the tuple's
    field returns [v]. *)
Definition tuple_field_compares (E : collaborators) (dtuple : dtuple_t)
    (rec : rec_t) (i : Z) (v : Z) : Prop :=
  exists (f : dfield_t) (rf : rec_field_t),
    nth_error (dtuple_fields dtuple) (Z.to_nat i) = Some f
    /\ nth_error (rec_fields rec) (Z.to_nat i) = Some rf
    /\ rec_field_extern rf = false
    /\ (UNIV_DEBUG E = true -> dfield_ext f = false)
    /\ cmp_data E (dtype_mtype (dfield_type f)) (dtype_prtype (dfield_type f))
         (dfield_data f) (dfield_len f) (rec_field_data rf) (rec_field_len rf)
       = ret v.

(** The digits of a decimal operand: what is left of it after the leading
    spaces, the sign and the leading '+' and '0'. *)
Definition decimal_digits (s : list byte) : list byte :=
  strip_plus_zero
    (if starts_with_minus (strip_spaces s) then tl (strip_spaces s)
     else strip_spaces s).

Definition decimal_negative (s : list byte) : bool :=
  starts_with_minus (strip_spaces s).

(** The MySQL types a debug build admits in [innobase_mysql_cmp], lines
    102-114. *)
Definition mysql_string_type (prtype : Z) : bool :=
  let t := Z.land prtype DATA_MYSQL_TYPE_MASK in
  (t =? MYSQL_TYPE_BIT) || (t =? MYSQL_TYPE_STRING)
  || (t =? MYSQL_TYPE_VAR_STRING) || (t =? MYSQL_TYPE_TINY_BLOB)
  || (t =? MYSQL_TYPE_MEDIUM_BLOB) || (t =? MYSQL_TYPE_BLOB)
  || (t =? MYSQL_TYPE_LONG_BLOB) || (t =? MYSQL_TYPE_VARCHAR).

(* ================================================================== *)
(** * A concrete set of collaborators *)
(* ================================================================== *)

(** The properties below hold for every value of [collaborators]; this one
    is used to run the comparator on concrete inputs. *)
Module Sample.

(** The charset-collation id in the bits of the precise type above the
    flags. *)
Definition charset_coll (prtype : Z) : Z := Z.land (Z.shiftr prtype 16) 32767.

(** A pad-character table in the manner of data0type.ic: binary strings of
    the binary charset-collation 63 and the non-string types have no pad
    character, the other strings are padded with a space. *)
Definition pad_char (mtype prtype : Z) : Z :=
  if ((mtype =? DATA_FIXBINARY) || (mtype =? DATA_BINARY))
     && (charset_coll prtype =? 63)
  then ULINT_UNDEFINED
  else if (mtype =? DATA_FIXBINARY) || (mtype =? DATA_BINARY)
          || (mtype =? DATA_CHAR) || (mtype =? DATA_VARCHAR)
          || (mtype =? DATA_MYSQL) || (mtype =? DATA_VARMYSQL)
  then 32
  else if (mtype =? DATA_BLOB) && (Z.land prtype DATA_BINARY_TYPE =? 0)
  then 32
  else ULINT_UNDEFINED.

(** A byte-order collation that ignores trailing spaces. *)
Fixpoint space_order (s : list byte) : Z :=
  match s with
  | [] => 0
  | c :: s' => if byte_val c =? 32 then space_order s' else byte_val c - 32
  end.

Fixpoint collsp (a b : list byte) : Z :=
  match a with
  | [] => - space_order b
  | ca :: a' =>
      match b with
      | [] => space_order a
      | cb :: b' =>
          if byte_val ca =? byte_val cb then collsp a' b'
          else byte_val ca - byte_val cb
      end
  end.

Definition byte_order_cs (number : Z) : CHARSET_INFO :=
  {| cs_number := number;
     strnncollsp := fun a a_length b b_length =>
       collsp (firstn (Z.to_nat a_length) a) (firstn (Z.to_nat b_length) b) |}.

Definition charset_registry (cs_num : Z) : option CHARSET_INFO :=
  if (cs_num =? 8) || (cs_num =? 63) then Some (byte_order_cs cs_num) else None.

(** IEEE-754 values stored least significant byte first. *)
Fixpoint little_endian (bs : list byte) : Z :=
  match bs with
  | [] => 0
  | b :: bs' => byte_val b + 256 * little_endian bs'
  end.

Definition ieee_of_bits (mw ew : Z) (x : Z) : spec_float :=
  let m := x mod 2 ^ mw in
  let e := (x / 2 ^ mw) mod 2 ^ ew in
  let s := negb ((x / 2 ^ (mw + ew)) mod 2 =? 0) in
  let bias := 2 ^ (ew - 1) - 1 in
  if e =? 0 then
    match m with
    | Zpos p => S754_finite s p (1 - bias - mw)
    | _ => S754_zero s
    end
  else if e =? 2 ^ ew - 1 then
    if m =? 0 then S754_infinity s else S754_nan
  else
    match m + 2 ^ mw with
    | Zpos p => S754_finite s p (e - bias - mw)
    | _ => S754_nan
    end.

Definition read_ieee (width : nat) (mw ew : Z) (p : list byte) : option spec_float :=
  if Nat.ltb (List.length p) width then None
  else Some (ieee_of_bits mw ew (little_endian (firstn width p))).

Definition env (debug : bool) : collaborators :=
  {| UNIV_DEBUG := debug;
     dtype_get_pad_char := pad_char;
     dtype_get_charset_coll := charset_coll;
     get_charset := charset_registry;
     my_charset_latin1 := byte_order_cs 8;
     mach_double_read := read_ieee 8 52 11;
     mach_float_read := read_ieee 4 23 8;
     dtuple_check_typed := fun _ => true;
     rec_offs_validate := fun _ _ => true |}.

Definition text (s : string) : list byte := list_byte_of_string s.

(** Tuples and records of binary columns without pad character, given by
    the bytes of their fields. *)
Definition binary_type : dtype_t :=
  {| dtype_mtype := DATA_BINARY; dtype_prtype := 63 * 65536 |}.

Definition tuple (info_bits : Z) (fields : list (list byte)) : dtuple_t :=
  {| dtuple_info_bits := info_bits;
     dtuple_n_fields_cmp := Z.of_nat (List.length fields);
     dtuple_fields :=
       map (fun s => mk_dfield s false (len_of s) binary_type) fields |}.

Definition record (info_bits : Z) (fields : list (list byte)) : rec_t :=
  {| rec_info_bits := info_bits;
     rec_comp := true;
     rec_fields := map (fun s => mk_rec_field s (len_of s) false) fields |}.

(** Records with SQL NULL fields: [None] is a NULL. *)
Definition record_with_nulls (info_bits : Z)
    (fields : list (option (list byte))) : rec_t :=
  {| rec_info_bits := info_bits;
     rec_comp := true;
     rec_fields :=
       map (fun o => match o with
                     | Some s => mk_rec_field s (len_of s) false
                     | None => mk_rec_field [] UNIV_SQL_NULL false
                     end) fields |}.

(** An index on two binary columns, the first of which is the uniqueness
    prefix. *)
Definition index_on_two (type : Z) : dict_index_t :=
  {| index_type := type;
     index_n_uniq := 1;
     index_n_fields := 2;
     index_cols := [mk_dict_col DATA_BINARY (63 * 65536) 0;
                    mk_dict_col DATA_BINARY (63 * 65536) 0] |}.

Definition tuple_abcef : dtuple_t :=
  tuple 0 [text "a"; text "b"; text "c"; text "e"; text "f"].

Definition record_abcdfg : rec_t :=
  record 0 [text "a"; text "b"; text "c"; text "d"; text "f"; text "g"].

(** The precise type of a BLOB column with the binary flag and the
    charset-collation 8. *)
Definition binary_blob_prtype : Z :=
  MYSQL_TYPE_BLOB + DATA_BINARY_TYPE + 8 * 65536.

End Sample.

(* ================================================================== *)
(** * Properties *)
(* ================================================================== *)

(** ** The effect monad *)

Lemma bind_ret {A B : Type} (a : A) (k : A -> M B) : bind (ret a) k = k a.
Proof. unfold bind, ret. destruct (k a); reflexivity. Qed.

Lemma bind_lift_Ret {A B : Type} (a : A) (k : A -> M B) :
  bind (lift (Ret a)) k = k a.
Proof. apply bind_ret. Qed.

Lemma ut_ad_true (E : collaborators) : ut_ad E true = ret tt.
Proof. unfold ut_ad. destruct (UNIV_DEBUG E); reflexivity. Qed.

Lemma ut_ad_release (E : collaborators) (c : bool) :
  UNIV_DEBUG E = false -> ut_ad E c = ret tt.
Proof. unfold ut_ad. intros ->. reflexivity. Qed.

(** ** NULL ordering *)

(** C1. For every column type, whatever the data pointers: two SQL NULLs
    compare equal, a NULL is less than a value that is not NULL, and a value
    that is not NULL is greater than a NULL; [cmp_data_data] does the
    same. *)
Theorem cmp_data_null_ordering (E : collaborators) (mtype prtype : Z)
    (data1 data2 : list byte) (len : Z) :
  len <> UNIV_SQL_NULL ->
  cmp_data E mtype prtype data1 UNIV_SQL_NULL data2 UNIV_SQL_NULL = ret 0
  /\ cmp_data E mtype prtype data1 UNIV_SQL_NULL data2 len = ret (-1)
  /\ cmp_data E mtype prtype data1 len data2 UNIV_SQL_NULL = ret 1
  /\ cmp_data_data E mtype prtype data1 UNIV_SQL_NULL data2 UNIV_SQL_NULL = ret 0
  /\ cmp_data_data E mtype prtype data1 UNIV_SQL_NULL data2 len = ret (-1)
  /\ cmp_data_data E mtype prtype data1 len data2 UNIV_SQL_NULL = ret 1.
Proof.
  intros Hlen.
  assert (Hne : (len =? UNIV_SQL_NULL) = false) by (apply Z.eqb_neq; exact Hlen).
  assert (Hne' : (UNIV_SQL_NULL =? len) = false)
    by (apply Z.eqb_neq; intro H; apply Hlen; symmetry; exact H).
  unfold cmp_data_data, cmp_data.
  rewrite Z.eqb_refl, Hne, Hne'. simpl.
  repeat split; reflexivity.
Qed.

Lemma cmp_data_null_ordering_witness :
  cmp_data (Sample.env false) DATA_DECIMAL 0 [] UNIV_SQL_NULL (Sample.text "7") 1
  = ret (-1).
Proof.
  apply (cmp_data_null_ordering (Sample.env false) DATA_DECIMAL 0
           [] (Sample.text "7") 1).
  unfold UNIV_SQL_NULL. lia.
Defined.

(** ** Binary comparison and padding *)

Lemma memcmp_shared_prefix (n : nat) :
  forall a b : list byte,
    firstn n a = firstn n b ->
    (n <= List.length a)%nat -> (n <= List.length b)%nat ->
    memcmp a b n = Ret 0.
Proof.
  induction n as [|n IH]; intros a b Heq Ha Hb; simpl.
  - reflexivity.
  - destruct a as [|ca a]; [simpl in Ha; lia|].
    destruct b as [|cb b]; [simpl in Hb; lia|].
    simpl in Heq, Ha, Hb. injection Heq as Hc Hrest. subst cb.
    rewrite Z.eqb_refl. apply IH; [exact Hrest | lia | lia].
Qed.

Lemma cmp_data_pad1_order (pad : Z) (p : list byte) :
  forall len len1 : Z,
    p <> [] -> len + len_of p = len1 ->
    cmp_data_pad1 p len len1 pad = Ret (pad_order p pad).
Proof.
  induction p as [|b p IH]; intros len len1 Hne Hlen; [congruence|].
  simpl. destruct (byte_val b =? pad) eqn:Hb; simpl.
  - unfold len_of in Hlen. simpl List.length in Hlen.
    destruct p as [|b' p].
    + simpl in Hlen.
      replace (len + 1 <? len1) with false by (symmetry; apply Z.ltb_ge; lia).
      reflexivity.
    + replace (len + 1 <? len1) with true
        by (symmetry; apply Z.ltb_lt; simpl List.length in Hlen; lia).
      apply IH; [discriminate|].
      unfold len_of. simpl List.length in *. lia.
  - reflexivity.
Qed.

Lemma cmp_data_pad2_order (pad : Z) (p : list byte) :
  forall len len2 : Z,
    p <> [] -> len + len_of p = len2 ->
    cmp_data_pad2 p len len2 pad = Ret (- pad_order p pad).
Proof.
  induction p as [|b p IH]; intros len len2 Hne Hlen; [congruence|].
  simpl. destruct (byte_val b =? pad) eqn:Hb; simpl.
  - unfold len_of in Hlen. simpl List.length in Hlen.
    destruct p as [|b' p].
    + simpl in Hlen.
      replace (len + 1 <? len2) with false by (symmetry; apply Z.ltb_ge; lia).
      reflexivity.
    + replace (len + 1 <? len2) with true
        by (symmetry; apply Z.ltb_lt; simpl List.length in Hlen; lia).
      apply IH; [discriminate|].
      unfold len_of. simpl List.length in *. lia.
  - apply Z.eqb_neq in Hb.
    destruct (byte_val b <? pad) eqn:Hlt.
    + apply Z.ltb_lt in Hlt.
      replace (pad <? byte_val b) with false by (symmetry; apply Z.ltb_ge; lia).
      reflexivity.
    + apply Z.ltb_ge in Hlt.
      replace (pad <? byte_val b) with true by (symmetry; apply Z.ltb_lt; lia).
      reflexivity.
Qed.

(** The binary path of [cmp_data] on two values that are not NULL and agree
    on their shared-length prefix. *)
Lemma cmp_data_shared_prefix (E : collaborators) (mtype prtype : Z)
    (data1 data2 : list byte) :
  binary_comparable mtype prtype = true ->
  len_of data1 < UNIV_SQL_NULL ->
  len_of data2 < UNIV_SQL_NULL ->
  firstn (Z.to_nat (Z.min (len_of data1) (len_of data2))) data1
  = firstn (Z.to_nat (Z.min (len_of data1) (len_of data2))) data2 ->
  len_of data1 <> len_of data2 ->
  cmp_data E mtype prtype data1 (len_of data1) data2 (len_of data2)
  = if dtype_get_pad_char E mtype prtype =? ULINT_UNDEFINED
    then ret (if len_of data1 <? len_of data2 then -1 else 1)
    else if len_of data2 <? len_of data1
         then ret (pad_order (skipn (Z.to_nat (len_of data2)) data1)
                             (dtype_get_pad_char E mtype prtype))
         else ret (- pad_order (skipn (Z.to_nat (len_of data1)) data2)
                               (dtype_get_pad_char E mtype prtype)).
Proof.
  intros Hbin H1 H2 Hpre Hne.
  unfold cmp_data.
  replace (len_of data1 =? UNIV_SQL_NULL) with false
    by (symmetry; apply Z.eqb_neq; lia).
  replace (len_of data2 =? UNIV_SQL_NULL) with false
    by (symmetry; apply Z.eqb_neq; lia).
  unfold binary_comparable in Hbin. cbv beta iota. simpl orb at 1.
  rewrite Hbin.
  rewrite (memcmp_shared_prefix _ data1 data2 Hpre)
    by (unfold len_of; lia).
  rewrite bind_lift_Ret. simpl negb. cbv iota.
  replace (len_of data1 =? len_of data2) with false
    by (symmetry; apply Z.eqb_neq; exact Hne).
  destruct (dtype_get_pad_char E mtype prtype =? ULINT_UNDEFINED) eqn:Hpad.
  - destruct (Z.min (len_of data1) (len_of data2) <? len_of data1) eqn:Hm.
    + apply Z.ltb_lt in Hm.
      replace (len_of data1 <? len_of data2) with false
        by (symmetry; apply Z.ltb_ge; lia).
      reflexivity.
    + apply Z.ltb_ge in Hm.
      replace (len_of data1 <? len_of data2) with true
        by (symmetry; apply Z.ltb_lt; lia).
      reflexivity.
  - destruct (Z.min (len_of data1) (len_of data2) <? len_of data1) eqn:Hm.
    + apply Z.ltb_lt in Hm.
      replace (len_of data2 <? len_of data1) with true
        by (symmetry; apply Z.ltb_lt; lia).
      replace (Z.min (len_of data1) (len_of data2)) with (len_of data2) by lia.
      rewrite cmp_data_pad1_order; [reflexivity | | ].
      * intro Hnil. apply (f_equal (@List.length byte)) in Hnil.
        rewrite length_skipn in Hnil. unfold len_of in *. simpl in Hnil. lia.
      * unfold len_of in *. rewrite length_skipn. lia.
    + apply Z.ltb_ge in Hm.
      replace (len_of data2 <? len_of data1) with false
        by (symmetry; apply Z.ltb_ge; lia).
      replace (Z.min (len_of data1) (len_of data2)) with (len_of data1) by lia.
      replace (len_of data1 <? len_of data2) with true
        by (symmetry; apply Z.ltb_lt; lia).
      rewrite ut_ad_true, bind_ret.
      rewrite cmp_data_pad2_order; [reflexivity | | ].
      * intro Hnil. apply (f_equal (@List.length byte)) in Hnil.
        rewrite length_skipn in Hnil. unfold len_of in *. simpl in Hnil. lia.
      * unfold len_of in *. rewrite length_skipn. lia.
Qed.

(** C2. For a binary-comparable type and two values that are not NULL, agree
    on their shared-length prefix and differ in length: when the type has a
    pad character, the order is that of the extra bytes of the longer value
    against the pad character, so that [0x41,0x42] and [0x41,0x42,P,P]
    compare equal for the pad byte P; when the type has no pad character,
    the longer value is greater, so that the same two values compare as
    less. *)
Theorem cmp_data_binary_padding (E : collaborators) (mtype prtype : Z)
    (data1 data2 : list byte) :
  binary_comparable mtype prtype = true ->
  len_of data1 < UNIV_SQL_NULL ->
  len_of data2 < UNIV_SQL_NULL ->
  firstn (Z.to_nat (Z.min (len_of data1) (len_of data2))) data1
  = firstn (Z.to_nat (Z.min (len_of data1) (len_of data2))) data2 ->
  len_of data1 <> len_of data2 ->
  (dtype_get_pad_char E mtype prtype <> ULINT_UNDEFINED ->
   cmp_data E mtype prtype data1 (len_of data1) data2 (len_of data2)
   = ret (if len_of data2 <? len_of data1
          then pad_order (skipn (Z.to_nat (len_of data2)) data1)
                         (dtype_get_pad_char E mtype prtype)
          else - pad_order (skipn (Z.to_nat (len_of data1)) data2)
                           (dtype_get_pad_char E mtype prtype))
   /\ forall P : byte,
        byte_val P = dtype_get_pad_char E mtype prtype ->
        cmp_data E mtype prtype [x41; x42] 2 [x41; x42; P; P] 4 = ret 0)
  /\ (dtype_get_pad_char E mtype prtype = ULINT_UNDEFINED ->
      cmp_data E mtype prtype data1 (len_of data1) data2 (len_of data2)
      = ret (if len_of data1 <? len_of data2 then -1 else 1)
      /\ forall P : byte,
           cmp_data E mtype prtype [x41; x42] 2 [x41; x42; P; P] 4 = ret (-1)).
Proof.
  intros Hbin H1 H2 Hpre Hne.
  pose proof (cmp_data_shared_prefix E mtype prtype data1 data2
                Hbin H1 H2 Hpre Hne) as Hgen.
  assert (Hex : forall P : byte,
             cmp_data E mtype prtype [x41; x42] 2 [x41; x42; P; P] 4
             = if dtype_get_pad_char E mtype prtype =? ULINT_UNDEFINED
               then ret (-1)
               else ret (- pad_order [P; P] (dtype_get_pad_char E mtype prtype))).
  { intro P.
    exact (cmp_data_shared_prefix E mtype prtype [x41; x42] [x41; x42; P; P]
             Hbin eq_refl eq_refl eq_refl ltac:(discriminate)). }
  split.
  - intro Hpad. apply Z.eqb_neq in Hpad. rewrite Hpad in Hgen. split.
    + rewrite Hgen. destruct (len_of data2 <? len_of data1); reflexivity.
    + intros P HP. rewrite Hex, Hpad. simpl. rewrite HP, Z.eqb_refl.
      reflexivity.
  - intro Hpad. apply Z.eqb_eq in Hpad. rewrite Hpad in Hgen. split.
    + exact Hgen.
    + intro P. rewrite Hex, Hpad. reflexivity.
Qed.

Lemma cmp_data_binary_padding_witness :
  cmp_data (Sample.env false) DATA_BINARY 0
           [x41; x42] 2 [x41; x42; x20; x20] 4 = ret 0
  /\ cmp_data (Sample.env false) DATA_INT 0
              [x41; x42] 2 [x41; x42; x20; x20] 4 = ret (-1).
Proof.
  split.
  - refine (proj1 (proj1 (cmp_data_binary_padding (Sample.env false)
                            DATA_BINARY 0 [x41; x42] [x41; x42; x20; x20]
                            eq_refl eq_refl eq_refl eq_refl _) _)).
    + discriminate.
    + discriminate.
  - refine (proj1 (proj2 (cmp_data_binary_padding (Sample.env false)
                            DATA_INT 0 [x41; x42] [x41; x42; x20; x20]
                            eq_refl eq_refl eq_refl eq_refl _) _)).
    + discriminate.
    + reflexivity.
Defined.

(** ** The decimal-as-text comparison *)

Lemma len_of_cons (c : byte) (s : list byte) : len_of (c :: s) = len_of s + 1.
Proof. unfold len_of. simpl List.length. lia. Qed.

Lemma len_of_nonneg (s : list byte) : 0 <= len_of s.
Proof. unfold len_of. lia. Qed.

Lemma strip_spaces_nil_iff (s : list byte) :
  strip_spaces s = [] <-> has_non_space s = false.
Proof.
  unfold has_non_space. induction s as [|c s IH]; simpl.
  - tauto.
  - destruct (byte_val c =? 32); simpl.
    + exact IH.
    + split; discriminate.
Qed.

Lemma strip_spaces_length (s : list byte) :
  len_of (strip_spaces s) <= len_of s.
Proof.
  induction s as [|c s IH]; simpl.
  - lia.
  - destruct (byte_val c =? 32).
    + rewrite len_of_cons. lia.
    + lia.
Qed.

Lemma skip_spaces_strip (s : list byte) :
  skip_spaces s (len_of s) = Ret (strip_spaces s, len_of (strip_spaces s)).
Proof.
  induction s as [|c s IH].
  - reflexivity.
  - rewrite len_of_cons. cbn [skip_spaces strip_spaces].
    replace (len_of s + 1 =? 0) with false
      by (symmetry; apply Z.eqb_neq; pose proof (len_of_nonneg s); lia).
    destruct (byte_val c =? 32).
    + replace (len_of s + 1 - 1) with (len_of s) by lia. exact IH.
    + rewrite len_of_cons. reflexivity.
Qed.

Lemma skip_plus_zero_strip (s : list byte) :
  skip_plus_zero s (len_of s)
  = Ret (strip_plus_zero s, len_of (strip_plus_zero s)).
Proof.
  induction s as [|c s IH].
  - reflexivity.
  - rewrite len_of_cons. cbn [skip_plus_zero strip_plus_zero].
    replace (0 <? len_of s + 1) with true
      by (symmetry; apply Z.ltb_lt; pose proof (len_of_nonneg s); lia).
    destruct ((byte_val c =? 43) || (byte_val c =? 48)).
    + replace (len_of s + 1 - 1) with (len_of s) by lia. exact IH.
    + rewrite len_of_cons. reflexivity.
Qed.

(** Lines 247-261 on two remainders of the same length. *)
Lemma skip_equal_bytewise (swap_flag : Z) (a : list byte) :
  forall b : list byte,
    List.length a = List.length b ->
    (' (a', b', a_length) <~ skip_equal a b (len_of a) ;;
     if a_length =? 0 then Ret 0
     else
       ca <~ deref a' ;;
       cb <~ deref b' ;;
       if byte_val ca >? byte_val cb then Ret swap_flag else Ret (- swap_flag))
    = Ret (swap_flag * bytewise_order a b).
Proof.
  induction a as [|ca a IH]; intros b Hlen.
  - simpl. f_equal. destruct b; simpl; lia.
  - destruct b as [|cb b]; [discriminate|].
    simpl in Hlen. injection Hlen as Hlen.
    rewrite len_of_cons.
    cbn [skip_equal bytewise_order].
    replace (0 <? len_of a + 1) with true
      by (symmetry; apply Z.ltb_lt; pose proof (len_of_nonneg a); lia).
    destruct (byte_val ca =? byte_val cb) eqn:Hc.
    + replace (len_of a + 1 - 1) with (len_of a) by lia. apply IH. exact Hlen.
    + cbn [obind deref].
      replace (len_of a + 1 =? 0) with false
        by (symmetry; apply Z.eqb_neq; pose proof (len_of_nonneg a); lia).
      destruct (byte_val ca >? byte_val cb); f_equal; lia.
Qed.

Lemma cmp_decimal_digits_order (swap_flag : Z) (a b : list byte) :
  cmp_decimal_digits a (len_of a) b (len_of b) swap_flag
  = Ret (let a' := strip_plus_zero a in
         let b' := strip_plus_zero b in
         if Nat.ltb (List.length a') (List.length b') then - swap_flag
         else if Nat.ltb (List.length b') (List.length a') then swap_flag
         else swap_flag * bytewise_order a' b').
Proof.
  unfold cmp_decimal_digits.
  rewrite !skip_plus_zero_strip. cbn [obind]. cbv zeta.
  set (a' := strip_plus_zero a). set (b' := strip_plus_zero b).
  destruct (Nat.ltb (List.length a') (List.length b')) eqn:Hab.
  - apply Nat.ltb_lt in Hab.
    replace (len_of a' =? len_of b') with false
      by (symmetry; apply Z.eqb_neq; unfold len_of; lia).
    replace (len_of a' <? len_of b') with true
      by (symmetry; apply Z.ltb_lt; unfold len_of; lia).
    reflexivity.
  - apply Nat.ltb_ge in Hab.
    destruct (Nat.ltb (List.length b') (List.length a')) eqn:Hba.
    + apply Nat.ltb_lt in Hba.
      replace (len_of a' =? len_of b') with false
        by (symmetry; apply Z.eqb_neq; unfold len_of; lia).
      replace (len_of a' <? len_of b') with false
        by (symmetry; apply Z.ltb_ge; unfold len_of; lia).
      reflexivity.
    + apply Nat.ltb_ge in Hba.
      replace (len_of a' =? len_of b') with true
        by (symmetry; apply Z.eqb_eq; unfold len_of; lia).
      cbn [negb].
      apply skip_equal_bytewise. lia.
Qed.

Lemma to_unsigned_small (x : Z) : 0 <= x < UINT_MODULUS -> to_unsigned x = x.
Proof. intro H. unfold to_unsigned. apply Z.mod_small. exact H. Qed.

Lemma has_non_space_strip (s : list byte) :
  has_non_space s = match strip_spaces s with [] => false | _ :: _ => true end.
Proof.
  destruct (strip_spaces s) eqn:Hs.
  - apply strip_spaces_nil_iff. exact Hs.
  - destruct (has_non_space s) eqn:Hn; [reflexivity|].
    apply strip_spaces_nil_iff in Hn. congruence.
Qed.

(** The DATA_DECIMAL case on two in-page values: it reads outside an operand
    exactly when that operand has no byte other than spaces, and computes
    the decimal-as-text order otherwise. *)
Lemma cmp_whole_field_DATA_DECIMAL_eq (a b : list byte) :
  len_of a < UINT_MODULUS ->
  len_of b < UINT_MODULUS ->
  cmp_whole_field_DATA_DECIMAL a (len_of a) b (len_of b)
  = if has_non_space a && has_non_space b then Ret (decimal_text_order a b)
    else Fail OutOfBounds.
Proof.
  intros Ha Hb.
  unfold cmp_whole_field_DATA_DECIMAL, decimal_text_order.
  rewrite !skip_spaces_strip, !has_non_space_strip. cbn [obind].
  pose proof (strip_spaces_length a) as Hla.
  pose proof (strip_spaces_length b) as Hlb.
  destruct (strip_spaces a) as [|ca a'] eqn:Hsa; [reflexivity|].
  cbn [deref obind starts_with_minus andb tl].
  destruct (strip_spaces b) as [|cb b'] eqn:Hsb.
  - destruct (byte_val ca =? 45); reflexivity.
  - cbn [deref obind starts_with_minus andb tl].
    rewrite !len_of_cons in *.
    pose proof (len_of_nonneg a'). pose proof (len_of_nonneg b').
    destruct (byte_val ca =? 45) eqn:Hca;
      destruct (byte_val cb =? 45) eqn:Hcb; cbn [negb andb].
    + replace (len_of a' + 1 - 1) with (len_of a') by lia.
      replace (len_of b' + 1 - 1) with (len_of b') by lia.
      rewrite !to_unsigned_small by lia.
      apply cmp_decimal_digits_order.
    + reflexivity.
    + reflexivity.
    + rewrite <- (len_of_cons ca a'), <- (len_of_cons cb b').
      apply cmp_decimal_digits_order.
Qed.

(** C3. The DATA_DECIMAL branch of [cmp_whole_field] computes the
    decimal-as-text order of the specification: leading spaces stripped, the
    operand without '-' greater when exactly one has it, leading '+' and '0'
    stripped, the longer remainder of larger magnitude, remainders of equal
    length compared byte for byte, the result negated when both are
    negative.  In particular "-000123" is less than "-45", "+007" equals
    "7", and "100" is greater than "99". *)
Theorem cmp_whole_field_decimal_order (E : collaborators) (prtype : Z)
    (a b : list byte) :
  len_of a < UINT_MODULUS ->
  len_of b < UINT_MODULUS ->
  has_non_space a = true ->
  has_non_space b = true ->
  cmp_whole_field E DATA_DECIMAL prtype a (len_of a) b (len_of b)
  = ret (decimal_text_order a b)
  /\ cmp_whole_field E DATA_DECIMAL prtype
       (Sample.text "-000123") 7 (Sample.text "-45") 3 = ret (-1)
  /\ cmp_whole_field E DATA_DECIMAL prtype
       (Sample.text "+007") 4 (Sample.text "7") 1 = ret 0
  /\ cmp_whole_field E DATA_DECIMAL prtype
       (Sample.text "100") 3 (Sample.text "99") 2 = ret 1.
Proof.
  intros Ha Hb Hna Hnb.
  split; [|repeat split; reflexivity].
  unfold cmp_whole_field. cbn [Z.eqb DATA_DECIMAL Pos.eqb].
  rewrite cmp_whole_field_DATA_DECIMAL_eq by assumption.
  rewrite Hna, Hnb. reflexivity.
Qed.

Lemma cmp_whole_field_decimal_order_witness :
  cmp_whole_field (Sample.env false) DATA_DECIMAL 0
    (Sample.text "  -12") 5 (Sample.text "-0103") 5 = ret 1.
Proof.
  exact (proj1 (cmp_whole_field_decimal_order (Sample.env false) 0
                  (Sample.text "  -12") (Sample.text "-0103")
                  eq_refl eq_refl eq_refl eq_refl)).
Defined.

(** C10. On two in-page values the DATA_DECIMAL branch of [cmp_whole_field]
    returns a result without reading outside an operand exactly when each
    operand contains a byte that is not a space; when an operand is empty or
    all spaces, the sign test reads the byte past its end. *)
Theorem cmp_whole_field_decimal_in_bounds (E : collaborators) (prtype : Z)
    (a b : list byte) :
  len_of a < UINT_MODULUS ->
  len_of b < UINT_MODULUS ->
  (has_non_space a = true /\ has_non_space b = true ->
   exists r : Z,
     cmp_whole_field E DATA_DECIMAL prtype a (len_of a) b (len_of b) = ret r)
  /\ (has_non_space a = false \/ has_non_space b = false ->
      cmp_whole_field E DATA_DECIMAL prtype a (len_of a) b (len_of b)
      = fail OutOfBounds).
Proof.
  intros Ha Hb.
  unfold cmp_whole_field. cbn [Z.eqb DATA_DECIMAL Pos.eqb].
  rewrite cmp_whole_field_DATA_DECIMAL_eq by assumption.
  split.
  - intros [-> ->]. eexists. reflexivity.
  - intros [-> | ->]; [reflexivity|].
    rewrite andb_false_r. reflexivity.
Qed.

Lemma cmp_whole_field_decimal_in_bounds_witness :
  cmp_whole_field (Sample.env false) DATA_DECIMAL 0
    (Sample.text "   ") 3 (Sample.text "42") 2 = fail OutOfBounds
  /\ cmp_whole_field (Sample.env false) DATA_DECIMAL 0
       [] 0 (Sample.text "42") 2 = fail OutOfBounds.
Proof.
  split.
  - refine (proj2 (cmp_whole_field_decimal_in_bounds (Sample.env false) 0
                     (Sample.text "   ") (Sample.text "42") eq_refl eq_refl) _).
    left. reflexivity.
  - refine (proj2 (cmp_whole_field_decimal_in_bounds (Sample.env false) 0
                     [] (Sample.text "42") eq_refl eq_refl) _).
    left. reflexivity.
Defined.

(** ** Results are normalised and the scalar comparison emits no event *)

Ltac break_match :=
  match goal with
  | H : context [match ?x with _ => _ end] |- _ => destruct x eqn:?
  | |- context [match ?x with _ => _ end] => destruct x eqn:?
  end.

Ltac ret_inv :=
  repeat match goal with
         | H : Ret _ = Ret _ |- _ => injection H as H
         | H : Fail _ = Ret _ |- _ => discriminate H
         | H : Ret _ = Fail _ |- _ => discriminate H
         | H : (_, _) = (_, _) |- _ => injection H as ? ?
         end.

Lemma normalised_ret (r : Z) : -1 <= r <= 1 -> normalised (ret r).
Proof.
  intro H. split; [reflexivity|]. simpl. intros r' Hr. ret_inv. lia.
Qed.

Lemma normalised_fail (f : fault) : normalised (fail f).
Proof. split; [reflexivity|]. simpl. intros r Hr. discriminate. Qed.

Lemma normalised_lift (o : outcome Z) :
  (forall r : Z, o = Ret r -> -1 <= r <= 1) -> normalised (lift o).
Proof. intro H. split; [reflexivity | exact H]. Qed.

Lemma normalised_bind {A : Type} (c : M A) (k : A -> M Z) :
  events c = [] -> (forall a : A, normalised (k a)) -> normalised (bind c k).
Proof.
  destruct c as [t [a|f]]; simpl; intros -> Hk.
  - specialize (Hk a). unfold normalised, events, result in *.
    unfold bind. destruct (k a) as [t' o]. simpl in *. exact Hk.
  - apply normalised_fail.
Qed.

Lemma events_ut_ad (E : collaborators) (c : bool) : events (ut_ad E c) = [].
Proof. unfold ut_ad. destruct (UNIV_DEBUG E), c; reflexivity. Qed.

Lemma cmp_decimal_digits_range (a b : list byte) (al bl s r : Z) :
  -1 <= s <= 1 ->
  cmp_decimal_digits a al b bl s = Ret r -> -1 <= r <= 1.
Proof.
  intros Hs. unfold cmp_decimal_digits, obind, deref.
  intro H. repeat break_match; ret_inv; subst; try discriminate; lia.
Qed.

Lemma cmp_whole_field_DATA_DECIMAL_range (a b : list byte) (al bl r : Z) :
  cmp_whole_field_DATA_DECIMAL a al b bl = Ret r -> -1 <= r <= 1.
Proof.
  unfold cmp_whole_field_DATA_DECIMAL.
  destruct (skip_spaces a al) as [[a1 al1]|]; [|discriminate].
  destruct (skip_spaces b bl) as [[b1 bl1]|]; [|discriminate].
  cbn [obind]. unfold deref.
  destruct a1 as [|ca a1]; [discriminate|].
  destruct b1 as [|cb b1]; cbn [obind];
    [destruct (byte_val ca =? 45); discriminate|].
  destruct (byte_val ca =? 45); destruct (byte_val cb =? 45); cbn [negb];
    intro H; ret_inv; try lia;
    apply cmp_decimal_digits_range in H; lia.
Qed.

Lemma cmp_data_pad1_range (pad : Z) (p : list byte) :
  forall len len1 r : Z,
    cmp_data_pad1 p len len1 pad = Ret r -> -1 <= r <= 1.
Proof.
  induction p as [|b p IH]; intros len len1 r; simpl; [discriminate|].
  intro H. repeat break_match; ret_inv; subst; try lia.
  eapply IH; eassumption.
Qed.

Lemma cmp_data_pad2_range (pad : Z) (p : list byte) :
  forall len len2 r : Z,
    cmp_data_pad2 p len len2 pad = Ret r -> -1 <= r <= 1.
Proof.
  induction p as [|b p IH]; intros len len2 r; simpl; [discriminate|].
  intro H. repeat break_match; ret_inv; subst; try lia.
  eapply IH; eassumption.
Qed.

Lemma normalised_innobase_mysql_cmp (E : collaborators) (prtype : Z)
    (a b : list byte) (al bl : Z) :
  normalised (innobase_mysql_cmp E prtype a al b bl).
Proof.
  unfold innobase_mysql_cmp.
  apply normalised_bind.
  - repeat break_match; reflexivity.
  - intros _. destruct (get_charset E (dtype_get_charset_coll E prtype)).
    + apply normalised_ret. repeat break_match; lia.
    + apply normalised_fail.
Qed.

Lemma normalised_float_order (x y : option spec_float) :
  normalised
    (lift (d_1 <~ of_option x ;;
           d_2 <~ of_option y ;;
           if SFltb d_2 d_1 then Ret 1
           else if SFltb d_1 d_2 then Ret (-1)
           else Ret 0)).
Proof.
  apply normalised_lift. intros r.
  destruct x, y; simpl; intro H; repeat break_match; ret_inv; lia.
Qed.

(** The scalar comparison emits no event and returns -1, 0 or 1. *)
Lemma normalised_cmp_data (E : collaborators) (mtype prtype : Z)
    (data1 data2 : list byte) (len1 len2 : Z) :
  normalised (cmp_data E mtype prtype data1 len1 data2 len2).
Proof.
  unfold cmp_data.
  destruct ((len1 =? UNIV_SQL_NULL) || (len2 =? UNIV_SQL_NULL)).
  { repeat break_match; apply normalised_ret; lia. }
  match goal with |- normalised (if ?c then _ else _) => destruct c eqn:Hsw end.
  - apply normalised_bind; [reflexivity|]. intros ret_.
    repeat match goal with
           | |- normalised (if ?c then _ else _) => destruct c
           end;
      try (apply normalised_ret; repeat break_match; lia).
    + apply normalised_lift. apply cmp_data_pad1_range.
    + apply normalised_bind; [apply events_ut_ad|]. intros _.
      apply normalised_lift. apply cmp_data_pad2_range.
  - unfold cmp_whole_field.
    repeat match goal with
           | |- normalised (if ?c then _ else _) => destruct c eqn:?
           end;
      try (apply normalised_ret; lia);
      try apply normalised_float_order;
      try apply normalised_innobase_mysql_cmp;
      try apply normalised_fail.
    + apply normalised_lift. apply cmp_whole_field_DATA_DECIMAL_range.
    + apply normalised_bind; [|intros _; apply normalised_innobase_mysql_cmp].
      apply orb_false_iff in Hsw. destruct Hsw as [_ Hsw].
      simpl in Hsw. rewrite Hsw. reflexivity.
Qed.

(** ** A binary BLOB on the whole-field path *)

Lemma sign_normalisation (cmp : Z) :
  (if cmp <? 0 then -1 else if cmp =? 0 then 0 else 1) = Z.sgn cmp.
Proof.
  destruct cmp; reflexivity.
Qed.

(** C9 as stated does not hold: in a non-debug build, a binary-flagged BLOB
    on the whole-field path is logged and then compared under its collation;
    here the result is -1, not 0. *)
Lemma cmp_whole_field_binary_blob_not_equal :
  UNIV_DEBUG (Sample.env false) = false
  /\ Z.land Sample.binary_blob_prtype DATA_BINARY_TYPE <> 0
  /\ cmp_whole_field (Sample.env false) DATA_BLOB Sample.binary_blob_prtype
       [x41] 1 [x42] 1
     = ([LogError "comparing a binary BLOB using a character set collation!"],
        Ret (-1))
  /\ result (cmp_whole_field (Sample.env false) DATA_BLOB
               Sample.binary_blob_prtype [x41] 1 [x42] 1) <> Ret 0.
Proof.
  repeat split; try reflexivity; vm_compute; discriminate.
Qed.

(** C9, amended. In a non-debug build, a binary-flagged BLOB on the
    whole-field path is logged and the comparison then falls through to the
    collation comparison: the result is the sign of what the collation of
    the precise type returns, and the fatal charset-lookup failure when
    there is no such collation. *)
Theorem cmp_whole_field_binary_blob (E : collaborators) (prtype : Z)
    (a b : list byte) (a_length b_length : Z) :
  Z.land prtype DATA_BINARY_TYPE <> 0 ->
  UNIV_DEBUG E = false ->
  cmp_whole_field E DATA_BLOB prtype a a_length b b_length
  = ([LogError "comparing a binary BLOB using a character set collation!"],
     match get_charset E (dtype_get_charset_coll E prtype) with
     | Some cs => Ret (Z.sgn (strnncollsp cs a a_length b b_length))
     | None =>
         Fail (LoggedFatal "Unable to find charset-collation %u"
                           (dtype_get_charset_coll E prtype))
     end).
Proof.
  intros Hbin Hrel.
  unfold cmp_whole_field. cbn [Z.eqb DATA_BLOB DATA_DECIMAL DATA_DOUBLE
    DATA_FLOAT DATA_VARCHAR DATA_CHAR Pos.eqb orb].
  apply Z.eqb_neq in Hbin. rewrite Hbin. cbn [negb].
  unfold innobase_mysql_cmp, ut_ad. rewrite Hrel.
  destruct (get_charset E (dtype_get_charset_coll E prtype)) as [cs|].
  - rewrite <- sign_normalisation. reflexivity.
  - reflexivity.
Qed.

Lemma cmp_whole_field_binary_blob_witness :
  cmp_whole_field (Sample.env false) DATA_BLOB Sample.binary_blob_prtype
    (Sample.text "b  ") 3 (Sample.text "a") 1
  = ([LogError "comparing a binary BLOB using a character set collation!"],
     Ret 1).
Proof.
  refine (cmp_whole_field_binary_blob (Sample.env false)
            Sample.binary_blob_prtype (Sample.text "b  ") (Sample.text "a")
            3 1 _ eq_refl).
  vm_compute. discriminate.
Defined.

(** ** Tuple against record *)

Lemma M_eta {A : Type} (c : M A) : events c = [] -> c = lift (result c).
Proof. destruct c as [t o]. simpl. intros ->. reflexivity. Qed.

Lemma cmp_data_lift (E : collaborators) (mtype prtype : Z)
    (data1 data2 : list byte) (len1 len2 : Z) :
  cmp_data E mtype prtype data1 len1 data2 len2
  = lift (result (cmp_data E mtype prtype data1 len1 data2 len2)).
Proof. apply M_eta. apply normalised_cmp_data. Qed.

Lemma cmp_data_range (E : collaborators) (mtype prtype : Z)
    (data1 data2 : list byte) (len1 len2 r : Z) :
  result (cmp_data E mtype prtype data1 len1 data2 len2) = Ret r ->
  -1 <= r <= 1.
Proof. apply normalised_cmp_data. Qed.

Lemma bind_ret_pair {A B : Type} (c : M (A * B)) :
  (' (a, b) <- c ;; ret (a, b)) = c.
Proof.
  destruct c as [t [[a b]|f]]; simpl; [rewrite app_nil_r|]; reflexivity.
Qed.

Lemma ut_ad_cases (E : collaborators) (c : bool) :
  ut_ad E c = ret tt \/ ut_ad E c = fail AssertionFailure.
Proof. unfold ut_ad. destruct (UNIV_DEBUG E), c; auto. Qed.

(** The loop over the fields emits no event. *)
Lemma cmp_dtuple_rec_fields_events (E : collaborators) (dtuple : dtuple_t)
    (rec : rec_t) (k : nat) :
  forall cur_field : Z,
    events (cmp_dtuple_rec_fields E dtuple rec k cur_field) = [].
Proof.
  induction k as [|k IH]; intro cur_field; cbn [cmp_dtuple_rec_fields].
  - reflexivity.
  - destruct (dtuple_get_nth_field dtuple cur_field) as [f|]; [|reflexivity].
    rewrite bind_lift_Ret.
    destruct (rec_get_nth_field_ext rec cur_field) as [[[ext p] l]|];
      [|reflexivity].
    rewrite bind_lift_Ret. destruct ext; [reflexivity|].
    destruct (ut_ad_cases E (negb (dfield_is_ext f))) as [-> | ->];
      [|reflexivity].
    rewrite bind_ret, cmp_data_lift.
    destruct (result (cmp_data E _ _ _ _ _ _)) as [v|]; [|reflexivity].
    rewrite bind_lift_Ret. destruct (negb (v =? 0)); [reflexivity|].
    apply IH.
Qed.

(** Where the loop over the fields stops. *)
Lemma cmp_dtuple_rec_fields_stop (E : collaborators) (dtuple : dtuple_t)
    (rec : rec_t) (k : nat) :
  forall cur_field ret_ m : Z,
    0 <= cur_field <= rec_offs_n_fields rec ->
    result (cmp_dtuple_rec_fields E dtuple rec k cur_field) = Ret (ret_, m) ->
    -1 <= ret_ <= 1
    /\ cur_field <= m <= rec_offs_n_fields rec
    /\ (ret_ = 0 -> m = cur_field + Z.of_nat k)
    /\ (ret_ <> 0 -> m < cur_field + Z.of_nat k).
Proof.
  induction k as [|k IH]; intros cur_field ret_ m Hc;
    cbn [cmp_dtuple_rec_fields].
  - simpl. intro H. ret_inv. subst. lia.
  - destruct (dtuple_get_nth_field dtuple cur_field) as [f|]; [|discriminate].
    rewrite bind_lift_Ret.
    unfold rec_get_nth_field_ext, rec_nth.
    destruct (nth_error (rec_fields rec) (Z.to_nat cur_field)) as [rf|] eqn:Hrf;
      [|discriminate].
    assert (Hlt : cur_field < rec_offs_n_fields rec).
    { assert (Hn : (Z.to_nat cur_field < List.length (rec_fields rec))%nat)
        by (apply nth_error_Some; congruence).
      unfold rec_offs_n_fields. lia. }
    cbn [of_option obind]. rewrite bind_lift_Ret.
    destruct (rec_field_extern rf); [discriminate|].
    destruct (ut_ad_cases E (negb (dfield_is_ext f))) as [-> | ->];
      [|discriminate].
    rewrite bind_ret, cmp_data_lift.
    destruct (result (cmp_data E _ _ _ _ _ _)) as [v|] eqn:Hv; [|discriminate].
    apply cmp_data_range in Hv.
    rewrite bind_lift_Ret. destruct (v =? 0) eqn:Hz; cbn [negb].
    + intro H. apply IH in H; [|lia]. lia.
    + apply Z.eqb_neq in Hz. simpl. intro H. ret_inv. subst. lia.
Qed.

Lemma cmp_dtuple_rec_fields_range (E : collaborators) (dtuple : dtuple_t)
    (rec : rec_t) (k : nat) :
  forall cur_field ret_ m : Z,
    result (cmp_dtuple_rec_fields E dtuple rec k cur_field) = Ret (ret_, m) ->
    -1 <= ret_ <= 1.
Proof.
  induction k as [|k IH]; intros cur_field ret_ m;
    cbn [cmp_dtuple_rec_fields].
  - simpl. intro H. ret_inv. subst. lia.
  - destruct (dtuple_get_nth_field dtuple cur_field) as [f|]; [|discriminate].
    rewrite bind_lift_Ret.
    destruct (rec_get_nth_field_ext rec cur_field) as [[[ext p] l]|];
      [|discriminate].
    rewrite bind_lift_Ret. destruct ext; [discriminate|].
    destruct (ut_ad_cases E (negb (dfield_is_ext f))) as [-> | ->];
      [|discriminate].
    rewrite bind_ret, cmp_data_lift.
    destruct (result (cmp_data E _ _ _ _ _ _)) as [v|] eqn:Hv; [|discriminate].
    apply cmp_data_range in Hv.
    rewrite bind_lift_Ret. destruct (negb (v =? 0)).
    + simpl. intro H. ret_inv. subst. exact Hv.
    + apply IH.
Qed.

(** Comparing [k + k'] fields is comparing [k] fields and, when they all
    match, the next [k']. *)
Lemma cmp_dtuple_rec_fields_split (E : collaborators) (dtuple : dtuple_t)
    (rec : rec_t) (k k' : nat) :
  forall cur_field : Z,
    cmp_dtuple_rec_fields E dtuple rec (k + k') cur_field
    = ' (ret_, m) <- cmp_dtuple_rec_fields E dtuple rec k cur_field ;;
      if negb (ret_ =? 0) then ret (ret_, m)
      else cmp_dtuple_rec_fields E dtuple rec k' m.
Proof.
  induction k as [|k IH]; intro cur_field.
  - cbn [Nat.add cmp_dtuple_rec_fields]. rewrite bind_ret. reflexivity.
  - cbn [Nat.add cmp_dtuple_rec_fields].
    destruct (dtuple_get_nth_field dtuple cur_field) as [f|]; [|reflexivity].
    rewrite !bind_lift_Ret.
    destruct (rec_get_nth_field_ext rec cur_field) as [[[ext p] l]|];
      [|reflexivity].
    rewrite !bind_lift_Ret. destruct ext; [reflexivity|].
    destruct (ut_ad_cases E (negb (dfield_is_ext f))) as [-> | ->];
      [|reflexivity].
    rewrite !bind_ret, cmp_data_lift.
    destruct (result (cmp_data E _ _ _ _ _ _)) as [v|]; [|reflexivity].
    rewrite !bind_lift_Ret. destruct (negb (v =? 0)) eqn:Hv.
    + rewrite bind_ret, Hv. reflexivity.
    + apply IH.
Qed.

(** Resuming at the field where the comparison stopped on a difference finds
    the same difference there. *)
Lemma cmp_dtuple_rec_fields_restart (E : collaborators) (dtuple : dtuple_t)
    (rec : rec_t) (k : nat) :
  forall (cur_field ret_ m : Z) (k' : nat),
    result (cmp_dtuple_rec_fields E dtuple rec k cur_field) = Ret (ret_, m) ->
    ret_ <> 0 ->
    cmp_dtuple_rec_fields E dtuple rec (S k') m = ret (ret_, m).
Proof.
  induction k as [|k IH]; intros cur_field ret_ m k'.
  - simpl. intros H Hne. ret_inv. subst. congruence.
  - cbn [cmp_dtuple_rec_fields].
    destruct (dtuple_get_nth_field dtuple cur_field) as [f|] eqn:Hf;
      [|discriminate].
    rewrite !bind_lift_Ret.
    destruct (rec_get_nth_field_ext rec cur_field) as [[[ext p] l]|] eqn:Hr;
      [|discriminate].
    rewrite !bind_lift_Ret. destruct ext; [discriminate|].
    destruct (ut_ad_cases E (negb (dfield_is_ext f))) as [Hu | Hu];
      rewrite Hu; [|discriminate].
    rewrite !bind_ret, cmp_data_lift.
    destruct (result (cmp_data E _ _ _ _ _ _)) as [v|] eqn:Hv; [|discriminate].
    rewrite !bind_lift_Ret. destruct (negb (v =? 0)) eqn:Hz.
    + intros H Hne. simpl in H. ret_inv. subst.
      cbn [cmp_dtuple_rec_fields].
      rewrite Hf, bind_lift_Ret, Hr, bind_lift_Ret, Hu, bind_ret.
      rewrite cmp_data_lift, Hv, bind_lift_Ret, Hz. reflexivity.
    + apply IH.
Qed.

(** The debug reimplementation agrees with the loop whenever the loop
    returns. *)
Lemma cmp_debug_dtuple_rec_fields_agree (E : collaborators)
    (dtuple : dtuple_t) (rec : rec_t) (k : nat) :
  forall (cur_field : Z) (x : Z * Z),
    result (cmp_dtuple_rec_fields E dtuple rec k cur_field) = Ret x ->
    cmp_debug_dtuple_rec_fields E dtuple rec k cur_field = ret x.
Proof.
  induction k as [|k IH]; intros cur_field x.
  - simpl. intro H. ret_inv. subst. reflexivity.
  - cbn [cmp_dtuple_rec_fields cmp_debug_dtuple_rec_fields].
    destruct (dtuple_get_nth_field dtuple cur_field) as [f|]; [|discriminate].
    rewrite !bind_lift_Ret.
    destruct (rec_get_nth_field_ext rec cur_field) as [[[ext p] l]|];
      [|discriminate].
    rewrite !bind_lift_Ret. destruct ext; [discriminate|].
    destruct (ut_ad_cases E (negb (dfield_is_ext f))) as [-> | ->];
      [|discriminate].
    unfold cmp_data_data, dfield_get_type.
    rewrite !bind_ret, cmp_data_lift.
    destruct (result (cmp_data E _ _ _ _ _ _)) as [v|]; [|discriminate].
    rewrite !bind_lift_Ret. destruct (negb (v =? 0)).
    + simpl. intro H. ret_inv. subst. reflexivity.
    + apply IH.
Qed.

Lemma tuple_vs_record_events (E : collaborators) (dtuple : dtuple_t)
    (rec : rec_t) (n_cmp matched_fields : Z) :
  events (tuple_vs_record E dtuple rec n_cmp matched_fields) = [].
Proof.
  unfold tuple_vs_record.
  repeat match goal with |- context [if ?c then _ else _] => destruct c end;
    try reflexivity; apply cmp_dtuple_rec_fields_events.
Qed.

Lemma tuple_vs_record_range (E : collaborators) (dtuple : dtuple_t)
    (rec : rec_t) (n_cmp matched_fields ret_ m : Z) :
  result (tuple_vs_record E dtuple rec n_cmp matched_fields) = Ret (ret_, m) ->
  -1 <= ret_ <= 1.
Proof.
  unfold tuple_vs_record.
  destruct (_ && _).
  { simpl. intro H. ret_inv. subst. break_match; lia. }
  destruct (_ && _).
  { simpl. intro H. ret_inv. subst. lia. }
  apply cmp_dtuple_rec_fields_range.
Qed.

(** The sentinel test and the loop of lines 466-515, as the function of the
    algorithm. *)
Lemma sentinel_then_fields (E : collaborators) (dtuple : dtuple_t)
    (rec : rec_t) (n_cmp matched_fields : Z) :
  (if matched_fields =? 0 then
     if has_min_rec_flag (rec_get_info_bits rec (rec_offs_comp rec)) then
       ret ((if has_min_rec_flag (dtuple_get_info_bits dtuple) then 0 else 1),
            matched_fields)
     else if has_min_rec_flag (dtuple_get_info_bits dtuple) then
       ret (-1, matched_fields)
     else cmp_dtuple_rec_fields E dtuple rec
            (Z.to_nat (n_cmp - matched_fields)) matched_fields
   else cmp_dtuple_rec_fields E dtuple rec
          (Z.to_nat (n_cmp - matched_fields)) matched_fields)
  = tuple_vs_record E dtuple rec n_cmp matched_fields.
Proof.
  unfold tuple_vs_record, rec_get_info_bits, dtuple_get_info_bits.
  destruct (matched_fields =? 0) eqn:Hm; cbn [andb]; [|reflexivity].
  apply Z.eqb_eq in Hm. subst matched_fields.
  repeat break_match; reflexivity.
Qed.

(** The debug reimplementation computes the function of the algorithm
    whenever that function returns. *)
Lemma cmp_debug_dtuple_rec_with_match_agree (E : collaborators)
    (dtuple : dtuple_t) (rec : rec_t) (n_cmp matched_fields : Z) (x : Z * Z) :
  dtuple_rec_preconditions E dtuple rec n_cmp matched_fields = true ->
  result (tuple_vs_record E dtuple rec n_cmp matched_fields) = Ret x ->
  cmp_debug_dtuple_rec_with_match E dtuple rec n_cmp matched_fields = ret x.
Proof.
  intros Hpre Hx.
  unfold dtuple_rec_preconditions in Hpre.
  repeat (apply andb_prop in Hpre; destruct Hpre as [Hpre ?]).
  unfold cmp_debug_dtuple_rec_with_match.
  repeat match goal with H : _ = true |- _ => rewrite H; clear H end.
  rewrite !ut_ad_true, !bind_ret.
  destruct x as [ret_ m].
  pose proof (tuple_vs_record_range _ _ _ _ _ _ _ Hx) as Hrange.
  rewrite <- sentinel_then_fields in Hx.
  match goal with
  | |- bind ?c _ = _ =>
      assert (Hc : c = ret (ret_, m))
  end.
  { repeat break_match; try exact (f_equal (fun o => ([], o)) Hx);
      apply cmp_debug_dtuple_rec_fields_agree; exact Hx. }
  rewrite Hc, bind_ret.
  replace ((-1 <=? ret_) && (ret_ <=? 1)) with true
    by (symmetry; apply andb_true_intro; split; apply Z.leb_le; lia).
  rewrite ut_ad_true, bind_ret. reflexivity.
Qed.

(** [cmp_dtuple_rec_with_match_low] is the function of the algorithm, behind
    the preconditions a debug build asserts: the cross-check of lines
    519-521 never fails. *)
Lemma cmp_dtuple_rec_with_match_low_eq (E : collaborators)
    (dtuple : dtuple_t) (rec : rec_t) (n_cmp matched_fields : Z) :
  cmp_dtuple_rec_with_match_low E dtuple rec n_cmp matched_fields
  = if UNIV_DEBUG E
       && negb (dtuple_rec_preconditions E dtuple rec n_cmp matched_fields)
    then fail AssertionFailure
    else tuple_vs_record E dtuple rec n_cmp matched_fields.
Proof.
  unfold cmp_dtuple_rec_with_match_low.
  rewrite sentinel_then_fields.
  pose proof (tuple_vs_record_events E dtuple rec n_cmp matched_fields) as Hev.
  apply M_eta in Hev.
  destruct (UNIV_DEBUG E) eqn:Hd; cbn [andb].
  - destruct (dtuple_rec_preconditions E dtuple rec n_cmp matched_fields)
      eqn:Hpre; cbn [negb].
    + pose proof Hpre as Hpre'.
      unfold dtuple_rec_preconditions in Hpre'.
      repeat (apply andb_prop in Hpre'; destruct Hpre' as [Hpre' ?]).
      repeat match goal with H : _ = true |- _ => rewrite H; clear H end.
      rewrite !ut_ad_true, !bind_ret.
      destruct (result (tuple_vs_record E dtuple rec n_cmp matched_fields))
        as [[ret_ m]|f] eqn:Hx; rewrite Hev; [|reflexivity].
      rewrite bind_lift_Ret.
      pose proof (tuple_vs_record_range _ _ _ _ _ _ _ Hx) as Hrange.
      replace ((-1 <=? ret_) && (ret_ <=? 1)) with true
        by (symmetry; apply andb_true_intro; split; apply Z.leb_le; lia).
      rewrite ut_ad_true, bind_ret.
      rewrite (cmp_debug_dtuple_rec_with_match_agree _ _ _ _ _ _ Hpre Hx).
      rewrite bind_ret, !Z.eqb_refl, !ut_ad_true, !bind_ret. reflexivity.
    + unfold dtuple_rec_preconditions in Hpre. unfold ut_ad. rewrite Hd.
      repeat match goal with
             | |- context [if ?c then ret tt else fail AssertionFailure] =>
                 destruct c; [rewrite bind_ret | reflexivity]
             end.
      discriminate Hpre.
  - rewrite !(ut_ad_release E) by exact Hd. rewrite !bind_ret.
    rewrite Hev.
    destruct (result (tuple_vs_record E dtuple rec n_cmp matched_fields))
      as [[ret_ m]|f]; [|reflexivity].
    rewrite bind_lift_Ret, ut_ad_release, !bind_ret by exact Hd.
    reflexivity.
Qed.

(** *** The minimum-record marker *)

(** C4 as stated does not hold: when the record and the tuple both carry the
    minimum-record marker, the comparison from matched-count 0 is resolved
    at once as equal; it does not go on to the fields, which here differ. *)
Lemma cmp_dtuple_rec_both_min_rec_resolved :
  has_min_rec_flag (rec_info_bits (Sample.record REC_INFO_MIN_REC_FLAG [[x01]])) = true
  /\ has_min_rec_flag (dtuple_info_bits (Sample.tuple REC_INFO_MIN_REC_FLAG [[x02]])) = true
  /\ cmp_dtuple_rec_with_match_low (Sample.env false)
       (Sample.tuple REC_INFO_MIN_REC_FLAG [[x02]]) (Sample.record REC_INFO_MIN_REC_FLAG [[x01]]) 1 0
     = ret (0, 0)
  /\ cmp_dtuple_rec_fields (Sample.env false)
       (Sample.tuple REC_INFO_MIN_REC_FLAG [[x02]]) (Sample.record REC_INFO_MIN_REC_FLAG [[x01]]) 1 0
     = ret (1, 0)
  /\ cmp_dtuple_rec_with_match_low (Sample.env false)
       (Sample.tuple REC_INFO_MIN_REC_FLAG [[x02]]) (Sample.record REC_INFO_MIN_REC_FLAG [[x01]]) 1 0
     <> cmp_dtuple_rec_fields (Sample.env false)
          (Sample.tuple REC_INFO_MIN_REC_FLAG [[x02]]) (Sample.record REC_INFO_MIN_REC_FLAG [[x01]]) 1 0.
Proof.
  repeat split; try reflexivity. vm_compute. discriminate.
Qed.

(** C4, amended. In the comparison from matched-count 0: when the record and
    the tuple both carry the minimum-record marker, the comparison is
    resolved at once with result 0 and matched-count 0, no field being
    compared; when only the record carries it, the tuple is greater; when
    only the tuple carries it, the tuple is less. *)
Theorem cmp_dtuple_rec_min_rec_flag (E : collaborators) (dtuple : dtuple_t)
    (rec : rec_t) (n_cmp : Z) :
  (UNIV_DEBUG E = true ->
   dtuple_rec_preconditions E dtuple rec n_cmp 0 = true) ->
  (has_min_rec_flag (rec_info_bits rec) = true ->
   has_min_rec_flag (dtuple_info_bits dtuple) = true ->
   cmp_dtuple_rec_with_match_low E dtuple rec n_cmp 0 = ret (0, 0))
  /\ (has_min_rec_flag (rec_info_bits rec) = true ->
      has_min_rec_flag (dtuple_info_bits dtuple) = false ->
      cmp_dtuple_rec_with_match_low E dtuple rec n_cmp 0 = ret (1, 0))
  /\ (has_min_rec_flag (rec_info_bits rec) = false ->
      has_min_rec_flag (dtuple_info_bits dtuple) = true ->
      cmp_dtuple_rec_with_match_low E dtuple rec n_cmp 0 = ret (-1, 0)).
Proof.
  intro Hpre.
  rewrite cmp_dtuple_rec_with_match_low_eq.
  assert (Hguard : UNIV_DEBUG E
                   && negb (dtuple_rec_preconditions E dtuple rec n_cmp 0)
                   = false).
  { destruct (UNIV_DEBUG E); [|reflexivity].
    rewrite Hpre by reflexivity. reflexivity. }
  rewrite Hguard. unfold tuple_vs_record. cbn [Z.eqb andb].
  repeat split; intros Hr Ht; rewrite Hr, Ht; reflexivity.
Qed.

Lemma cmp_dtuple_rec_min_rec_flag_witness :
  cmp_dtuple_rec_with_match_low (Sample.env true)
    (Sample.tuple 0 [[x01]]) (Sample.record REC_INFO_MIN_REC_FLAG [[x02]]) 1 0 = ret (1, 0)
  /\ cmp_dtuple_rec_with_match_low (Sample.env true)
       (Sample.tuple REC_INFO_MIN_REC_FLAG [[x02]]) (Sample.record 0 [[x01]]) 1 0 = ret (-1, 0).
Proof.
  split.
  - refine (proj1 (proj2 (cmp_dtuple_rec_min_rec_flag (Sample.env true)
              (Sample.tuple 0 [[x01]]) (Sample.record REC_INFO_MIN_REC_FLAG [[x02]]) 1 _)) _ _);
      reflexivity.
  - refine (proj2 (proj2 (cmp_dtuple_rec_min_rec_flag (Sample.env true)
              (Sample.tuple REC_INFO_MIN_REC_FLAG [[x02]]) (Sample.record 0 [[x01]]) 1 _)) _ _);
      reflexivity.
Defined.

(** *** Resuming a comparison *)

Lemma dtuple_rec_preconditions_guard (E : collaborators) (dtuple : dtuple_t)
    (rec : rec_t) (n_cmp matched_fields : Z) :
  (UNIV_DEBUG E = true ->
   dtuple_rec_preconditions E dtuple rec n_cmp matched_fields = true) ->
  UNIV_DEBUG E
  && negb (dtuple_rec_preconditions E dtuple rec n_cmp matched_fields) = false.
Proof.
  intro H. destruct (UNIV_DEBUG E); [|reflexivity].
  rewrite H by reflexivity. reflexivity.
Qed.

Lemma dtuple_rec_preconditions_weaken (E : collaborators) (dtuple : dtuple_t)
    (rec : rec_t) (n n' m' : Z) :
  dtuple_rec_preconditions E dtuple rec n 0 = true ->
  0 < n' <= n -> m' <= n' -> m' <= rec_offs_n_fields rec ->
  dtuple_rec_preconditions E dtuple rec n' m' = true.
Proof.
  unfold dtuple_rec_preconditions. intros H Hn Hm Hr.
  repeat (apply andb_prop in H; destruct H as [H ?]).
  repeat (apply andb_true_intro; split); try assumption.
  - apply Z.ltb_lt. lia.
  - apply Z.leb_le.
    match goal with H : (n <=? _) = true |- _ => apply Z.leb_le in H end. lia.
  - apply Z.leb_le. lia.
  - apply Z.leb_le. lia.
Qed.

(** Comparing the fields [0,n1) and resuming up to [n2] from the returned
    matched-count is comparing the fields [0,n2) in one call. *)
Lemma cmp_dtuple_rec_resume (E : collaborators) (dtuple : dtuple_t)
    (rec : rec_t) (n1 n2 : Z) :
  0 < n1 <= n2 ->
  (UNIV_DEBUG E = true ->
   dtuple_rec_preconditions E dtuple rec n2 0 = true) ->
  (' (_, matched_fields) <-
     cmp_dtuple_rec_with_match_low E dtuple rec n1 0 ;;
   cmp_dtuple_rec_with_match_low E dtuple rec n2 matched_fields)
  = cmp_dtuple_rec_with_match_low E dtuple rec n2 0.
Proof.
  intros Hn Hpre.
  assert (Hpre' : forall n' m',
             0 < n' <= n2 -> m' <= n' -> m' <= rec_offs_n_fields rec ->
             UNIV_DEBUG E
             && negb (dtuple_rec_preconditions E dtuple rec n' m') = false).
  { intros n' m' H1 H2 H3. apply dtuple_rec_preconditions_guard. intro Hd.
    apply (dtuple_rec_preconditions_weaken E dtuple rec n2); auto. }
  assert (Hnf : 0 <= rec_offs_n_fields rec) by (unfold rec_offs_n_fields; lia).
  rewrite (cmp_dtuple_rec_with_match_low_eq E dtuple rec n1 0).
  rewrite Hpre' by lia.
  destruct (tuple_vs_record E dtuple rec n1 0) as [t o] eqn:H1.
  pose proof (tuple_vs_record_events E dtuple rec n1 0) as Hev.
  rewrite H1 in Hev. simpl in Hev. subst t.
  unfold tuple_vs_record in H1. cbn [Z.eqb andb] in H1.
  destruct (has_min_rec_flag (rec_info_bits rec)) eqn:Hfr.
  { injection H1 as <-.
    match goal with |- bind _ ?k = _ => exact (bind_ret _ k) end. }
  destruct (has_min_rec_flag (dtuple_info_bits dtuple)) eqn:Hft.
  { injection H1 as <-.
    match goal with |- bind _ ?k = _ => exact (bind_ret _ k) end. }
  rewrite (cmp_dtuple_rec_with_match_low_eq E dtuple rec n2 0).
  rewrite Hpre' by lia.
  unfold tuple_vs_record. cbn [Z.eqb andb]. rewrite Hfr, Hft.
  replace (Z.to_nat (n2 - 0))
    with (Z.to_nat (n1 - 0) + Z.to_nat (n2 - n1))%nat by lia.
  rewrite cmp_dtuple_rec_fields_split, H1.
  destruct o as [[ret_ m]|f]; [|reflexivity].
  change ([], Ret (ret_, m)) with (ret (ret_, m)). rewrite !bind_ret.
  assert (Hres : result (cmp_dtuple_rec_fields E dtuple rec
                           (Z.to_nat (n1 - 0)) 0) = Ret (ret_, m))
    by (rewrite H1; reflexivity).
  pose proof (cmp_dtuple_rec_fields_stop E dtuple rec _ 0 ret_ m
                ltac:(lia) Hres) as (_ & Hm & Hzero & Hnz).
  rewrite cmp_dtuple_rec_with_match_low_eq, Hpre' by lia.
  unfold tuple_vs_record.
  destruct (ret_ =? 0) eqn:Hz; cbn [negb].
  - apply Z.eqb_eq in Hz. specialize (Hzero Hz).
    replace m with n1 by lia.
    replace (n1 =? 0) with false by (symmetry; apply Z.eqb_neq; lia).
    reflexivity.
  - apply Z.eqb_neq in Hz. specialize (Hnz Hz).
    assert (Hk : exists k', Z.to_nat (n2 - m) = S k').
    { exists (Nat.pred (Z.to_nat (n2 - m))). lia. }
    destruct Hk as [k' Hk]. rewrite Hk.
    rewrite (cmp_dtuple_rec_fields_restart E dtuple rec _ 0 ret_ m k' Hres Hz).
    destruct (m =? 0) eqn:Hm0; cbn [andb]; [|reflexivity].
    apply Z.eqb_eq in Hm0. subst m. rewrite Hfr, Hft. reflexivity.
Qed.

(** *** No assertion fails in a non-debug build without external fields *)

Lemma memcmp_fail (n : nat) :
  forall (a b : list byte) (f : fault),
    memcmp a b n = Fail f -> f = OutOfBounds.
Proof.
  induction n as [|n IH]; intros a b f; simpl; [discriminate|].
  destruct a as [|ca a], b as [|cb b]; try (intro H; congruence).
  destruct (byte_val ca =? byte_val cb); [apply IH | discriminate].
Qed.

Lemma cmp_data_pad1_fail (pad : Z) (p : list byte) :
  forall (len len1 : Z) (f : fault),
    cmp_data_pad1 p len len1 pad = Fail f -> f = OutOfBounds.
Proof.
  induction p as [|b p IH]; intros len len1 f; simpl; [congruence|].
  destruct (negb (byte_val b =? pad)); [discriminate|].
  destruct (len + 1 <? len1); [apply IH | discriminate].
Qed.

Lemma cmp_data_pad2_fail (pad : Z) (p : list byte) :
  forall (len len2 : Z) (f : fault),
    cmp_data_pad2 p len len2 pad = Fail f -> f = OutOfBounds.
Proof.
  induction p as [|b p IH]; intros len len2 f; simpl; [congruence|].
  destruct (negb (byte_val b =? pad)); [discriminate|].
  destruct (len + 1 <? len2); [apply IH | discriminate].
Qed.

Lemma skip_spaces_fail (a : list byte) :
  forall (al : Z) (f : fault), skip_spaces a al = Fail f -> f = OutOfBounds.
Proof.
  induction a as [|c a IH]; intros al f; cbn [skip_spaces];
    destruct (al =? 0); try discriminate; try congruence.
  destruct (byte_val c =? 32); [apply IH | discriminate].
Qed.

Lemma skip_plus_zero_fail (a : list byte) :
  forall (al : Z) (f : fault),
    skip_plus_zero a al = Fail f -> f = OutOfBounds.
Proof.
  induction a as [|c a IH]; intros al f; cbn [skip_plus_zero];
    destruct (0 <? al); try discriminate; try congruence.
  destruct ((byte_val c =? 43) || (byte_val c =? 48));
    [apply IH | discriminate].
Qed.

Lemma skip_equal_fail (a : list byte) :
  forall (b : list byte) (n : Z) (f : fault),
    skip_equal a b n = Fail f -> f = OutOfBounds.
Proof.
  induction a as [|ca a IH]; intros b n f; cbn [skip_equal];
    destruct (0 <? n); try discriminate; try congruence.
  destruct b as [|cb b]; [congruence|].
  destruct (byte_val ca =? byte_val cb); [apply IH | discriminate].
Qed.

Lemma cmp_decimal_digits_fail (a b : list byte) (al bl s : Z) (f : fault) :
  cmp_decimal_digits a al b bl s = Fail f -> f = OutOfBounds.
Proof.
  unfold cmp_decimal_digits.
  destruct (skip_plus_zero a al) as [[a1 al1]|fa] eqn:Ha; cbn [obind];
    [|intro H; injection H as <-; eapply skip_plus_zero_fail; exact Ha].
  destruct (skip_plus_zero b bl) as [[b1 bl1]|fb] eqn:Hb; cbn [obind];
    [|intro H; injection H as <-; eapply skip_plus_zero_fail; exact Hb].
  destruct (negb (al1 =? bl1)).
  { destruct (al1 <? bl1); discriminate. }
  destruct (skip_equal a1 b1 al1) as [[[a2 b2] n2]|fe] eqn:He; cbn [obind];
    [|intro H; injection H as <-; eapply skip_equal_fail; exact He].
  destruct (n2 =? 0); [discriminate|].
  unfold deref. destruct a2, b2; cbn [obind]; try congruence.
  destruct (_ >? _); discriminate.
Qed.

Lemma cmp_whole_field_DATA_DECIMAL_fail (a b : list byte) (al bl : Z)
    (f : fault) :
  cmp_whole_field_DATA_DECIMAL a al b bl = Fail f -> f = OutOfBounds.
Proof.
  unfold cmp_whole_field_DATA_DECIMAL.
  destruct (skip_spaces a al) as [[a1 al1]|fa] eqn:Ha; cbn [obind];
    [|intro H; injection H as <-; eapply skip_spaces_fail; exact Ha].
  destruct (skip_spaces b bl) as [[b1 bl1]|fb] eqn:Hb; cbn [obind];
    [|intro H; injection H as <-; eapply skip_spaces_fail; exact Hb].
  unfold deref. destruct a1 as [|ca a1]; cbn [obind]; [congruence|].
  destruct b1 as [|cb b1]; cbn [obind].
  { destruct (byte_val ca =? 45); congruence. }
  destruct (byte_val ca =? 45); destruct (byte_val cb =? 45); cbn [negb];
    try discriminate; apply cmp_decimal_digits_fail.
Qed.

(** In a non-debug build the scalar comparison fails no assertion. *)
Lemma cmp_data_release_no_assertion (E : collaborators) (mtype prtype : Z)
    (data1 data2 : list byte) (len1 len2 : Z) :
  UNIV_DEBUG E = false ->
  result (cmp_data E mtype prtype data1 len1 data2 len2)
  <> Fail AssertionFailure.
Proof.
  intro Hd. unfold cmp_data.
  destruct ((len1 =? UNIV_SQL_NULL) || (len2 =? UNIV_SQL_NULL)).
  { destruct (len1 =? len2); discriminate. }
  match goal with |- result (if ?c then _ else _) <> _ => destruct c end.
  - destruct (memcmp data1 data2 _) as [v|f] eqn:Hm.
    + rewrite bind_lift_Ret.
      repeat match goal with
             | |- result (if ?c then _ else _) <> _ => destruct c
             end; try discriminate.
      * simpl. intro H. apply cmp_data_pad1_fail in H. discriminate.
      * rewrite ut_ad_release, bind_ret by exact Hd.
        simpl. intro H. apply cmp_data_pad2_fail in H. discriminate.
    + apply memcmp_fail in Hm. subst f. discriminate.
  - unfold cmp_whole_field, innobase_mysql_cmp, ut_ad. rewrite Hd.
    repeat match goal with
           | |- result (if ?c then _ else _) <> _ => destruct c
           end; try discriminate.
    + simpl. intro H. apply cmp_whole_field_DATA_DECIMAL_fail in H.
      discriminate.
    + destruct (mach_double_read E data1), (mach_double_read E data2); simpl;
        try discriminate; repeat break_match; discriminate.
    + destruct (mach_float_read E data1), (mach_float_read E data2); simpl;
        try discriminate; repeat break_match; discriminate.
    + destruct (negb _); destruct (get_charset E _); simpl; discriminate.
    + destruct (get_charset E _); simpl; discriminate.
Qed.

(** In a non-debug build the loop over the fields fails an assertion only on
    an externally stored field of the record. *)
Lemma cmp_dtuple_rec_fields_release_no_assertion (E : collaborators)
    (dtuple : dtuple_t) (rec : rec_t) (k : nat) :
  forall cur_field : Z,
    UNIV_DEBUG E = false ->
    0 <= cur_field ->
    no_extern_fields rec (Z.to_nat cur_field + k) = true ->
    result (cmp_dtuple_rec_fields E dtuple rec k cur_field)
    <> Fail AssertionFailure.
Proof.
  induction k as [|k IH]; intros cur_field Hd Hc Hext;
    cbn [cmp_dtuple_rec_fields]; [simpl; discriminate|].
  unfold dtuple_get_nth_field.
  destruct (nth_error (dtuple_fields dtuple) (Z.to_nat cur_field)) as [f|];
    cbn [of_option]; [|simpl; discriminate].
  rewrite bind_lift_Ret.
  unfold rec_get_nth_field_ext, rec_nth.
  destruct (nth_error (rec_fields rec) (Z.to_nat cur_field)) as [rf|] eqn:Hrf;
    cbn [of_option obind]; [|simpl; discriminate].
  rewrite bind_lift_Ret.
  assert (Hrf_ext : rec_field_extern rf = false).
  { unfold no_extern_fields in Hext.
    rewrite forallb_forall in Hext.
    apply negb_true_iff. apply Hext.
    apply (nth_error_In _ (Z.to_nat cur_field)).
    rewrite nth_error_firstn.
    replace (Z.to_nat cur_field <? Z.to_nat cur_field + S k)%nat with true
      by (symmetry; apply Nat.ltb_lt; lia).
    exact Hrf. }
  rewrite Hrf_ext, ut_ad_release, bind_ret by exact Hd.
  rewrite cmp_data_lift.
  pose proof (cmp_data_release_no_assertion E
                (dtype_mtype (dfield_get_type f))
                (dtype_prtype (dfield_get_type f))
                (dfield_get_data f) (rec_field_data rf)
                (dfield_get_len f) (rec_field_len rf) Hd) as Hna.
  destruct (result (cmp_data E _ _ _ _ _ _)) as [v|fl].
  - rewrite bind_lift_Ret. destruct (negb (v =? 0)); [simpl; discriminate|].
    apply IH; [exact Hd | lia |].
    replace (Z.to_nat (cur_field + 1) + k)%nat
      with (Z.to_nat cur_field + S k)%nat by lia.
    exact Hext.
  - simpl. intro H. apply Hna. injection H as ->. reflexivity.
Qed.

(** C7. The tuple-vs-record comparison is resumable: for a record without
    externally stored field among its first 5 fields, comparing the fields
    [0,3) and then resuming over [3,5) with the returned matched-count gives
    the order and the matched-count of one call over [0,5); and in a
    non-debug build, where the only assertion on this path is the one on an
    externally stored field, no assertion fails. *)
Theorem cmp_dtuple_rec_resumable (E : collaborators) (dtuple : dtuple_t)
    (rec : rec_t) :
  (UNIV_DEBUG E = true ->
   dtuple_rec_preconditions E dtuple rec 5 0 = true) ->
  no_extern_fields rec 5 = true ->
  (' (_, matched_fields) <-
     cmp_dtuple_rec_with_match_low E dtuple rec 3 0 ;;
   cmp_dtuple_rec_with_match_low E dtuple rec 5 matched_fields)
  = cmp_dtuple_rec_with_match_low E dtuple rec 5 0
  /\ (UNIV_DEBUG E = false ->
      result (cmp_dtuple_rec_with_match_low E dtuple rec 5 0)
      <> Fail AssertionFailure).
Proof.
  intros Hpre Hext. split.
  - apply cmp_dtuple_rec_resume; [lia | exact Hpre].
  - intro Hd. rewrite cmp_dtuple_rec_with_match_low_eq, Hd. cbn [andb].
    unfold tuple_vs_record. cbn [Z.eqb andb].
    destruct (has_min_rec_flag (rec_info_bits rec)); [simpl; discriminate|].
    destruct (has_min_rec_flag (dtuple_info_bits dtuple));
      [simpl; discriminate|].
    apply cmp_dtuple_rec_fields_release_no_assertion;
      [exact Hd | lia | exact Hext].
Qed.

Lemma cmp_dtuple_rec_resumable_witness :
  (' (_, matched_fields) <-
     cmp_dtuple_rec_with_match_low (Sample.env true)
       Sample.tuple_abcef Sample.record_abcdfg 3 0 ;;
   cmp_dtuple_rec_with_match_low (Sample.env true)
     Sample.tuple_abcef Sample.record_abcdfg 5 matched_fields)
  = ret (1, 3)
  /\ cmp_dtuple_rec_with_match_low (Sample.env true)
       Sample.tuple_abcef Sample.record_abcdfg 3 0 = ret (0, 3).
Proof.
  split.
  - exact (eq_trans
             (proj1 (cmp_dtuple_rec_resumable (Sample.env true)
                       Sample.tuple_abcef Sample.record_abcdfg
                       (fun _ => eq_refl) eq_refl))
             eq_refl).
  - reflexivity.
Defined.

(** ** Record against record *)

(** C5. When a record carries the minimum-record flag,
    [cmp_rec_rec_with_match] decides the order before [cur_field] is first
    assigned, and the matched-count it reports is the indeterminate content
    of that local, whatever it is, instead of 0. *)
Theorem cmp_rec_rec_with_match_min_rec_indeterminate (E : collaborators)
    (rec1 rec2 : rec_t) (index : dict_index_t) (nulls_unequal : bool)
    (cur_field_indeterminate : Z) :
  (UNIV_DEBUG E = true -> rec_rec_preconditions E rec1 rec2 index = true) ->
  (has_min_rec_flag (rec_info_bits rec1) = true ->
   has_min_rec_flag (rec_info_bits rec2) = false ->
   cmp_rec_rec_with_match E rec1 rec2 index nulls_unequal
     cur_field_indeterminate
   = ret (-1, cur_field_indeterminate))
  /\ (has_min_rec_flag (rec_info_bits rec1) = false ->
      has_min_rec_flag (rec_info_bits rec2) = true ->
      cmp_rec_rec_with_match E rec1 rec2 index nulls_unequal
        cur_field_indeterminate
      = ret (1, cur_field_indeterminate)).
Proof.
  intro Hpre.
  assert (Hasserts :
            ut_ad E (rec_offs_validate E rec1 (Some index)) = ret tt
            /\ ut_ad E (rec_offs_validate E rec2 (Some index)) = ret tt
            /\ ut_ad E (Bool.eqb (rec_offs_comp rec1) (rec_offs_comp rec2))
               = ret tt).
  { destruct (UNIV_DEBUG E) eqn:Hd.
    - specialize (Hpre eq_refl). unfold rec_rec_preconditions in Hpre.
      repeat (apply andb_prop in Hpre; destruct Hpre as [Hpre ?]).
      unfold rec_offs_comp.
      repeat match goal with H : _ = true |- _ => rewrite H; clear H end.
      rewrite ut_ad_true. auto.
    - rewrite !(ut_ad_release E) by exact Hd. auto. }
  destruct Hasserts as (H1 & H2 & H3).
  unfold cmp_rec_rec_with_match, rec_get_info_bits.
  rewrite H1, H2, H3, ut_ad_true, !bind_ret.
  split; intros Hf1 Hf2; rewrite Hf1, ?Hf2; cbn [negb];
    rewrite ?ut_ad_true, !bind_ret; cbn [Z.leb Z.compare andb];
    rewrite ut_ad_true, bind_ret; reflexivity.
Qed.

Lemma cmp_rec_rec_with_match_min_rec_indeterminate_witness :
  cmp_rec_rec_with_match (Sample.env false)
    (Sample.record REC_INFO_MIN_REC_FLAG [Sample.text "a"])
    (Sample.record 0 [Sample.text "b"])
    (Sample.index_on_two 0) false 7
  = ret (-1, 7)
  /\ cmp_rec_rec_with_match (Sample.env true)
       (Sample.record 0 [Sample.text "b"])
       (Sample.record REC_INFO_MIN_REC_FLAG [Sample.text "a"])
       (Sample.index_on_two 0) false 4096
     = ret (1, 4096).
Proof.
  split.
  - refine (proj1 (cmp_rec_rec_with_match_min_rec_indeterminate
                     (Sample.env false)
                     (Sample.record REC_INFO_MIN_REC_FLAG [Sample.text "a"])
                     (Sample.record 0 [Sample.text "b"])
                     (Sample.index_on_two 0) false 7 _) _ _);
      reflexivity.
  - refine (proj2 (cmp_rec_rec_with_match_min_rec_indeterminate
                     (Sample.env true)
                     (Sample.record 0 [Sample.text "b"])
                     (Sample.record REC_INFO_MIN_REC_FLAG [Sample.text "a"])
                     (Sample.index_on_two 0) false 4096 _) _ _);
      reflexivity.
Defined.

(** *** The unique-key comparison *)

Lemma bind_ret_inv {A B : Type} (c : M A) (k : A -> M B) (b : B) :
  bind c k = ret b -> exists a : A, c = ret a /\ k a = ret b.
Proof.
  destruct c as [t [a|f]]; simpl; [|discriminate].
  destruct (k a) as [t' o] eqn:Hk. intro H. injection H as Ht Ho.
  apply app_eq_nil in Ht. destruct Ht as [-> ->]. subst o.
  exists a. split; [reflexivity | exact Hk].
Qed.

Lemma ut_ad_read_true (E : collaborators) : ut_ad_read E (Ret true) = ret tt.
Proof. unfold ut_ad_read. destruct (UNIV_DEBUG E); reflexivity. Qed.

Lemma cmp_data_zero_nulls (E : collaborators) (mtype prtype : Z)
    (data1 data2 : list byte) (len1 len2 : Z) :
  cmp_data E mtype prtype data1 len1 data2 len2 = ret 0 ->
  (len1 =? UNIV_SQL_NULL) = (len2 =? UNIV_SQL_NULL).
Proof.
  unfold cmp_data.
  destruct (len1 =? UNIV_SQL_NULL) eqn:H1;
    destruct (len2 =? UNIV_SQL_NULL) eqn:H2; cbn [orb]; try reflexivity.
  - apply Z.eqb_eq in H1. apply Z.eqb_neq in H2.
    replace (len1 =? len2) with false by (symmetry; apply Z.eqb_neq; lia).
    discriminate.
  - apply Z.eqb_neq in H1. apply Z.eqb_eq in H2.
    replace (len1 =? len2) with false by (symmetry; apply Z.eqb_neq; lia).
    discriminate.
Qed.

(** Two fields that compare equal exist in both records and in the index,
    and are both NULL or both not NULL. *)
Lemma cmp_rec_rec_simple_field_zero (E : collaborators) (rec1 rec2 : rec_t)
    (index : dict_index_t) (n : Z) :
  cmp_rec_rec_simple_field E rec1 rec2 index n = ret 0 ->
  exists (col : dict_col_t) (f1 f2 : rec_field_t),
    nth_error (index_cols index) (Z.to_nat n) = Some col
    /\ nth_error (rec_fields rec1) (Z.to_nat n) = Some f1
    /\ nth_error (rec_fields rec2) (Z.to_nat n) = Some f2
    /\ (rec_field_len f1 =? UNIV_SQL_NULL)
       = (rec_field_len f2 =? UNIV_SQL_NULL).
Proof.
  unfold cmp_rec_rec_simple_field, dict_index_get_nth_col, rec_get_nth_field,
    rec_nth.
  intro H.
  apply bind_ret_inv in H. destruct H as (col & Hcol & H).
  apply bind_ret_inv in H. destruct H as (_ & _ & H).
  apply bind_ret_inv in H. destruct H as (_ & _ & H).
  apply bind_ret_inv in H. destruct H as ([p1 l1] & Hf1 & H).
  apply bind_ret_inv in H. destruct H as ([p2 l2] & Hf2 & H).
  destruct (nth_error (index_cols index) (Z.to_nat n)) as [col'|];
    [|discriminate].
  destruct (nth_error (rec_fields rec1) (Z.to_nat n)) as [f1|];
    [|discriminate].
  destruct (nth_error (rec_fields rec2) (Z.to_nat n)) as [f2|];
    [|discriminate].
  simpl in Hf1, Hf2. unfold lift, ret in Hf1, Hf2.
  injection Hf1 as <- <-. injection Hf2 as <- <-.
  exists col', f1, f2. repeat split.
  eapply cmp_data_zero_nulls. exact H.
Qed.

Lemma field_is_null_eq (rec : rec_t) (n : Z) (f : rec_field_t) :
  nth_error (rec_fields rec) (Z.to_nat n) = Some f ->
  rec_offs_nth_sql_null rec n = Ret (field_is_null rec (Z.to_nat n)).
Proof.
  intro H. unfold rec_offs_nth_sql_null, rec_nth, field_is_null.
  rewrite H. reflexivity.
Qed.

(** The loop over the uniqueness prefix on columns that all compare equal:
    it ends after the last of them and has noted whether one was NULL. *)
Lemma cmp_rec_rec_simple_uniq_equal (E : collaborators) (rec1 rec2 : rec_t)
    (index : dict_index_t) (k : nat) :
  forall (n : Z) (null_eq : bool),
    0 <= n ->
    (forall i : Z, n <= i < n + Z.of_nat k ->
                   cmp_rec_rec_simple_field E rec1 rec2 index i = ret 0) ->
    (UNIV_DEBUG E = true ->
     forallb (fun i => negb (field_is_null rec1 i) || col_is_nullable index i)
             (seq (Z.to_nat n) k) = true) ->
    cmp_rec_rec_simple_uniq E rec1 rec2 index k n null_eq
    = ret (inr (n + Z.of_nat k,
                null_eq || existsb (field_is_null rec1) (seq (Z.to_nat n) k))).
Proof.
  induction k as [|k IH]; intros n null_eq Hn Heq Hnull.
  - simpl. rewrite Z.add_0_r, orb_false_r. reflexivity.
  - cbn [cmp_rec_rec_simple_uniq].
    pose proof (Heq n ltac:(lia)) as H0. rewrite H0, bind_ret.
    cbn [Z.eqb negb].
    apply cmp_rec_rec_simple_field_zero in H0.
    destruct H0 as (col & f1 & f2 & Hcol & Hf1 & Hf2 & Hnulls).
    rewrite (field_is_null_eq rec1 n f1 Hf1).
    rewrite (field_is_null_eq rec2 n f2 Hf2).
    cbn [obind].
    assert (Hsame : field_is_null rec1 (Z.to_nat n)
                    = field_is_null rec2 (Z.to_nat n)).
    { unfold field_is_null. rewrite Hf1, Hf2. exact Hnulls. }
    rewrite <- Hsame, eqb_reflx, ut_ad_read_true, bind_ret, bind_lift_Ret.
    replace (Z.to_nat n :: seq (S (Z.to_nat n)) k)
      with (Z.to_nat n :: seq (Z.to_nat (n + 1)) k)
      by (f_equal; f_equal; lia).
    assert (Hnull' : UNIV_DEBUG E = true ->
              (negb (field_is_null rec1 (Z.to_nat n))
               || col_is_nullable index (Z.to_nat n)) = true
              /\ forallb (fun i => negb (field_is_null rec1 i)
                                   || col_is_nullable index i)
                         (seq (Z.to_nat (n + 1)) k) = true).
    { intro Hd. specialize (Hnull Hd). cbn [seq forallb] in Hnull.
      apply andb_prop in Hnull.
      replace (Z.to_nat (n + 1)) with (S (Z.to_nat n)) by lia. exact Hnull. }
    cbn [seq existsb].
    replace (S (Z.to_nat n)) with (Z.to_nat (n + 1)) by lia.
    destruct (field_is_null rec1 (Z.to_nat n)) eqn:Hisnull.
    + assert (Hut : ut_ad_read E
                      (col <~ dict_index_get_nth_col index n ;;
                       Ret (Z.land (col_prtype col) DATA_NOT_NULL =? 0))
                    = ret tt).
      { unfold ut_ad_read. destruct (UNIV_DEBUG E) eqn:Hd; [|reflexivity].
        destruct (Hnull' eq_refl) as [Hc _].
        unfold col_is_nullable in Hc. rewrite Hcol in Hc. simpl in Hc.
        unfold dict_index_get_nth_col. rewrite Hcol. cbn [of_option obind].
        rewrite Hc. reflexivity. }
      rewrite Hut, bind_ret.
      rewrite IH.
      * replace (n + 1 + Z.of_nat k) with (n + Z.of_nat (S k)) by lia.
        rewrite orb_true_r. reflexivity.
      * lia.
      * intros i Hi. apply Heq. lia.
      * intro Hd. apply (Hnull' Hd).
    + rewrite IH.
      * replace (n + 1 + Z.of_nat k) with (n + Z.of_nat (S k)) by lia.
        reflexivity.
      * lia.
      * intros i Hi. apply Heq. lia.
      * intro Hd. apply (Hnull' Hd).
Qed.

Lemma ut_ad_read_nulls_agree (E : collaborators) (rec1 rec2 : rec_t)
    (index : dict_index_t) (n : Z) :
  cmp_rec_rec_simple_field E rec1 rec2 index n = ret 0 ->
  ut_ad_read E (n1 <~ rec_offs_nth_sql_null rec1 n ;;
                n2 <~ rec_offs_nth_sql_null rec2 n ;;
                Ret (Bool.eqb n1 n2))
  = ret tt.
Proof.
  intro H0. apply cmp_rec_rec_simple_field_zero in H0.
  destruct H0 as (col & f1 & f2 & Hcol & Hf1 & Hf2 & Hnulls).
  rewrite (field_is_null_eq rec1 n f1 Hf1).
  rewrite (field_is_null_eq rec2 n f2 Hf2).
  cbn [obind]. unfold field_is_null. rewrite Hf1, Hf2, Hnulls, eqb_reflx.
  apply ut_ad_read_true.
Qed.

(** The loop over the remaining columns when they all compare equal. *)
Lemma cmp_rec_rec_simple_rest_equal (E : collaborators) (rec1 rec2 : rec_t)
    (index : dict_index_t) (k : nat) :
  forall n : Z,
    (forall i : Z, n <= i < n + Z.of_nat k ->
                   cmp_rec_rec_simple_field E rec1 rec2 index i = ret 0) ->
    cmp_rec_rec_simple_rest E rec1 rec2 index k n = ret None.
Proof.
  induction k as [|k IH]; intros n Heq.
  - reflexivity.
  - cbn [cmp_rec_rec_simple_rest].
    pose proof (Heq n ltac:(lia)) as H0. rewrite H0, bind_ret.
    cbn [Z.eqb negb].
    rewrite (ut_ad_read_nulls_agree E rec1 rec2 index n H0), bind_ret.
    apply IH. intros i Hi. apply Heq. lia.
Qed.

(** The loop over the remaining columns when column [j] is the first that
    differs. *)
Lemma cmp_rec_rec_simple_rest_differ (E : collaborators) (rec1 rec2 : rec_t)
    (index : dict_index_t) (k : nat) :
  forall n j v : Z,
    n <= j < n + Z.of_nat k ->
    (forall i : Z, n <= i < j ->
                   cmp_rec_rec_simple_field E rec1 rec2 index i = ret 0) ->
    cmp_rec_rec_simple_field E rec1 rec2 index j = ret v ->
    v <> 0 ->
    cmp_rec_rec_simple_rest E rec1 rec2 index k n = ret (Some v).
Proof.
  induction k as [|k IH]; intros n j v Hj Heq Hv Hne.
  - lia.
  - cbn [cmp_rec_rec_simple_rest].
    destruct (Z.eq_dec n j) as [-> | Hnj].
    + rewrite Hv, bind_ret.
      replace (v =? 0) with false by (symmetry; apply Z.eqb_neq; exact Hne).
      reflexivity.
    + pose proof (Heq n ltac:(lia)) as H0. rewrite H0, bind_ret.
      cbn [Z.eqb negb].
      rewrite (ut_ad_read_nulls_agree E rec1 rec2 index n H0), bind_ret.
      apply (IH (n + 1) j v); [lia | | exact Hv | exact Hne].
      intros i Hi. apply Heq. lia.
Qed.

(** [cmp_rec_rec_simple] on two records that are equal on the uniqueness
    prefix: either the duplicate is reported, or the remaining columns are
    compared. *)
Lemma cmp_rec_rec_simple_equal_prefix (E : collaborators) (rec1 rec2 : rec_t)
    (index : dict_index_t) (table : option TABLE) :
  0 <= index_n_uniq index ->
  (UNIV_DEBUG E = true ->
   rec_rec_simple_preconditions rec1 rec2 index = true) ->
  (forall n : Z, 0 <= n < index_n_uniq index ->
                 cmp_rec_rec_simple_field E rec1 rec2 index n = ret 0) ->
  cmp_rec_rec_simple E rec1 rec2 index table
  = if negb (uniq_has_null rec1 index) && non_null table
       && dict_index_is_unique index
    then innobase_rec_to_mysql table rec1 index ;; ret 0
    else
      r <- cmp_rec_rec_simple_rest E rec1 rec2 index
             (Z.to_nat (index_n_fields index - index_n_uniq index))
             (index_n_uniq index) ;;
      match r with
      | Some cmp => ret cmp
      | None => ut_ad E false ;; ret 0
      end.
Proof.
  intros Hnu Hpre Heq.
  unfold cmp_rec_rec_simple, dict_index_get_n_unique, dict_index_get_n_fields,
    rec_offs_comp.
  assert (Hasserts :
            ut_ad E (index_n_uniq index <=? rec_offs_n_fields rec1) = ret tt
            /\ ut_ad E (Bool.eqb (rec_comp rec1) (rec_comp rec2)) = ret tt
            /\ (UNIV_DEBUG E = true ->
                forallb (fun i => negb (field_is_null rec1 i)
                                  || col_is_nullable index i)
                        (seq (Z.to_nat 0) (Z.to_nat (index_n_uniq index)))
                = true)).
  { destruct (UNIV_DEBUG E) eqn:Hd.
    - specialize (Hpre eq_refl). unfold rec_rec_simple_preconditions in Hpre.
      repeat (apply andb_prop in Hpre; destruct Hpre as [Hpre ?]).
      repeat match goal with H : _ = true |- _ => rewrite H end.
      rewrite ut_ad_true. auto.
    - rewrite !(ut_ad_release E) by exact Hd.
      repeat split. intro H. discriminate H. }
  destruct Hasserts as (H1 & H2 & H3).
  rewrite H1, H2, Z.eqb_refl, ut_ad_true, !bind_ret.
  rewrite (cmp_rec_rec_simple_uniq_equal E rec1 rec2 index
             (Z.to_nat (index_n_uniq index)) 0 false ltac:(lia)).
  - rewrite bind_ret. cbn [orb].
    replace (0 + Z.of_nat (Z.to_nat (index_n_uniq index)))
      with (index_n_uniq index) by lia.
    reflexivity.
  - intros i Hi. apply Heq. lia.
  - exact H3.
Qed.

Lemma existsb_agree {A : Type} (f g : A -> bool) (l : list A) :
  (forall x : A, In x l -> f x = g x) -> existsb f l = existsb g l.
Proof.
  induction l as [|x l IH]; intro H; simpl.
  - reflexivity.
  - rewrite (H x) by (left; reflexivity).
    rewrite IH by (intros y Hy; apply H; right; exact Hy).
    reflexivity.
Qed.

(** On records equal on the uniqueness prefix, a NULL on one side is a NULL
    on the other side. *)
Lemma uniq_has_null_agree (E : collaborators) (rec1 rec2 : rec_t)
    (index : dict_index_t) :
  (forall n : Z, 0 <= n < index_n_uniq index ->
                 cmp_rec_rec_simple_field E rec1 rec2 index n = ret 0) ->
  uniq_has_null rec1 index = uniq_has_null rec2 index.
Proof.
  intro Heq. unfold uniq_has_null. apply existsb_agree.
  intros i Hi. apply in_seq in Hi.
  pose proof (Heq (Z.of_nat i) ltac:(lia)) as H0.
  apply cmp_rec_rec_simple_field_zero in H0.
  destruct H0 as (col & f1 & f2 & _ & Hf1 & Hf2 & Hnulls).
  rewrite Nat2Z.id in Hf1, Hf2.
  unfold field_is_null. rewrite Hf1, Hf2. exact Hnulls.
Qed.

(** C6 as stated does not hold.  Without a sink, two records equal and not
    NULL on the uniqueness prefix of a unique index are not reported, and
    the comparison goes on to the remaining columns, here returning -1.  And
    in a non-debug build, two records equal on all columns, with a NULL in
    the uniqueness prefix, compare as 0: nothing fatal happens. *)
Lemma cmp_rec_rec_simple_not_as_stated :
  (dict_index_is_unique (Sample.index_on_two DICT_UNIQUE) = true
   /\ uniq_has_null (Sample.record 0 [Sample.text "a"; Sample.text "x"])
                    (Sample.index_on_two DICT_UNIQUE) = false
   /\ cmp_rec_rec_simple_field (Sample.env false)
        (Sample.record 0 [Sample.text "a"; Sample.text "x"])
        (Sample.record 0 [Sample.text "a"; Sample.text "y"])
        (Sample.index_on_two DICT_UNIQUE) 0 = ret 0
   /\ cmp_rec_rec_simple (Sample.env false)
        (Sample.record 0 [Sample.text "a"; Sample.text "x"])
        (Sample.record 0 [Sample.text "a"; Sample.text "y"])
        (Sample.index_on_two DICT_UNIQUE) None = ret (-1))
  /\ (uniq_has_null
        (Sample.record_with_nulls 0 [None; Some (Sample.text "x")])
        (Sample.index_on_two DICT_UNIQUE) = true
      /\ cmp_rec_rec_simple (Sample.env false)
           (Sample.record_with_nulls 0 [None; Some (Sample.text "x")])
           (Sample.record_with_nulls 0 [None; Some (Sample.text "x")])
           (Sample.index_on_two DICT_UNIQUE) (Some (mk_TABLE 1)) = ret 0).
Proof.
  repeat split; reflexivity.
Qed.

(** C6, amended. On two records equal on every uniqueness-prefix column:
    when none of those columns is NULL on either side, the index is unique
    and a sink is supplied, the duplicate is reported through the sink and 0
    is returned; when one of those columns is NULL on either side, or no
    sink is supplied, or the index is not unique, no duplicate is reported
    and the comparison continues through the remaining index columns, the
    first that differs giving the result; when all columns are equal, a
    debug build fails an assertion and a non-debug build returns 0. *)
Theorem cmp_rec_rec_simple_duplicates (E : collaborators) (rec1 rec2 : rec_t)
    (index : dict_index_t) (table : option TABLE) :
  0 <= index_n_uniq index ->
  (UNIV_DEBUG E = true ->
   rec_rec_simple_preconditions rec1 rec2 index = true) ->
  (forall n : Z, 0 <= n < index_n_uniq index ->
                 cmp_rec_rec_simple_field E rec1 rec2 index n = ret 0) ->
  (forall t : TABLE,
      uniq_has_null rec1 index = false ->
      uniq_has_null rec2 index = false ->
      dict_index_is_unique index = true ->
      table = Some t ->
      cmp_rec_rec_simple E rec1 rec2 index table
      = ([RecToMysql t rec1 index], Ret 0))
  /\ (uniq_has_null rec1 index = true \/ uniq_has_null rec2 index = true
      \/ table = None \/ dict_index_is_unique index = false ->
      (forall j v : Z,
          index_n_uniq index <= j < index_n_fields index ->
          (forall n : Z, index_n_uniq index <= n < j ->
                         cmp_rec_rec_simple_field E rec1 rec2 index n = ret 0) ->
          cmp_rec_rec_simple_field E rec1 rec2 index j = ret v ->
          v <> 0 ->
          cmp_rec_rec_simple E rec1 rec2 index table = ret v)
      /\ ((forall n : Z, index_n_uniq index <= n < index_n_fields index ->
                         cmp_rec_rec_simple_field E rec1 rec2 index n = ret 0) ->
          cmp_rec_rec_simple E rec1 rec2 index table
          = if UNIV_DEBUG E then fail AssertionFailure else ret 0)).
Proof.
  intros Hnu Hpre Heq.
  rewrite (cmp_rec_rec_simple_equal_prefix E rec1 rec2 index table
             Hnu Hpre Heq).
  pose proof (uniq_has_null_agree E rec1 rec2 index Heq) as Hagree.
  split.
  - intros t Hn1 _ Huniq ->. rewrite Hn1, Huniq. reflexivity.
  - intro Hcont.
    assert (Hguard : negb (uniq_has_null rec1 index) && non_null table
                     && dict_index_is_unique index = false).
    { rewrite <- Hagree in Hcont.
      destruct Hcont as [-> | [-> | [-> | ->]]]; cbn [negb andb non_null];
        rewrite ?andb_false_r; reflexivity. }
    rewrite Hguard. split.
    + intros j v Hj Hbefore Hv Hne.
      rewrite (cmp_rec_rec_simple_rest_differ E rec1 rec2 index _
                 (index_n_uniq index) j v); try assumption; [|lia].
      rewrite bind_ret. reflexivity.
    + intros Hall.
      rewrite cmp_rec_rec_simple_rest_equal.
      * rewrite bind_ret. unfold ut_ad.
        destruct (UNIV_DEBUG E); reflexivity.
      * intros i Hi.
        destruct (Z_lt_dec i (index_n_fields index)); [apply Hall; lia|].
        lia.
Qed.

Lemma cmp_rec_rec_simple_duplicates_witness :
  cmp_rec_rec_simple (Sample.env true)
    (Sample.record 0 [Sample.text "a"; Sample.text "x"])
    (Sample.record 0 [Sample.text "a"; Sample.text "y"])
    (Sample.index_on_two DICT_UNIQUE) (Some (mk_TABLE 1))
  = ([RecToMysql (mk_TABLE 1)
        (Sample.record 0 [Sample.text "a"; Sample.text "x"])
        (Sample.index_on_two DICT_UNIQUE)], Ret 0)
  /\ cmp_rec_rec_simple (Sample.env true)
       (Sample.record_with_nulls 0 [None; Some (Sample.text "x")])
       (Sample.record_with_nulls 0 [None; Some (Sample.text "x")])
       (Sample.index_on_two DICT_UNIQUE) (Some (mk_TABLE 1))
     = fail AssertionFailure.
Proof.
  split.
  - refine (proj1 (cmp_rec_rec_simple_duplicates (Sample.env true)
                     (Sample.record 0 [Sample.text "a"; Sample.text "x"])
                     (Sample.record 0 [Sample.text "a"; Sample.text "y"])
                     (Sample.index_on_two DICT_UNIQUE) (Some (mk_TABLE 1))
                     _ _ _) (mk_TABLE 1) _ _ _ _); try reflexivity.
    + simpl. lia.
    + intros n Hn. simpl in Hn. assert (n = 0) as -> by lia. reflexivity.
  - refine (proj2 (proj2 (cmp_rec_rec_simple_duplicates (Sample.env true)
                     (Sample.record_with_nulls 0 [None; Some (Sample.text "x")])
                     (Sample.record_with_nulls 0 [None; Some (Sample.text "x")])
                     (Sample.index_on_two DICT_UNIQUE) (Some (mk_TABLE 1))
                     _ _ _) _) _).
    + simpl. lia.
    + reflexivity.
    + intros n Hn. simpl in Hn. assert (n = 0) as -> by lia. reflexivity.
    + left. reflexivity.
    + intros n Hn. simpl in Hn. assert (n = 1) as -> by lia. reflexivity.
Defined.

(** ** Antisymmetry of the scalar comparison *)

Lemma outcome_opp_involutive (o : outcome Z) :
  outcome_opp (outcome_opp o) = o.
Proof. destruct o; simpl; [rewrite Z.opp_involutive|]; reflexivity. Qed.

Lemma memcmp_swap (n : nat) :
  forall a b : list byte, memcmp b a n = outcome_opp (memcmp a b n).
Proof.
  induction n as [|n IH]; intros a b; simpl.
  - reflexivity.
  - destruct a as [|ca a], b as [|cb b]; try reflexivity.
    rewrite (Z.eqb_sym (byte_val cb) (byte_val ca)).
    destruct (byte_val ca =? byte_val cb).
    + apply IH.
    + simpl. f_equal. lia.
Qed.

Lemma cmp_data_pad_swap (pad : Z) (p : list byte) :
  forall len len1 : Z,
    cmp_data_pad2 p len len1 pad = outcome_opp (cmp_data_pad1 p len len1 pad).
Proof.
  induction p as [|b p IH]; intros len len1; simpl.
  - reflexivity.
  - destruct (byte_val b =? pad) eqn:Hb; cbn [negb].
    + destruct (len + 1 <? len1); [apply IH | reflexivity].
    + apply Z.eqb_neq in Hb.
      destruct (byte_val b <? pad) eqn:Hlt.
      * apply Z.ltb_lt in Hlt.
        replace (pad <? byte_val b) with false
          by (symmetry; apply Z.ltb_ge; lia).
        reflexivity.
      * apply Z.ltb_ge in Hlt.
        replace (pad <? byte_val b) with true
          by (symmetry; apply Z.ltb_lt; lia).
        reflexivity.
Qed.

Lemma skip_spaces_inv (a : list byte) :
  forall a_length : Z,
    0 <= a_length ->
    match skip_spaces a a_length with
    | Ret (_, a_length') => 0 <= a_length'
    | Fail f => f = OutOfBounds
    end.
Proof.
  induction a as [|c a IH]; intros al Hal; cbn [skip_spaces].
  - destruct (al =? 0); [exact Hal | reflexivity].
  - destruct (al =? 0) eqn:Hz; [exact Hal|].
    apply Z.eqb_neq in Hz.
    destruct (byte_val c =? 32); [apply IH; lia | exact Hal].
Qed.

Lemma skip_plus_zero_inv (a : list byte) :
  forall a_length : Z,
    0 <= a_length ->
    match skip_plus_zero a a_length with
    | Ret (_, a_length') => 0 <= a_length'
    | Fail f => f = OutOfBounds
    end.
Proof.
  induction a as [|c a IH]; intros al Hal; cbn [skip_plus_zero].
  - destruct (0 <? al); [reflexivity | exact Hal].
  - destruct (0 <? al) eqn:Hz; [|exact Hal].
    apply Z.ltb_lt in Hz.
    destruct ((byte_val c =? 43) || (byte_val c =? 48));
      [apply IH; lia | exact Hal].
Qed.

Lemma skip_equal_swap (a : list byte) :
  forall (b : list byte) (n : Z),
    skip_equal b a n
    = match skip_equal a b n with
      | Ret (a', b', n') => Ret (b', a', n')
      | Fail f => Fail f
      end.
Proof.
  induction a as [|ca a IH]; intros b n.
  - destruct b; cbn [skip_equal]; destruct (0 <? n); reflexivity.
  - destruct b as [|cb b]; cbn [skip_equal]; destruct (0 <? n);
      try reflexivity.
    rewrite (Z.eqb_sym (byte_val cb) (byte_val ca)).
    destruct (byte_val ca =? byte_val cb); [apply IH | reflexivity].
Qed.

(** How the loop of line 247 is left: at the end of the remainders, or at
    two bytes that differ; it reads outside a value otherwise. *)
Lemma skip_equal_inv (a : list byte) :
  forall (b : list byte) (n : Z),
    0 <= n ->
    match skip_equal a b n with
    | Ret (a', b', n') =>
        n' = 0
        \/ (0 < n'
            /\ exists ca ta cb tb,
                 a' = ca :: ta /\ b' = cb :: tb
                 /\ byte_val ca <> byte_val cb)
    | Fail f => f = OutOfBounds
    end.
Proof.
  induction a as [|ca a IH]; intros b n Hn; cbn [skip_equal].
  - destruct (0 <? n) eqn:Hz; [reflexivity|].
    apply Z.ltb_ge in Hz. left. lia.
  - destruct (0 <? n) eqn:Hz.
    + apply Z.ltb_lt in Hz. destruct b as [|cb b]; [reflexivity|].
      destruct (byte_val ca =? byte_val cb) eqn:Hc.
      * apply IH. lia.
      * apply Z.eqb_neq in Hc. right. split; [exact Hz|].
        exists ca, a, cb, b. auto.
    + apply Z.ltb_ge in Hz. left. lia.
Qed.

Lemma cmp_decimal_digits_swap (a b : list byte) (al bl s : Z) :
  0 <= al -> 0 <= bl ->
  cmp_decimal_digits b bl a al s
  = outcome_opp (cmp_decimal_digits a al b bl s).
Proof.
  intros Hal Hbl. unfold cmp_decimal_digits.
  pose proof (skip_plus_zero_inv a al Hal) as Ha.
  pose proof (skip_plus_zero_inv b bl Hbl) as Hb.
  destruct (skip_plus_zero a al) as [[a1 al1]|fa];
    destruct (skip_plus_zero b bl) as [[b1 bl1]|fb]; cbn [obind outcome_opp];
    try (subst; reflexivity).
  rewrite (Z.eqb_sym bl1 al1).
  destruct (al1 =? bl1) eqn:Heq; cbn [negb].
  - apply Z.eqb_eq in Heq. subst bl1.
    rewrite (skip_equal_swap a1 b1 al1).
    pose proof (skip_equal_inv a1 b1 al1 Ha) as Hex.
    destruct (skip_equal a1 b1 al1) as [[[a2 b2] n2]|f]; cbn [obind outcome_opp];
      [|reflexivity].
    destruct Hex as [-> | (Hpos & ca & ta & cb & tb & -> & -> & Hne)].
    + reflexivity.
    + replace (n2 =? 0) with false by (symmetry; apply Z.eqb_neq; lia).
      cbn [deref obind].
      destruct (byte_val ca >? byte_val cb) eqn:Hgt.
      * replace (byte_val cb >? byte_val ca) with false
          by (symmetry; rewrite Z.gtb_ltb in *; apply Z.ltb_ge;
              apply Z.ltb_lt in Hgt; lia).
        reflexivity.
      * replace (byte_val cb >? byte_val ca) with true
          by (symmetry; rewrite Z.gtb_ltb in *; apply Z.ltb_lt;
              apply Z.ltb_ge in Hgt; lia).
        cbn [outcome_opp]. rewrite Z.opp_involutive. reflexivity.
  - apply Z.eqb_neq in Heq.
    destruct (al1 <? bl1) eqn:Hlt.
    + apply Z.ltb_lt in Hlt.
      replace (bl1 <? al1) with false by (symmetry; apply Z.ltb_ge; lia).
      cbn [outcome_opp]. rewrite Z.opp_involutive. reflexivity.
    + apply Z.ltb_ge in Hlt.
      replace (bl1 <? al1) with true by (symmetry; apply Z.ltb_lt; lia).
      reflexivity.
Qed.

Lemma to_unsigned_nonneg (x : Z) : 0 <= to_unsigned x.
Proof.
  unfold to_unsigned, UINT_MODULUS.
  pose proof (Z.mod_pos_bound x 4294967296 ltac:(lia)). lia.
Qed.

Lemma cmp_whole_field_DATA_DECIMAL_swap (a b : list byte) (al bl : Z) :
  0 <= al -> 0 <= bl ->
  cmp_whole_field_DATA_DECIMAL b bl a al
  = outcome_opp (cmp_whole_field_DATA_DECIMAL a al b bl).
Proof.
  intros Hal Hbl. unfold cmp_whole_field_DATA_DECIMAL.
  pose proof (skip_spaces_inv a al Hal) as Ha.
  pose proof (skip_spaces_inv b bl Hbl) as Hb.
  destruct (skip_spaces a al) as [[a1 al1]|fa];
    destruct (skip_spaces b bl) as [[b1 bl1]|fb]; cbn [obind outcome_opp];
    try (subst; reflexivity).
  destruct a1 as [|ca a1]; destruct b1 as [|cb b1];
    cbn [deref obind outcome_opp tl]; try reflexivity.
  - destruct (byte_val cb =? 45); reflexivity.
  - destruct (byte_val ca =? 45); reflexivity.
  - destruct (byte_val ca =? 45); destruct (byte_val cb =? 45);
      cbn [negb outcome_opp]; try reflexivity.
    + apply cmp_decimal_digits_swap; apply to_unsigned_nonneg.
    + apply cmp_decimal_digits_swap; assumption.
Qed.

(** [<] on IEEE-754 values is asymmetric, also on NaN and on the zeros. *)
Lemma SFcompare_swap (x y : spec_float) :
  SFcompare y x = option_map CompOpp (SFcompare x y).
Proof.
  destruct x as [sx|sx| |sx mx ex], y as [sy|sy| |sy my ey];
    try reflexivity;
    try (destruct sx; reflexivity);
    try (destruct sy; reflexivity);
    try (destruct sx, sy; reflexivity).
  destruct sx, sy; simpl; try reflexivity.
  - rewrite (Z.compare_antisym ey ex).
    destruct (ey ?= ex); simpl; try reflexivity.
    rewrite !Pos.compare_cont_spec. simpl.
    rewrite (Pos.compare_antisym my mx).
    destruct (my ?= mx)%positive; reflexivity.
  - rewrite (Z.compare_antisym ey ex).
    destruct (ey ?= ex); simpl; try reflexivity.
    rewrite !Pos.compare_cont_spec. simpl.
    rewrite (Pos.compare_antisym my mx).
    destruct (my ?= mx)%positive; reflexivity.
Qed.

Lemma SFltb_asymmetric (x y : spec_float) :
  SFltb x y = true -> SFltb y x = false.
Proof.
  unfold SFltb. rewrite (SFcompare_swap x y).
  destruct (SFcompare x y) as [[ | | ]|]; simpl; congruence.
Qed.

Lemma float_order_swap (x y : option spec_float) :
  (d_1 <~ of_option y ;;
   d_2 <~ of_option x ;;
   if SFltb d_2 d_1 then Ret 1
   else if SFltb d_1 d_2 then Ret (-1)
   else Ret 0)
  = outcome_opp
      (d_1 <~ of_option x ;;
       d_2 <~ of_option y ;;
       if SFltb d_2 d_1 then Ret 1
       else if SFltb d_1 d_2 then Ret (-1)
       else Ret 0).
Proof.
  destruct x as [x|], y as [y|]; try reflexivity.
  cbn [of_option obind].
  destruct (SFltb x y) eqn:Hxy.
  - rewrite (SFltb_asymmetric x y Hxy). reflexivity.
  - destruct (SFltb y x); reflexivity.
Qed.

Lemma M_opp_lift (o : outcome Z) : M_opp (lift o) = lift (outcome_opp o).
Proof. reflexivity. Qed.

Lemma M_opp_bind {A : Type} (c : M A) (k : A -> M Z) :
  M_opp (bind c k) = bind c (fun a => M_opp (k a)).
Proof.
  destruct c as [t [a|f]]; simpl; [|reflexivity].
  destruct (k a) as [t' o]. reflexivity.
Qed.

Lemma innobase_mysql_cmp_swap (E : collaborators) (prtype : Z)
    (a b : list byte) (al bl : Z) :
  collations_antisymmetric E ->
  innobase_mysql_cmp E prtype b bl a al
  = M_opp (innobase_mysql_cmp E prtype a al b bl).
Proof.
  intros [_ Hcs]. unfold innobase_mysql_cmp.
  rewrite M_opp_bind. f_equal.
  destruct (get_charset E (dtype_get_charset_coll E prtype)) as [cs|] eqn:Hg;
    [|reflexivity].
  rewrite !sign_normalisation, (Hcs _ cs Hg). reflexivity.
Qed.

Lemma cmp_whole_field_swap (E : collaborators) (mtype prtype : Z)
    (a b : list byte) (al bl : Z) :
  ((mtype =? DATA_VARCHAR) || (mtype =? DATA_CHAR) || (mtype =? DATA_BLOB)
   || (mtype =? DATA_VARMYSQL) || (mtype =? DATA_MYSQL) = true ->
   collations_antisymmetric E) ->
  0 <= al -> 0 <= bl ->
  cmp_whole_field E mtype prtype b bl a al
  = M_opp (cmp_whole_field E mtype prtype a al b bl).
Proof.
  intros Hcs Hal Hbl. unfold cmp_whole_field.
  repeat match goal with
         | |- (if ?c then _ else _) = M_opp (if ?c then _ else _) =>
             destruct c eqn:?
         end; try reflexivity.
  - rewrite M_opp_lift. f_equal.
    apply cmp_whole_field_DATA_DECIMAL_swap; assumption.
  - rewrite M_opp_lift. f_equal. apply float_order_swap.
  - rewrite M_opp_lift. f_equal. apply float_order_swap.
  - assert (Hc : collations_antisymmetric E).
    { apply Hcs. simpl. try reflexivity; assumption. }
    destruct Hc as [Hlatin1 _].
    pose proof (Hlatin1 a al b bl) as Hs.
    set (x := strnncollsp (my_charset_latin1 E) a al b bl) in *.
    set (y := strnncollsp (my_charset_latin1 E) b bl a al) in *.
    destruct x, y; simpl in Hs; try discriminate; reflexivity.
  - assert (Hc : collations_antisymmetric E).
    { apply Hcs. simpl. try reflexivity; assumption. }
    rewrite M_opp_bind.
    rewrite (innobase_mysql_cmp_swap E prtype a b al bl Hc). reflexivity.
  - assert (Hc : collations_antisymmetric E).
    { apply Hcs. simpl. try reflexivity; assumption. }
    apply innobase_mysql_cmp_swap. exact Hc.
Qed.

(** C8. The scalar comparison is antisymmetric: for every column type and
    every pair of encoded values, NULL or not, exchanging the operands
    negates the order [cmp_data] returns, on the binary, padded, decimal,
    float, double and collated paths alike, and a comparison that aborts or
    reads outside a value does so in either order.  For the collated types,
    the collations, which are external to the comparator, are required to be
    antisymmetric in the sign of their result. *)
Theorem cmp_data_antisymmetric (E : collaborators) (mtype prtype : Z)
    (data1 data2 : list byte) (len1 len2 : Z) :
  (collated mtype prtype = true -> collations_antisymmetric E) ->
  cmp_data E mtype prtype data2 len2 data1 len1
  = M_opp (cmp_data E mtype prtype data1 len1 data2 len2).
Proof.
  intro Hcs. unfold cmp_data.
  rewrite (orb_comm (len2 =? UNIV_SQL_NULL)), (Z.eqb_sym len2 len1).
  destruct (len1 =? UNIV_SQL_NULL) eqn:H1;
    destruct (len2 =? UNIV_SQL_NULL) eqn:H2; cbn [orb].
  { apply Z.eqb_eq in H1, H2. subst len1 len2. reflexivity. }
  { apply Z.eqb_eq in H1. apply Z.eqb_neq in H2.
    replace (len1 =? len2) with false by (symmetry; apply Z.eqb_neq; lia).
    reflexivity. }
  { apply Z.eqb_neq in H1. apply Z.eqb_eq in H2.
    replace (len1 =? len2) with false by (symmetry; apply Z.eqb_neq; lia).
    reflexivity. }
  match goal with
  | |- (if ?c then _ else _) = _ => destruct c eqn:Hsw
  end.
  - rewrite (Z.min_comm len2 len1).
    set (len := Z.min len1 len2).
    rewrite (memcmp_swap _ data1 data2).
    destruct (memcmp data1 data2 (Z.to_nat len)) as [v|f];
      cbn [outcome_opp]; [|reflexivity].
    rewrite !bind_lift_Ret.
    destruct v as [|v|v]; cbn [Z.opp Z.eqb negb Z.ltb Z.compare];
      try reflexivity.
    destruct (len1 =? len2) eqn:Hll; [reflexivity|].
    apply Z.eqb_neq in Hll.
    destruct (dtype_get_pad_char E mtype prtype =? ULINT_UNDEFINED).
    + destruct (len <? len1) eqn:Hl1; destruct (len <? len2) eqn:Hl2;
        try reflexivity;
        rewrite ?Z.ltb_lt, ?Z.ltb_ge in Hl1, Hl2; unfold len in *; lia.
    + destruct (len <? len1) eqn:Hl1; destruct (len <? len2) eqn:Hl2;
        try (rewrite ?Z.ltb_lt, ?Z.ltb_ge in Hl1, Hl2; unfold len in *; lia).
      * rewrite ut_ad_true, bind_ret, M_opp_lift, cmp_data_pad_swap.
        reflexivity.
      * rewrite ut_ad_true, bind_ret, M_opp_lift, cmp_data_pad_swap.
        rewrite outcome_opp_involutive. reflexivity.
  - apply cmp_whole_field_swap;
      [| apply to_unsigned_nonneg | apply to_unsigned_nonneg].
    intro Hty. apply Hcs. unfold collated.
    apply orb_false_iff in Hsw. destruct Hsw as [_ Hblob].
    destruct (mtype =? DATA_BLOB); [|exact Hty].
    cbn [andb] in Hblob. apply negb_false_iff in Hblob. rewrite Hblob.
    cbn [andb]. rewrite orb_true_r. reflexivity.
Qed.

Lemma collsp_swap (a : list byte) :
  forall b : list byte, Sample.collsp b a = - Sample.collsp a b.
Proof.
  induction a as [|ca a IH]; intro b.
  - destruct b as [|cb b]; simpl; [reflexivity | lia].
  - destruct b as [|cb b]; [simpl; lia|].
    cbn [Sample.collsp].
    rewrite (Z.eqb_sym (byte_val cb) (byte_val ca)).
    destruct (byte_val ca =? byte_val cb); [apply IH | lia].
Qed.

Lemma sample_collations_antisymmetric (debug : bool) :
  collations_antisymmetric (Sample.env debug).
Proof.
  assert (Hcs : forall number, collation_antisymmetric (Sample.byte_order_cs number)).
  { intros number a al b bl. simpl. rewrite collsp_swap, Z.sgn_opp.
    reflexivity. }
  split.
  - apply Hcs.
  - intros cs_num cs. simpl. unfold Sample.charset_registry.
    destruct ((cs_num =? 8) || (cs_num =? 63)); [|discriminate].
    intro H. injection H as <-. apply Hcs.
Qed.

Lemma cmp_data_antisymmetric_witness :
  (cmp_data (Sample.env true) DATA_DECIMAL 0
     (Sample.text "-45") 3 (Sample.text " -000123") 8 = ret 1
   /\ cmp_data (Sample.env true) DATA_DECIMAL 0
        (Sample.text " -000123") 8 (Sample.text "-45") 3 = ret (-1))
  /\ (cmp_data (Sample.env true) DATA_VARCHAR 0
        (Sample.text "abd") 3 (Sample.text "abc  ") 5 = ret 1
      /\ cmp_data (Sample.env true) DATA_VARCHAR 0
           (Sample.text "abc  ") 5 (Sample.text "abd") 3 = ret (-1)).
Proof.
  split; split.
  - refine (eq_trans
              (cmp_data_antisymmetric (Sample.env true) DATA_DECIMAL 0
                 (Sample.text " -000123") (Sample.text "-45") 8 3 _)
              eq_refl).
    intro H. discriminate H.
  - reflexivity.
  - exact (eq_trans
             (cmp_data_antisymmetric (Sample.env true) DATA_VARCHAR 0
                (Sample.text "abc  ") (Sample.text "abd") 5 3
                (fun _ => sample_collations_antisymmetric true))
             eq_refl).
  - reflexivity.
Defined.

(* ================================================================== *)
(** * Further properties of the comparator *)
(* ================================================================== *)

(** ** The scalar comparison *)


Lemma memcmp_same (n : nat) :
  forall (a : list byte) (r : Z), memcmp a a n = Ret r -> r = 0.
Proof.
  induction n as [|n IH]; intros a r; simpl.
  - intro H. ret_inv. congruence.
  - destruct a as [|c a]; [discriminate|].
    rewrite Z.eqb_refl. apply IH.
Qed.

(** X2. The scalar comparison is reflexive: a value compared with itself
    gives 0 whenever the comparison returns, for every type (for the
    collated types, under collations antisymmetric in their sign), also for
    a NaN and for a NULL. *)
Theorem cmp_data_reflexive (E : collaborators) (mtype prtype : Z)
    (data : list byte) (len r : Z) :
  (collated mtype prtype = true -> collations_antisymmetric E) ->
  result (cmp_data E mtype prtype data len data len) = Ret r ->
  r = 0.
Proof.
  intro Hcs. unfold cmp_data.
  destruct ((len =? UNIV_SQL_NULL) || (len =? UNIV_SQL_NULL)).
  { rewrite Z.eqb_refl. simpl. intro H. ret_inv. congruence. }
  match goal with
  | |- result (if ?c then _ else _) = _ -> _ => destruct c eqn:Hsw
  end.
  - destruct (memcmp data data _) as [v|f] eqn:Hm; [|discriminate].
    apply memcmp_same in Hm. subst v.
    rewrite bind_lift_Ret, !Z.eqb_refl. simpl. intro H. ret_inv. congruence.
  - intro H.
    assert (Hswap :
              cmp_whole_field E mtype prtype data (to_unsigned len)
                data (to_unsigned len)
              = M_opp (cmp_whole_field E mtype prtype data (to_unsigned len)
                         data (to_unsigned len))).
    { apply cmp_whole_field_swap;
        [| apply to_unsigned_nonneg | apply to_unsigned_nonneg].
      intro Hty. apply Hcs. unfold collated.
      apply orb_false_iff in Hsw. destruct Hsw as [_ Hblob].
      destruct (mtype =? DATA_BLOB); [|exact Hty].
      cbn [andb] in Hblob. apply negb_false_iff in Hblob. rewrite Hblob.
      cbn [andb]. rewrite orb_true_r. reflexivity. }
    apply (f_equal result) in Hswap. unfold M_opp in Hswap at 1.
    change (result (?e, ?o)) with o in Hswap.
    rewrite H in Hswap. simpl in Hswap. ret_inv. lia.
Qed.

Lemma cmp_data_reflexive_witness :
  result (cmp_data (Sample.env true) DATA_VARCHAR 0
            (Sample.text "abc ") 4 (Sample.text "abc ") 4) = Ret 0
  /\ 0 = 0.
Proof.
  split.
  - reflexivity.
  - exact (cmp_data_reflexive (Sample.env true) DATA_VARCHAR 0
             (Sample.text "abc ") 4 0
             (fun _ => sample_collations_antisymmetric true) eq_refl).
Defined.

(** ** The binary path *)

Lemma byte_val_inj (a b : byte) : byte_val a = byte_val b -> a = b.
Proof.
  unfold byte_val. intro H. apply N2Z.inj in H.
  pose proof (Byte.of_to_N a) as Ha. rewrite H, Byte.of_to_N in Ha.
  congruence.
Qed.

Lemma lex_order_range (a : list byte) :
  forall b : list byte, -1 <= lex_order a b <= 1.
Proof.
  induction a as [|ca a IH]; intros [|cb b]; simpl; try lia.
  destruct (byte_val ca =? byte_val cb); [apply IH|].
  destruct (byte_val ca <? byte_val cb); lia.
Qed.

Lemma lex_order_zero (a : list byte) :
  forall b : list byte, lex_order a b = 0 <-> a = b.
Proof.
  induction a as [|ca a IH]; intros [|cb b]; simpl;
    try (split; [lia | discriminate]); try tauto.
  destruct (byte_val ca =? byte_val cb) eqn:Hc.
  - apply Z.eqb_eq in Hc. apply byte_val_inj in Hc. subst cb.
    rewrite IH. split; [intros ->; reflexivity | intro H; congruence].
  - apply Z.eqb_neq in Hc. split.
    + destruct (byte_val ca <? byte_val cb); lia.
    + intro H. injection H as -> _. congruence.
Qed.

Lemma lex_order_transitive (a : list byte) :
  forall b c : list byte,
    lex_order a b <= 0 -> lex_order b c <= 0 ->
    lex_order a c <= 0
    /\ (lex_order a b < 0 \/ lex_order b c < 0 -> lex_order a c < 0).
Proof.
  induction a as [|ca a IH]; intros [|cb b] [|cc c]; simpl; try lia.
  destruct (byte_val ca =? byte_val cb) eqn:Hab;
    destruct (byte_val cb =? byte_val cc) eqn:Hbc;
    destruct (byte_val ca =? byte_val cc) eqn:Hac;
    rewrite ?Z.eqb_eq, ?Z.eqb_neq in Hab, Hbc, Hac; try lia;
    try apply IH;
    repeat match goal with
           | |- context [?x <? ?y] =>
               let H := fresh in
               destruct (x <? y) eqn:H;
               rewrite ?Z.ltb_lt, ?Z.ltb_ge in H
           end; try lia.
Qed.

(** [memcmp] over the shared length, and what the lengths then decide, is
    the lexicographic order. *)
Lemma memcmp_lex_order (a : list byte) :
  forall b : list byte,
  exists v : Z,
    memcmp a b (Nat.min (List.length a) (List.length b)) = Ret v
    /\ lex_order a b
       = if v <? 0 then -1
         else if 0 <? v then 1
         else if Nat.eqb (List.length a) (List.length b) then 0
         else if Nat.ltb (List.length a) (List.length b) then -1 else 1.
Proof.
  induction a as [|ca a IH]; intros [|cb b]; simpl;
    try (exists 0; split; reflexivity).
  destruct (byte_val ca =? byte_val cb) eqn:Hc.
  - apply IH.
  - apply Z.eqb_neq in Hc. exists (byte_val ca - byte_val cb). split;
      [reflexivity|].
    destruct (byte_val ca <? byte_val cb) eqn:Hlt.
    + apply Z.ltb_lt in Hlt.
      replace (byte_val ca - byte_val cb <? 0) with true
        by (symmetry; apply Z.ltb_lt; lia).
      reflexivity.
    + apply Z.ltb_ge in Hlt.
      replace (byte_val ca - byte_val cb <? 0) with false
        by (symmetry; apply Z.ltb_ge; lia).
      replace (0 <? byte_val ca - byte_val cb) with true
        by (symmetry; apply Z.ltb_lt; lia).
      reflexivity.
Qed.

Lemma to_nat_min_len (data1 data2 : list byte) :
  Z.to_nat (Z.min (len_of data1) (len_of data2))
  = Nat.min (List.length data1) (List.length data2).
Proof. unfold len_of. lia. Qed.

(** X3. On a binary-comparable type and two in-page values, the scalar
    comparison always returns: it neither aborts nor reads outside a value,
    whether or not the type has a pad character. *)
Theorem cmp_data_binary_returns (E : collaborators) (mtype prtype : Z)
    (data1 data2 : list byte) :
  binary_comparable mtype prtype = true ->
  len_of data1 < UNIV_SQL_NULL ->
  len_of data2 < UNIV_SQL_NULL ->
  exists r : Z,
    cmp_data E mtype prtype data1 (len_of data1) data2 (len_of data2) = ret r.
Proof.
  intros Hbin H1 H2. unfold cmp_data.
  replace (len_of data1 =? UNIV_SQL_NULL) with false
    by (symmetry; apply Z.eqb_neq; lia).
  replace (len_of data2 =? UNIV_SQL_NULL) with false
    by (symmetry; apply Z.eqb_neq; lia).
  unfold binary_comparable in Hbin. cbn [orb]. rewrite Hbin.
  rewrite to_nat_min_len.
  destruct (memcmp_lex_order data1 data2) as (v & -> & _).
  rewrite bind_lift_Ret.
  destruct (negb (v =? 0)); [eexists; reflexivity|].
  destruct (len_of data1 =? len_of data2) eqn:Hll; [eexists; reflexivity|].
  apply Z.eqb_neq in Hll.
  destruct (_ =? ULINT_UNDEFINED); [eexists; reflexivity|].
  destruct (Z.min (len_of data1) (len_of data2) <? len_of data1) eqn:Hm.
  - apply Z.ltb_lt in Hm.
    rewrite cmp_data_pad1_order; [eexists; reflexivity | | ].
    + intro Hnil. apply (f_equal (@List.length byte)) in Hnil.
      rewrite length_skipn in Hnil. unfold len_of in *. simpl in Hnil. lia.
    + unfold len_of in *. rewrite length_skipn. lia.
  - apply Z.ltb_ge in Hm.
    replace (Z.min (len_of data1) (len_of data2) <? len_of data2) with true
      by (symmetry; apply Z.ltb_lt; lia).
    rewrite ut_ad_true, bind_ret.
    rewrite cmp_data_pad2_order; [eexists; reflexivity | | ].
    + intro Hnil. apply (f_equal (@List.length byte)) in Hnil.
      rewrite length_skipn in Hnil. unfold len_of in *. simpl in Hnil. lia.
    + unfold len_of in *. rewrite length_skipn. lia.
Qed.

Lemma cmp_data_binary_returns_witness :
  exists r : Z,
    cmp_data (Sample.env true) DATA_FIXBINARY 0
      (Sample.text "ab") (len_of (Sample.text "ab"))
      (Sample.text "ab  c") (len_of (Sample.text "ab  c")) = ret r.
Proof.
  exact (cmp_data_binary_returns (Sample.env true) DATA_FIXBINARY 0
           (Sample.text "ab") (Sample.text "ab  c") eq_refl eq_refl eq_refl).
Defined.

(** The binary path without pad character is the lexicographic order. *)
Lemma cmp_data_lex_order (E : collaborators) (mtype prtype : Z)
    (data1 data2 : list byte) :
  binary_comparable mtype prtype = true ->
  dtype_get_pad_char E mtype prtype = ULINT_UNDEFINED ->
  len_of data1 < UNIV_SQL_NULL ->
  len_of data2 < UNIV_SQL_NULL ->
  cmp_data E mtype prtype data1 (len_of data1) data2 (len_of data2)
  = ret (lex_order data1 data2).
Proof.
  intros Hbin Hpad H1 H2. unfold cmp_data.
  replace (len_of data1 =? UNIV_SQL_NULL) with false
    by (symmetry; apply Z.eqb_neq; lia).
  replace (len_of data2 =? UNIV_SQL_NULL) with false
    by (symmetry; apply Z.eqb_neq; lia).
  unfold binary_comparable in Hbin. cbn [orb]. rewrite Hbin.
  rewrite to_nat_min_len, Hpad, Z.eqb_refl.
  destruct (memcmp_lex_order data1 data2) as (v & -> & ->).
  rewrite bind_lift_Ret. unfold len_of.
  destruct (v <? 0) eqn:Hneg.
  { apply Z.ltb_lt in Hneg.
    replace (v =? 0) with false by (symmetry; apply Z.eqb_neq; lia).
    reflexivity. }
  apply Z.ltb_ge in Hneg.
  destruct (0 <? v) eqn:Hpos.
  { apply Z.ltb_lt in Hpos.
    replace (v =? 0) with false by (symmetry; apply Z.eqb_neq; lia).
    reflexivity. }
  apply Z.ltb_ge in Hpos.
  replace (v =? 0) with true by (symmetry; apply Z.eqb_eq; lia).
  cbn [negb].
  destruct (Nat.eqb (List.length data1) (List.length data2)) eqn:Heq.
  { apply Nat.eqb_eq in Heq. rewrite Heq, Z.eqb_refl. reflexivity. }
  apply Nat.eqb_neq in Heq.
  replace (Z.of_nat (List.length data1) =? Z.of_nat (List.length data2))
    with false by (symmetry; apply Z.eqb_neq; lia).
  destruct (Nat.ltb (List.length data1) (List.length data2)) eqn:Hlt.
  - apply Nat.ltb_lt in Hlt.
    match goal with
    | |- context [if ?c then 1 else -1] =>
        replace c with false by (symmetry; apply Z.ltb_ge; lia)
    end.
    reflexivity.
  - apply Nat.ltb_ge in Hlt.
    match goal with
    | |- context [if ?c then 1 else -1] =>
        replace c with true by (symmetry; apply Z.ltb_lt; lia)
    end.
    reflexivity.
Qed.

(** X4. On a binary-comparable type without pad character, two in-page
    values compare equal exactly when they are the same bytes. *)
Theorem cmp_data_binary_zero_iff_identical (E : collaborators)
    (mtype prtype : Z) (data1 data2 : list byte) :
  binary_comparable mtype prtype = true ->
  dtype_get_pad_char E mtype prtype = ULINT_UNDEFINED ->
  len_of data1 < UNIV_SQL_NULL ->
  len_of data2 < UNIV_SQL_NULL ->
  cmp_data E mtype prtype data1 (len_of data1) data2 (len_of data2) = ret 0
  <-> data1 = data2.
Proof.
  intros Hbin Hpad H1 H2.
  rewrite (cmp_data_lex_order E mtype prtype data1 data2 Hbin Hpad H1 H2).
  rewrite <- lex_order_zero. split.
  - intro H. unfold ret in H. congruence.
  - intros ->. reflexivity.
Qed.

Lemma cmp_data_binary_zero_iff_identical_witness :
  cmp_data (Sample.env false) DATA_INT 0
    (Sample.text "key") (len_of (Sample.text "key"))
    (Sample.text "key") (len_of (Sample.text "key")) = ret 0.
Proof.
  apply (cmp_data_binary_zero_iff_identical (Sample.env false) DATA_INT 0
           (Sample.text "key") (Sample.text "key")
           eq_refl eq_refl eq_refl eq_refl).
  reflexivity.
Defined.

(** X5. On a binary-comparable type without pad character, the scalar
    comparison is transitive on in-page values: from a <= b and b <= c it
    gives a <= c, strictly when one of the two is strict. *)
Theorem cmp_data_binary_transitive (E : collaborators) (mtype prtype : Z)
    (a b c : list byte) (r1 r2 : Z) :
  binary_comparable mtype prtype = true ->
  dtype_get_pad_char E mtype prtype = ULINT_UNDEFINED ->
  len_of a < UNIV_SQL_NULL ->
  len_of b < UNIV_SQL_NULL ->
  len_of c < UNIV_SQL_NULL ->
  cmp_data E mtype prtype a (len_of a) b (len_of b) = ret r1 ->
  cmp_data E mtype prtype b (len_of b) c (len_of c) = ret r2 ->
  r1 <= 0 -> r2 <= 0 ->
  exists r3 : Z,
    cmp_data E mtype prtype a (len_of a) c (len_of c) = ret r3
    /\ r3 <= 0
    /\ (r1 < 0 \/ r2 < 0 -> r3 < 0).
Proof.
  intros Hbin Hpad Ha Hb Hc.
  rewrite (cmp_data_lex_order E mtype prtype a b Hbin Hpad Ha Hb).
  rewrite (cmp_data_lex_order E mtype prtype b c Hbin Hpad Hb Hc).
  rewrite (cmp_data_lex_order E mtype prtype a c Hbin Hpad Ha Hc).
  intros E1 E2 H1 H2. unfold ret in E1, E2.
  injection E1 as E1. injection E2 as E2. subst r1 r2.
  exists (lex_order a c). split; [reflexivity|].
  apply (lex_order_transitive a b c); assumption.
Qed.

Lemma cmp_data_binary_transitive_witness :
  exists r3 : Z,
    cmp_data (Sample.env false) DATA_INT 0
      (Sample.text "ab") (len_of (Sample.text "ab"))
      (Sample.text "b") (len_of (Sample.text "b")) = ret r3
    /\ r3 <= 0
    /\ (-1 < 0 \/ -1 < 0 -> r3 < 0).
Proof.
  refine (cmp_data_binary_transitive (Sample.env false) DATA_INT 0
            (Sample.text "ab") (Sample.text "abc") (Sample.text "b") (-1) (-1)
            eq_refl eq_refl eq_refl eq_refl eq_refl eq_refl eq_refl _ _);
    lia.
Defined.

(** ** Floating-point and decimal operands *)

Lemma SFltb_nan_l (y : spec_float) : SFltb S754_nan y = false.
Proof. reflexivity. Qed.

Lemma SFltb_nan_r (y : spec_float) : SFltb y S754_nan = false.
Proof. destruct y; reflexivity. Qed.

(** X6. A NaN compares equal to every value, on either side, for doubles
    and for floats: neither [d_1 > d_2] nor [d_2 > d_1] holds, and the
    comparison returns 0. *)
Theorem cmp_data_nan_equals_all (E : collaborators) (prtype : Z)
    (a b : list byte) (a_len b_len : Z) (y : spec_float) :
  a_len <> UNIV_SQL_NULL ->
  b_len <> UNIV_SQL_NULL ->
  (mach_double_read E a = Some S754_nan ->
   mach_double_read E b = Some y ->
   cmp_data E DATA_DOUBLE prtype a a_len b b_len = ret 0
   /\ cmp_data E DATA_DOUBLE prtype b b_len a a_len = ret 0)
  /\ (mach_float_read E a = Some S754_nan ->
      mach_float_read E b = Some y ->
      cmp_data E DATA_FLOAT prtype a a_len b b_len = ret 0
      /\ cmp_data E DATA_FLOAT prtype b b_len a a_len = ret 0).
Proof.
  intros Ha Hb. apply Z.eqb_neq in Ha, Hb.
  unfold cmp_data. rewrite Ha, Hb. cbn [orb].
  unfold cmp_whole_field.
  cbn [Z.eqb DATA_DOUBLE DATA_FLOAT DATA_FIXBINARY DATA_BINARY DATA_INT
       DATA_SYS_CHILD DATA_SYS DATA_BLOB DATA_DECIMAL Pos.eqb orb andb].
  split; intros -> ->; cbn [of_option obind];
    rewrite SFltb_nan_l, SFltb_nan_r; split; reflexivity.
Qed.

Lemma cmp_data_nan_equals_all_witness :
  (cmp_data (Sample.env false) DATA_DOUBLE 0
     [x00; x00; x00; x00; x00; x00; xf8; x7f] 8
     [x00; x00; x00; x00; x00; x00; xf0; x3f] 8 = ret 0
   /\ cmp_data (Sample.env false) DATA_DOUBLE 0
        [x00; x00; x00; x00; x00; x00; xf0; x3f] 8
        [x00; x00; x00; x00; x00; x00; xf8; x7f] 8 = ret 0)
  /\ cmp_data (Sample.env false) DATA_DOUBLE 0
       [x00; x00; x00; x00; x00; x00; xf0; x3f] 8
       [x00; x00; x00; x00; x00; x00; x00; x40] 8 = ret (-1).
Proof.
  split.
  - refine (proj1 (cmp_data_nan_equals_all (Sample.env false) 0
                     [x00; x00; x00; x00; x00; x00; xf8; x7f]
                     [x00; x00; x00; x00; x00; x00; xf0; x3f] 8 8
                     (S754_finite false 4503599627370496 (-52)) _ _)
                  eq_refl eq_refl); discriminate.
  - reflexivity.
Defined.

Lemma bytewise_order_zero (a : list byte) :
  forall b : list byte,
    List.length a = List.length b -> (bytewise_order a b = 0 <-> a = b).
Proof.
  induction a as [|ca a IH]; intros [|cb b] Hlen; simpl in *;
    try discriminate; try tauto.
  injection Hlen as Hlen.
  destruct (byte_val ca =? byte_val cb) eqn:Hc.
  - apply Z.eqb_eq in Hc. apply byte_val_inj in Hc. subst cb.
    rewrite (IH b Hlen). split; [intros ->; reflexivity | intro H; congruence].
  - apply Z.eqb_neq in Hc. split.
    + destruct (byte_val ca >? byte_val cb); lia.
    + intro H. injection H as -> _. congruence.
Qed.

Lemma decimal_text_order_zero (a b : list byte) :
  decimal_text_order a b = 0
  <-> decimal_negative a = decimal_negative b
      /\ decimal_digits a = decimal_digits b.
Proof.
  unfold decimal_text_order, decimal_negative, decimal_digits.
  set (ma := starts_with_minus (strip_spaces a)).
  set (mb := starts_with_minus (strip_spaces b)).
  set (da := strip_plus_zero (if ma then tl (strip_spaces a) else strip_spaces a)).
  set (db := strip_plus_zero (if mb then tl (strip_spaces b) else strip_spaces b)).
  assert (Hkey : forall s : Z, s <> 0 ->
            ((if Nat.ltb (List.length da) (List.length db) then - s
              else if Nat.ltb (List.length db) (List.length da) then s
              else s * bytewise_order da db) = 0 <-> da = db)).
  { intros s Hs.
    destruct (Nat.ltb (List.length da) (List.length db)) eqn:H1.
    - apply Nat.ltb_lt in H1. split; [lia|]. intro H. rewrite H in H1. lia.
    - apply Nat.ltb_ge in H1.
      destruct (Nat.ltb (List.length db) (List.length da)) eqn:H2.
      + apply Nat.ltb_lt in H2. split; [lia|]. intro H. rewrite H in H2. lia.
      + apply Nat.ltb_ge in H2.
        rewrite <- (bytewise_order_zero da db ltac:(lia)). nia. }
  destruct ma, mb; cbn [andb negb].
  - rewrite (Hkey (-1)) by lia. tauto.
  - split; [lia | intros [H _]; discriminate H].
  - split; [lia | intros [H _]; discriminate H].
  - rewrite (Hkey 1) by lia. tauto.
Qed.

(** X7. Two in-page decimal operands, each with a byte other than a space,
    compare equal exactly when they have the same sign and the same digits
    after the leading spaces, the sign and the leading '+' and '0' are
    stripped. *)
Theorem cmp_data_decimal_zero_iff (E : collaborators) (prtype : Z)
    (a b : list byte) :
  len_of a < UNIV_SQL_NULL ->
  len_of b < UNIV_SQL_NULL ->
  has_non_space a = true ->
  has_non_space b = true ->
  cmp_data E DATA_DECIMAL prtype a (len_of a) b (len_of b) = ret 0
  <-> decimal_negative a = decimal_negative b
      /\ decimal_digits a = decimal_digits b.
Proof.
  intros Ha Hb Hna Hnb.
  rewrite <- decimal_text_order_zero.
  unfold cmp_data.
  replace (len_of a =? UNIV_SQL_NULL) with false
    by (symmetry; apply Z.eqb_neq; lia).
  replace (len_of b =? UNIV_SQL_NULL) with false
    by (symmetry; apply Z.eqb_neq; lia).
  unfold cmp_whole_field.
  cbn [Z.eqb DATA_FIXBINARY DATA_BINARY DATA_INT DATA_SYS_CHILD DATA_SYS
       DATA_BLOB DATA_DECIMAL Pos.eqb orb andb].
  pose proof (len_of_nonneg a). pose proof (len_of_nonneg b).
  unfold UNIV_SQL_NULL in Ha, Hb.
  rewrite !to_unsigned_small by (unfold UINT_MODULUS; lia).
  rewrite cmp_whole_field_DATA_DECIMAL_eq by (unfold UINT_MODULUS; lia).
  rewrite Hna, Hnb. cbn [andb]. unfold lift, ret. split.
  - intro Heq. congruence.
  - intros ->. reflexivity.
Qed.

Lemma cmp_data_decimal_zero_iff_witness :
  cmp_data (Sample.env false) DATA_DECIMAL 0
    (Sample.text "  -0042") (len_of (Sample.text "  -0042"))
    (Sample.text "-42") (len_of (Sample.text "-42")) = ret 0.
Proof.
  apply (cmp_data_decimal_zero_iff (Sample.env false) 0
           (Sample.text "  -0042") (Sample.text "-42")
           eq_refl eq_refl eq_refl eq_refl).
  split; reflexivity.
Defined.

(** ** Comparable columns *)

(** X8. Whatever the two string classifiers are, [cmp_cols_are_equal] is
    reflexive and symmetric, and waiving the charset check can only turn a
    FALSE into a TRUE. *)
Theorem cmp_cols_are_equal_relation (E : collaborators)
    (is_non_binary_string is_binary_string : Z -> Z -> bool) :
  (forall (col : dict_col_t) (check_charsets : bool),
      cmp_cols_are_equal E is_non_binary_string is_binary_string
        col col check_charsets = true)
  /\ (forall (col1 col2 : dict_col_t) (check_charsets : bool),
         cmp_cols_are_equal E is_non_binary_string is_binary_string
           col2 col1 check_charsets
         = cmp_cols_are_equal E is_non_binary_string is_binary_string
             col1 col2 check_charsets)
  /\ (forall col1 col2 : dict_col_t,
         cmp_cols_are_equal E is_non_binary_string is_binary_string
           col1 col2 true = true ->
         cmp_cols_are_equal E is_non_binary_string is_binary_string
           col1 col2 false = true).
Proof.
  repeat split.
  - intros col check. unfold cmp_cols_are_equal.
    rewrite !Z.eqb_refl. cbn [negb]. rewrite andb_false_r, orb_true_r.
    repeat match goal with
           | |- (if ?c then _ else _) = true => destruct c
           end; reflexivity.
  - intros col1 col2 check. unfold cmp_cols_are_equal.
    rewrite (andb_comm (is_non_binary_string (col_mtype col2) (col_prtype col2))).
    rewrite (andb_comm (is_binary_string (col_mtype col2) (col_prtype col2))).
    rewrite (Z.eqb_sym (dtype_get_charset_coll E (col_prtype col2))).
    rewrite (Z.eqb_sym (col_mtype col2) (col_mtype col1)).
    rewrite (Z.eqb_sym (Z.land (col_prtype col2) DATA_UNSIGNED)).
    rewrite (Z.eqb_sym (col_len col2) (col_len col1)).
    destruct (_ && _); [reflexivity|].
    destruct (_ && _); [reflexivity|].
    destruct (col_mtype col1 =? col_mtype col2) eqn:Hm; [|reflexivity].
    apply Z.eqb_eq in Hm. rewrite Hm. reflexivity.
  - intros col1 col2. unfold cmp_cols_are_equal.
    destruct (_ && _); [reflexivity | exact (fun H => H)].
Qed.

(** ** Tuple against record: the first difference decides *)

(** One turn of the loop of lines 482-513 on a field that compares as [v]. *)
Lemma cmp_dtuple_rec_fields_step (E : collaborators) (dtuple : dtuple_t)
    (rec : rec_t) (k : nat) (cur_field v : Z) :
  tuple_field_compares E dtuple rec cur_field v ->
  cmp_dtuple_rec_fields E dtuple rec (S k) cur_field
  = if negb (v =? 0) then ret (v, cur_field)
    else cmp_dtuple_rec_fields E dtuple rec k (cur_field + 1).
Proof.
  intros (f & rf & Hf & Hrf & Hext & Hdext & Hcmp).
  cbn [cmp_dtuple_rec_fields].
  unfold dtuple_get_nth_field, rec_get_nth_field_ext, rec_nth.
  rewrite Hf, Hrf. cbn [of_option obind]. rewrite !bind_lift_Ret, Hext.
  assert (Hut : ut_ad E (negb (dfield_is_ext f)) = ret tt).
  { destruct (UNIV_DEBUG E) eqn:Hd.
    - unfold dfield_is_ext. rewrite (Hdext eq_refl). apply ut_ad_true.
    - apply ut_ad_release. exact Hd. }
  rewrite Hut, bind_ret.
  unfold dfield_get_type, dfield_get_data, dfield_get_len.
  rewrite Hcmp, bind_ret. reflexivity.
Qed.

Lemma cmp_dtuple_rec_fields_all_equal (E : collaborators) (dtuple : dtuple_t)
    (rec : rec_t) (k : nat) :
  forall cur_field : Z,
    (forall i : Z, cur_field <= i < cur_field + Z.of_nat k ->
                   tuple_field_compares E dtuple rec i 0) ->
    cmp_dtuple_rec_fields E dtuple rec k cur_field
    = ret (0, cur_field + Z.of_nat k).
Proof.
  induction k as [|k IH]; intros cur_field Hall.
  - simpl. rewrite Z.add_0_r. reflexivity.
  - rewrite (cmp_dtuple_rec_fields_step E dtuple rec k cur_field 0)
      by (apply Hall; lia).
    cbn [Z.eqb negb]. rewrite IH.
    + f_equal. f_equal. lia.
    + intros i Hi. apply Hall. lia.
Qed.

Lemma cmp_dtuple_rec_fields_first_difference (E : collaborators)
    (dtuple : dtuple_t) (rec : rec_t) (k : nat) :
  forall cur_field j v : Z,
    cur_field <= j < cur_field + Z.of_nat k ->
    (forall i : Z, cur_field <= i < j ->
                   tuple_field_compares E dtuple rec i 0) ->
    tuple_field_compares E dtuple rec j v ->
    v <> 0 ->
    cmp_dtuple_rec_fields E dtuple rec k cur_field = ret (v, j).
Proof.
  induction k as [|k IH]; intros cur_field j v Hj Hbefore Hat Hv; [lia|].
  destruct (Z.eq_dec cur_field j) as [-> | Hne].
  - rewrite (cmp_dtuple_rec_fields_step E dtuple rec k j v Hat).
    replace (v =? 0) with false by (symmetry; apply Z.eqb_neq; exact Hv).
    reflexivity.
  - rewrite (cmp_dtuple_rec_fields_step E dtuple rec k cur_field 0)
      by (apply Hbefore; lia).
    cbn [Z.eqb negb].
    apply IH; [lia | | exact Hat | exact Hv].
    intros i Hi. apply Hbefore. lia.
Qed.

(** X9. Tuple against record, resumed from any matched-count: when no
    minimum-record marker decides, the first field from the matched-count on
    that does not compare equal gives the order, and its index is the
    matched-count reported; when all fields up to [n_cmp] compare equal, the
    order is 0 and the matched-count is [n_cmp]. *)
Theorem cmp_dtuple_rec_first_difference (E : collaborators)
    (dtuple : dtuple_t) (rec : rec_t) (n_cmp matched_fields : Z) :
  (UNIV_DEBUG E = true ->
   dtuple_rec_preconditions E dtuple rec n_cmp matched_fields = true) ->
  (matched_fields = 0 ->
   has_min_rec_flag (rec_info_bits rec) = false
   /\ has_min_rec_flag (dtuple_info_bits dtuple) = false) ->
  0 <= matched_fields <= n_cmp ->
  (forall j v : Z,
      matched_fields <= j < n_cmp ->
      (forall i : Z, matched_fields <= i < j ->
                     tuple_field_compares E dtuple rec i 0) ->
      tuple_field_compares E dtuple rec j v ->
      v <> 0 ->
      cmp_dtuple_rec_with_match_low E dtuple rec n_cmp matched_fields
      = ret (v, j))
  /\ ((forall i : Z, matched_fields <= i < n_cmp ->
                     tuple_field_compares E dtuple rec i 0) ->
      cmp_dtuple_rec_with_match_low E dtuple rec n_cmp matched_fields
      = ret (0, n_cmp)).
Proof.
  intros Hpre Hflags Hm.
  rewrite cmp_dtuple_rec_with_match_low_eq.
  rewrite (dtuple_rec_preconditions_guard E dtuple rec n_cmp matched_fields Hpre).
  assert (Htvr : tuple_vs_record E dtuple rec n_cmp matched_fields
                 = cmp_dtuple_rec_fields E dtuple rec
                     (Z.to_nat (n_cmp - matched_fields)) matched_fields).
  { unfold tuple_vs_record.
    destruct (matched_fields =? 0) eqn:H0; cbn [andb]; [|reflexivity].
    apply Z.eqb_eq in H0. destruct (Hflags H0) as [-> ->]. reflexivity. }
  rewrite Htvr. split.
  - intros j v Hj Hbefore Hat Hv.
    apply cmp_dtuple_rec_fields_first_difference; try assumption. lia.
  - intros Hall.
    rewrite cmp_dtuple_rec_fields_all_equal.
    + f_equal. f_equal. lia.
    + intros i Hi. apply Hall. lia.
Qed.

Lemma tuple_abcef_compares (debug : bool) :
  (forall i : Z, 0 <= i < 3 ->
     tuple_field_compares (Sample.env debug)
       Sample.tuple_abcef Sample.record_abcdfg i 0)
  /\ tuple_field_compares (Sample.env debug)
       Sample.tuple_abcef Sample.record_abcdfg 3 1.
Proof.
  split.
  - intros i Hi.
    assert (Hc : i = 0 \/ i = 1 \/ i = 2) by lia.
    destruct Hc as [-> | [-> | ->]];
      do 2 eexists; repeat split; reflexivity.
  - do 2 eexists; repeat split; reflexivity.
Qed.

Lemma cmp_dtuple_rec_first_difference_witness :
  cmp_dtuple_rec_with_match_low (Sample.env true)
    Sample.tuple_abcef Sample.record_abcdfg 5 0 = ret (1, 3).
Proof.
  refine (proj1 (cmp_dtuple_rec_first_difference (Sample.env true)
                   Sample.tuple_abcef Sample.record_abcdfg 5 0
                   (fun _ => eq_refl) (fun _ => conj eq_refl eq_refl) _)
            3 1 _ _ _ _); try lia.
  - intros i Hi. apply (tuple_abcef_compares true). lia.
  - apply (tuple_abcef_compares true).
Defined.

(** Without a deciding minimum-record marker the comparison is the loop over
    the fields. *)
Lemma cmp_dtuple_rec_with_match_low_fields (E : collaborators)
    (dtuple : dtuple_t) (rec : rec_t) (n_cmp matched_fields : Z) :
  (UNIV_DEBUG E = true ->
   dtuple_rec_preconditions E dtuple rec n_cmp matched_fields = true) ->
  (matched_fields = 0 ->
   has_min_rec_flag (rec_info_bits rec) = false
   /\ has_min_rec_flag (dtuple_info_bits dtuple) = false) ->
  cmp_dtuple_rec_with_match_low E dtuple rec n_cmp matched_fields
  = cmp_dtuple_rec_fields E dtuple rec
      (Z.to_nat (n_cmp - matched_fields)) matched_fields.
Proof.
  intros Hpre Hflags.
  rewrite cmp_dtuple_rec_with_match_low_eq.
  rewrite (dtuple_rec_preconditions_guard E dtuple rec n_cmp matched_fields Hpre).
  unfold tuple_vs_record.
  destruct (matched_fields =? 0) eqn:H0; cbn [andb]; [|reflexivity].
  apply Z.eqb_eq in H0. destruct (Hflags H0) as [-> ->]. reflexivity.
Qed.

Lemma dtuple_rec_preconditions_validate (E : collaborators) (dtuple : dtuple_t)
    (rec : rec_t) (n_cmp matched_fields : Z) :
  (UNIV_DEBUG E = true ->
   dtuple_rec_preconditions E dtuple rec n_cmp matched_fields = true) ->
  ut_ad E (rec_offs_validate E rec None) = ret tt.
Proof.
  intro Hpre. destruct (UNIV_DEBUG E) eqn:Hd.
  - specialize (Hpre eq_refl). unfold dtuple_rec_preconditions in Hpre.
    repeat (apply andb_prop in Hpre; destruct Hpre as [Hpre ?]).
    match goal with H : rec_offs_validate _ _ _ = true |- _ => rewrite H end.
    apply ut_ad_true.
  - apply ut_ad_release. exact Hd.
Qed.

(** X10. [cmp_dtuple_rec] compares the first [n_fields_cmp] fields of the
    tuple: when neither operand carries the minimum-record marker, it returns
    the order of the first of these fields that does not compare equal, and 0
    when all of them compare equal, whatever fields the record has beyond
    them. *)
Theorem cmp_dtuple_rec_order (E : collaborators) (dtuple : dtuple_t)
    (rec : rec_t) :
  (UNIV_DEBUG E = true ->
   dtuple_rec_preconditions E dtuple rec (dtuple_n_fields_cmp dtuple) 0 = true) ->
  has_min_rec_flag (rec_info_bits rec) = false ->
  has_min_rec_flag (dtuple_info_bits dtuple) = false ->
  (forall j v : Z,
      0 <= j < dtuple_n_fields_cmp dtuple ->
      (forall i : Z, 0 <= i < j -> tuple_field_compares E dtuple rec i 0) ->
      tuple_field_compares E dtuple rec j v ->
      v <> 0 ->
      cmp_dtuple_rec E dtuple rec = ret v)
  /\ ((forall i : Z, 0 <= i < dtuple_n_fields_cmp dtuple ->
                     tuple_field_compares E dtuple rec i 0) ->
      cmp_dtuple_rec E dtuple rec = ret 0).
Proof.
  intros Hpre Hfr Hft.
  unfold cmp_dtuple_rec, cmp_dtuple_rec_with_match, dtuple_get_n_fields_cmp.
  rewrite (dtuple_rec_preconditions_validate E dtuple rec _ 0 Hpre), bind_ret.
  rewrite (cmp_dtuple_rec_with_match_low_fields E dtuple rec _ 0 Hpre)
    by (intros _; split; assumption).
  split.
  - intros j v Hj Hbefore Hat Hv.
    rewrite (cmp_dtuple_rec_fields_first_difference E dtuple rec _ 0 j v);
      try assumption; [|lia].
    rewrite bind_ret. reflexivity.
  - intros Hall.
    rewrite cmp_dtuple_rec_fields_all_equal.
    + rewrite bind_ret. reflexivity.
    + intros i Hi. apply Hall. lia.
Qed.

Lemma cmp_dtuple_rec_order_witness :
  cmp_dtuple_rec (Sample.env true) Sample.tuple_abcef Sample.record_abcdfg
  = ret 1.
Proof.
  refine (proj1 (cmp_dtuple_rec_order (Sample.env true)
                   Sample.tuple_abcef Sample.record_abcdfg
                   (fun _ => eq_refl) eq_refl eq_refl)
            3 1 _ _ _ _).
  - simpl. lia.
  - intros i Hi. apply (tuple_abcef_compares true). lia.
  - apply (tuple_abcef_compares true).
  - lia.
Defined.

(** A difference is found at a field the tuple has. *)
Lemma cmp_dtuple_rec_fields_stop_tuple (E : collaborators) (dtuple : dtuple_t)
    (rec : rec_t) (k : nat) :
  forall cur_field ret_ m : Z,
    0 <= cur_field ->
    result (cmp_dtuple_rec_fields E dtuple rec k cur_field) = Ret (ret_, m) ->
    ret_ <> 0 ->
    m < dtuple_get_n_fields dtuple.
Proof.
  induction k as [|k IH]; intros cur_field ret_ m Hc;
    cbn [cmp_dtuple_rec_fields].
  - simpl. intros H Hne. ret_inv. subst. congruence.
  - unfold dtuple_get_nth_field.
    destruct (nth_error (dtuple_fields dtuple) (Z.to_nat cur_field))
      as [f|] eqn:Hf; [|discriminate].
    assert (Hlt : cur_field < dtuple_get_n_fields dtuple).
    { assert (Hn : (Z.to_nat cur_field < List.length (dtuple_fields dtuple))%nat)
        by (apply nth_error_Some; congruence).
      unfold dtuple_get_n_fields. lia. }
    cbn [of_option]. rewrite bind_lift_Ret.
    destruct (rec_get_nth_field_ext rec cur_field) as [[[ext p] l]|];
      [|discriminate].
    rewrite bind_lift_Ret. destruct ext; [discriminate|].
    destruct (ut_ad_cases E (negb (dfield_is_ext f))) as [-> | ->];
      [|discriminate].
    rewrite bind_ret, cmp_data_lift.
    destruct (result (cmp_data E _ _ _ _ _ _)) as [v|]; [|discriminate].
    rewrite bind_lift_Ret. destruct (negb (v =? 0)).
    + simpl. intros H Hne. ret_inv. subst. exact Hlt.
    + intros H Hne. apply (IH (cur_field + 1) ret_ m); [lia | exact H | exact Hne].
Qed.

(** X11. [cmp_dtuple_is_prefix_of_rec] answers TRUE for a non-empty tuple
    only when the record has at least as many fields as the tuple, the
    tuple's comparison-field count is its field count, and [cmp_dtuple_rec]
    finds the tuple equal to the record: every field of the tuple, the last
    one included, compares equal to the record's. *)
Theorem cmp_dtuple_is_prefix_of_rec_true (E : collaborators)
    (dtuple : dtuple_t) (rec : rec_t) :
  0 < dtuple_get_n_fields dtuple ->
  result (cmp_dtuple_is_prefix_of_rec E dtuple rec) = Ret true ->
  dtuple_get_n_fields dtuple <= rec_offs_n_fields rec
  /\ dtuple_n_fields_cmp dtuple = dtuple_get_n_fields dtuple
  /\ cmp_dtuple_rec E dtuple rec = ret 0.
Proof.
  intros Hn H.
  unfold cmp_dtuple_is_prefix_of_rec in H. unfold cmp_dtuple_rec.
  destruct (ut_ad_cases E (rec_offs_validate E rec None)) as [Hu | Hu];
    rewrite Hu in *; [|simpl in H; discriminate].
  rewrite bind_ret in *.
  destruct (rec_offs_n_fields rec <? dtuple_get_n_fields dtuple) eqn:Hlt.
  { destruct (ut_ad_cases E false) as [Hf | Hf]; rewrite Hf in H;
      simpl in H; discriminate. }
  apply Z.ltb_ge in Hlt.
  unfold cmp_dtuple_rec_with_match, dtuple_get_n_fields_cmp in *.
  rewrite cmp_dtuple_rec_with_match_low_eq in *.
  destruct (UNIV_DEBUG E && negb _); [simpl in H; discriminate|].
  pose proof (tuple_vs_record_events E dtuple rec (dtuple_n_fields_cmp dtuple) 0)
    as Hev.
  destruct (tuple_vs_record E dtuple rec (dtuple_n_fields_cmp dtuple) 0)
    as [t o] eqn:Htv.
  simpl in Hev. subst t.
  destruct o as [[r m]|f]; [|simpl in H; discriminate].
  simpl in H. injection H as Hm. apply Z.eqb_eq in Hm.
  unfold tuple_vs_record in Htv. cbn [Z.eqb andb] in Htv.
  destruct (has_min_rec_flag (rec_info_bits rec)).
  { injection Htv as _ Hm0. lia. }
  destruct (has_min_rec_flag (dtuple_info_bits dtuple)).
  { injection Htv as _ Hm0. lia. }
  assert (Hres : result (cmp_dtuple_rec_fields E dtuple rec
                           (Z.to_nat (dtuple_n_fields_cmp dtuple - 0)) 0)
                 = Ret (r, m)) by (rewrite Htv; reflexivity).
  assert (Hnf : 0 <= rec_offs_n_fields rec) by (unfold rec_offs_n_fields; lia).
  pose proof (cmp_dtuple_rec_fields_stop E dtuple rec _ 0 r m
                ltac:(lia) Hres) as (_ & _ & Hzero & _).
  destruct (Z.eq_dec r 0) as [-> | Hne].
  - specialize (Hzero eq_refl). repeat split; [exact Hlt | lia].
  - pose proof (cmp_dtuple_rec_fields_stop_tuple E dtuple rec _ 0 r m
                  ltac:(lia) Hres Hne). lia.
Qed.

Lemma cmp_dtuple_is_prefix_of_rec_true_witness :
  dtuple_get_n_fields (Sample.tuple 0 [Sample.text "a"; Sample.text "b"])
  <= rec_offs_n_fields Sample.record_abcdfg
  /\ dtuple_n_fields_cmp (Sample.tuple 0 [Sample.text "a"; Sample.text "b"])
     = dtuple_get_n_fields (Sample.tuple 0 [Sample.text "a"; Sample.text "b"])
  /\ cmp_dtuple_rec (Sample.env true)
       (Sample.tuple 0 [Sample.text "a"; Sample.text "b"])
       Sample.record_abcdfg = ret 0.
Proof.
  apply (cmp_dtuple_is_prefix_of_rec_true (Sample.env true)
           (Sample.tuple 0 [Sample.text "a"; Sample.text "b"])
           Sample.record_abcdfg).
  - reflexivity.
  - reflexivity.
Defined.

(** ** The debug reimplementation *)

(** X12. Whenever the preconditions asserted on entry hold and
    [cmp_dtuple_rec_with_match_low] returns, the debug reimplementation
    [cmp_debug_dtuple_rec_with_match] returns the same order and the same
    matched-count: the two implementations agree. *)
Theorem cmp_debug_dtuple_rec_with_match_same (E : collaborators)
    (dtuple : dtuple_t) (rec : rec_t) (n_cmp matched_fields : Z) (x : Z * Z) :
  dtuple_rec_preconditions E dtuple rec n_cmp matched_fields = true ->
  result (cmp_dtuple_rec_with_match_low E dtuple rec n_cmp matched_fields)
  = Ret x ->
  cmp_debug_dtuple_rec_with_match E dtuple rec n_cmp matched_fields = ret x.
Proof.
  intros Hpre H.
  rewrite cmp_dtuple_rec_with_match_low_eq, Hpre in H.
  cbn [negb] in H. rewrite andb_false_r in H.
  apply cmp_debug_dtuple_rec_with_match_agree; assumption.
Qed.

Lemma cmp_debug_dtuple_rec_with_match_same_witness :
  cmp_debug_dtuple_rec_with_match (Sample.env true)
    Sample.tuple_abcef Sample.record_abcdfg 5 0 = ret (1, 3).
Proof.
  apply (cmp_debug_dtuple_rec_with_match_same (Sample.env true)
           Sample.tuple_abcef Sample.record_abcdfg 5 0 (1, 3));
    reflexivity.
Defined.

Lemma cmp_debug_dtuple_rec_fields_step (E : collaborators) (dtuple : dtuple_t)
    (rec : rec_t) (k : nat) (cur_field v : Z) :
  tuple_field_compares E dtuple rec cur_field v ->
  cmp_debug_dtuple_rec_fields E dtuple rec (S k) cur_field
  = if negb (v =? 0) then ret (v, cur_field)
    else cmp_debug_dtuple_rec_fields E dtuple rec k (cur_field + 1).
Proof.
  intros (f & rf & Hf & Hrf & Hext & _ & Hcmp).
  cbn [cmp_debug_dtuple_rec_fields].
  unfold dtuple_get_nth_field, rec_get_nth_field_ext, rec_nth.
  rewrite Hf, Hrf. cbn [of_option obind]. rewrite !bind_lift_Ret, Hext.
  unfold cmp_data_data, dfield_get_type, dfield_get_data, dfield_get_len.
  rewrite Hcmp, bind_ret. reflexivity.
Qed.

(** The loop meets an externally stored field of the record at [j]. *)
Lemma cmp_dtuple_rec_fields_extern (E : collaborators) (dtuple : dtuple_t)
    (rec : rec_t) (f : dfield_t) (rf : rec_field_t) (j : Z) (k : nat) :
  nth_error (dtuple_fields dtuple) (Z.to_nat j) = Some f ->
  nth_error (rec_fields rec) (Z.to_nat j) = Some rf ->
  rec_field_extern rf = true ->
  forall cur_field : Z,
    cur_field <= j < cur_field + Z.of_nat k ->
    (forall i : Z, cur_field <= i < j ->
                   tuple_field_compares E dtuple rec i 0) ->
    cmp_dtuple_rec_fields E dtuple rec k cur_field = fail AssertionFailure
    /\ cmp_debug_dtuple_rec_fields E dtuple rec k cur_field = ret (0, j).
Proof.
  intros Hf Hrf Hext.
  induction k as [|k IH]; intros cur_field Hj Hbefore; [lia|].
  destruct (Z.eq_dec cur_field j) as [-> | Hne].
  - cbn [cmp_dtuple_rec_fields cmp_debug_dtuple_rec_fields].
    unfold dtuple_get_nth_field, rec_get_nth_field_ext, rec_nth.
    rewrite Hf, Hrf. cbn [of_option obind]. rewrite !bind_lift_Ret, Hext.
    split; reflexivity.
  - rewrite (cmp_dtuple_rec_fields_step E dtuple rec k cur_field 0)
      by (apply Hbefore; lia).
    rewrite (cmp_debug_dtuple_rec_fields_step E dtuple rec k cur_field 0)
      by (apply Hbefore; lia).
    cbn [Z.eqb negb]. apply IH; [lia|].
    intros i Hi. apply Hbefore. lia.
Qed.

(** X13. When the fields before [j] compare equal and field [j] of the
    record is stored externally, [cmp_dtuple_rec_with_match_low] stops on
    the unconditional [ut_error], in a debug build as in any other, while
    the debug reimplementation returns order 0 with matched-count [j]. *)
Theorem cmp_dtuple_rec_extern_field (E : collaborators) (dtuple : dtuple_t)
    (rec : rec_t) (n_cmp matched_fields j : Z) (f : dfield_t)
    (rf : rec_field_t) :
  (UNIV_DEBUG E = true ->
   dtuple_rec_preconditions E dtuple rec n_cmp matched_fields = true) ->
  (matched_fields = 0 ->
   has_min_rec_flag (rec_info_bits rec) = false
   /\ has_min_rec_flag (dtuple_info_bits dtuple) = false) ->
  matched_fields <= j < n_cmp ->
  (forall i : Z, matched_fields <= i < j ->
                 tuple_field_compares E dtuple rec i 0) ->
  nth_error (dtuple_fields dtuple) (Z.to_nat j) = Some f ->
  nth_error (rec_fields rec) (Z.to_nat j) = Some rf ->
  rec_field_extern rf = true ->
  cmp_dtuple_rec_with_match_low E dtuple rec n_cmp matched_fields
  = fail AssertionFailure
  /\ cmp_debug_dtuple_rec_with_match E dtuple rec n_cmp matched_fields
     = ret (0, j).
Proof.
  intros Hpre Hflags Hj Hbefore Hf Hrf Hext.
  destruct (cmp_dtuple_rec_fields_extern E dtuple rec f rf j
              (Z.to_nat (n_cmp - matched_fields)) Hf Hrf Hext matched_fields
              ltac:(lia) Hbefore) as [Hmain Hdebug].
  split.
  - rewrite (cmp_dtuple_rec_with_match_low_fields E dtuple rec _ _ Hpre Hflags).
    exact Hmain.
  - unfold cmp_debug_dtuple_rec_with_match.
    assert (Hassert : forall c : bool,
               (UNIV_DEBUG E = true -> c = true) -> ut_ad E c = ret tt).
    { intros c Hc. destruct (UNIV_DEBUG E) eqn:Hd.
      - rewrite Hc by reflexivity. apply ut_ad_true.
      - apply ut_ad_release. exact Hd. }
    assert (Hall : UNIV_DEBUG E = true ->
                   dtuple_check_typed E dtuple = true
                   /\ rec_offs_validate E rec None = true
                   /\ (0 <? n_cmp) = true
                   /\ (n_cmp <=? dtuple_get_n_fields dtuple) = true
                   /\ (matched_fields <=? n_cmp) = true
                   /\ (matched_fields <=? rec_offs_n_fields rec) = true).
    { intro Hd. specialize (Hpre Hd). unfold dtuple_rec_preconditions in Hpre.
      repeat (apply andb_prop in Hpre; destruct Hpre as [Hpre ?]).
      repeat split; assumption. }
    rewrite ut_ad_true, bind_ret.
    rewrite !Hassert by (intro Hd; apply (Hall Hd)).
    rewrite !bind_ret, Hdebug.
    assert (Hsel : (if matched_fields =? 0 then
                      if has_min_rec_flag (rec_get_info_bits rec (rec_offs_comp rec))
                      then ret ((if has_min_rec_flag (dtuple_get_info_bits dtuple)
                                 then 0 else 1), matched_fields)
                      else if has_min_rec_flag (dtuple_get_info_bits dtuple)
                           then ret (-1, matched_fields)
                           else ret (0, j)
                    else ret (0, j)) = ret (0, j)).
    { unfold rec_get_info_bits, dtuple_get_info_bits.
      destruct (matched_fields =? 0) eqn:H0; [|reflexivity].
      apply Z.eqb_eq in H0. destruct (Hflags H0) as [-> ->]. reflexivity. }
    rewrite Hsel, bind_ret. cbn [Z.leb Z.compare andb].
    rewrite ut_ad_true, bind_ret. reflexivity.
Qed.

Lemma cmp_dtuple_rec_extern_field_witness :
  cmp_dtuple_rec_with_match_low (Sample.env true)
    (Sample.tuple 0 [Sample.text "a"; Sample.text "b"])
    {| rec_info_bits := 0; rec_comp := true;
       rec_fields := [mk_rec_field (Sample.text "a") 1 false;
                      mk_rec_field (Sample.text "b") 1 true] |} 2 0
  = fail AssertionFailure
  /\ cmp_debug_dtuple_rec_with_match (Sample.env true)
       (Sample.tuple 0 [Sample.text "a"; Sample.text "b"])
       {| rec_info_bits := 0; rec_comp := true;
          rec_fields := [mk_rec_field (Sample.text "a") 1 false;
                         mk_rec_field (Sample.text "b") 1 true] |} 2 0
     = ret (0, 1).
Proof.
  refine (cmp_dtuple_rec_extern_field (Sample.env true)
            (Sample.tuple 0 [Sample.text "a"; Sample.text "b"])
            {| rec_info_bits := 0; rec_comp := true;
               rec_fields := [mk_rec_field (Sample.text "a") 1 false;
                              mk_rec_field (Sample.text "b") 1 true] |}
            2 0 1 _ _ (fun _ => eq_refl) (fun _ => conj eq_refl eq_refl)
            _ _ eq_refl eq_refl eq_refl).
  - lia.
  - intros i Hi. assert (i = 0) as -> by lia.
    do 2 eexists; repeat split; reflexivity.
Defined.

(** ** The matched-count *)

(** X14. Fields already known to compare equal can be skipped: when neither
    operand carries the minimum-record marker and the first [matched_fields]
    fields compare equal, the comparison started at [matched_fields] returns
    the order and the matched-count of the comparison started at 0. *)
Theorem cmp_dtuple_rec_skip_matched (E : collaborators) (dtuple : dtuple_t)
    (rec : rec_t) (n_cmp matched_fields : Z) :
  (UNIV_DEBUG E = true ->
   dtuple_rec_preconditions E dtuple rec n_cmp matched_fields = true) ->
  0 <= matched_fields <= n_cmp ->
  has_min_rec_flag (rec_info_bits rec) = false ->
  has_min_rec_flag (dtuple_info_bits dtuple) = false ->
  (forall i : Z, 0 <= i < matched_fields ->
                 tuple_field_compares E dtuple rec i 0) ->
  cmp_dtuple_rec_with_match_low E dtuple rec n_cmp matched_fields
  = cmp_dtuple_rec_with_match_low E dtuple rec n_cmp 0.
Proof.
  intros Hpre Hm Hfr Hft Hequal.
  assert (Hpre0 : UNIV_DEBUG E = true ->
                  dtuple_rec_preconditions E dtuple rec n_cmp 0 = true).
  { intro Hd. specialize (Hpre Hd). unfold dtuple_rec_preconditions in *.
    repeat (apply andb_prop in Hpre; destruct Hpre as [Hpre ?]).
    repeat (apply andb_true_intro; split); try assumption;
      apply Z.leb_le; unfold rec_offs_n_fields; lia. }
  rewrite (cmp_dtuple_rec_with_match_low_fields E dtuple rec _ _ Hpre)
    by (intros _; split; assumption).
  rewrite (cmp_dtuple_rec_with_match_low_fields E dtuple rec _ _ Hpre0)
    by (intros _; split; assumption).
  replace (Z.to_nat (n_cmp - 0))
    with (Z.to_nat matched_fields + Z.to_nat (n_cmp - matched_fields))%nat
    by lia.
  rewrite cmp_dtuple_rec_fields_split.
  rewrite (cmp_dtuple_rec_fields_all_equal E dtuple rec
             (Z.to_nat matched_fields) 0)
    by (intros i Hi; apply Hequal; lia).
  rewrite bind_ret. cbn [Z.eqb negb].
  f_equal. lia.
Qed.

Lemma cmp_dtuple_rec_skip_matched_witness :
  cmp_dtuple_rec_with_match_low (Sample.env true)
    Sample.tuple_abcef Sample.record_abcdfg 5 2
  = cmp_dtuple_rec_with_match_low (Sample.env true)
      Sample.tuple_abcef Sample.record_abcdfg 5 0.
Proof.
  apply (cmp_dtuple_rec_skip_matched (Sample.env true)
           Sample.tuple_abcef Sample.record_abcdfg 5 2).
  - reflexivity.
  - lia.
  - reflexivity.
  - reflexivity.
  - intros i Hi. apply (tuple_abcef_compares true). lia.
Defined.

(** X15. What [cmp_dtuple_rec_with_match_low] returns: the order is -1, 0
    or 1; the matched-count does not go below the one passed in, nor above
    [n_cmp] or the record's field count; a nonzero order comes with a
    matched-count below [n_cmp]; and the order 0 comes with the
    matched-count [n_cmp], unless the comparison was started at 0 and both
    operands carry the minimum-record marker. *)
Theorem cmp_dtuple_rec_matched_bounds (E : collaborators) (dtuple : dtuple_t)
    (rec : rec_t) (n_cmp matched_fields ret_ m : Z) :
  0 <= matched_fields <= n_cmp ->
  0 < n_cmp ->
  matched_fields <= rec_offs_n_fields rec ->
  result (cmp_dtuple_rec_with_match_low E dtuple rec n_cmp matched_fields)
  = Ret (ret_, m) ->
  -1 <= ret_ <= 1
  /\ matched_fields <= m <= n_cmp
  /\ m <= rec_offs_n_fields rec
  /\ (ret_ <> 0 -> m < n_cmp)
  /\ (ret_ = 0 ->
      m = n_cmp
      \/ (matched_fields = 0
          /\ has_min_rec_flag (rec_info_bits rec) = true
          /\ has_min_rec_flag (dtuple_info_bits dtuple) = true)).
Proof.
  intros Hm Hn Hr H.
  rewrite cmp_dtuple_rec_with_match_low_eq in H.
  destruct (UNIV_DEBUG E && negb _); [simpl in H; discriminate|].
  unfold tuple_vs_record in H.
  destruct (matched_fields =? 0) eqn:H0; cbn [andb] in H.
  - apply Z.eqb_eq in H0. subst matched_fields.
    destruct (has_min_rec_flag (rec_info_bits rec)) eqn:Hfr.
    { simpl in H. ret_inv. subst.
      destruct (has_min_rec_flag (dtuple_info_bits dtuple)) eqn:Hft;
        repeat split; try lia.
      all: intros _; right; auto. }
    destruct (has_min_rec_flag (dtuple_info_bits dtuple)) eqn:Hft.
    { simpl in H. ret_inv. subst. repeat split; lia. }
    pose proof (cmp_dtuple_rec_fields_stop E dtuple rec _ 0 ret_ m
                  ltac:(lia) H) as (Hrange & Hbound & Hzero & Hnz).
    destruct (Z.eq_dec ret_ 0) as [Hz | Hz];
      [specialize (Hzero Hz) | specialize (Hnz Hz)];
      repeat split; try lia; intros; left; lia.
  - pose proof (cmp_dtuple_rec_fields_stop E dtuple rec _ matched_fields ret_ m
                  ltac:(lia) H) as (Hrange & Hbound & Hzero & Hnz).
    destruct (Z.eq_dec ret_ 0) as [Hz | Hz];
      [specialize (Hzero Hz) | specialize (Hnz Hz)];
      repeat split; try lia; intros; left; lia.
Qed.

Lemma cmp_dtuple_rec_matched_bounds_witness :
  -1 <= 1 <= 1
  /\ 0 <= 3 <= 5
  /\ 3 <= rec_offs_n_fields Sample.record_abcdfg
  /\ (1 <> 0 -> 3 < 5)
  /\ (1 = 0 ->
      3 = 5
      \/ (0 = 0
          /\ has_min_rec_flag (rec_info_bits Sample.record_abcdfg) = true
          /\ has_min_rec_flag (dtuple_info_bits Sample.tuple_abcef) = true)).
Proof.
  apply (cmp_dtuple_rec_matched_bounds (Sample.env true)
           Sample.tuple_abcef Sample.record_abcdfg 5 0 1 3).
  - lia.
  - lia.
  - vm_compute. discriminate.
  - reflexivity.
Defined.

(** ** Record against record: the first difference decides *)

(** What a field comparison that returns has read. *)
Lemma cmp_rec_rec_simple_field_inv (E : collaborators) (rec1 rec2 : rec_t)
    (index : dict_index_t) (n v : Z) :
  cmp_rec_rec_simple_field E rec1 rec2 index n = ret v ->
  exists (col : dict_col_t) (f1 f2 : rec_field_t),
    nth_error (index_cols index) (Z.to_nat n) = Some col
    /\ nth_error (rec_fields rec1) (Z.to_nat n) = Some f1
    /\ nth_error (rec_fields rec2) (Z.to_nat n) = Some f2
    /\ ut_ad_read E (x <~ rec_offs_nth_extern rec1 n ;; Ret (negb x)) = ret tt
    /\ ut_ad_read E (x <~ rec_offs_nth_extern rec2 n ;; Ret (negb x)) = ret tt
    /\ cmp_data E (col_mtype col) (col_prtype col)
         (rec_field_data f1) (rec_field_len f1)
         (rec_field_data f2) (rec_field_len f2) = ret v.
Proof.
  unfold cmp_rec_rec_simple_field, dict_index_get_nth_col, rec_get_nth_field,
    rec_nth.
  intro H.
  apply bind_ret_inv in H. destruct H as (col & Hcol & H).
  apply bind_ret_inv in H. destruct H as ([] & Hu1 & H).
  apply bind_ret_inv in H. destruct H as ([] & Hu2 & H).
  apply bind_ret_inv in H. destruct H as ([p1 l1] & Hf1 & H).
  apply bind_ret_inv in H. destruct H as ([p2 l2] & Hf2 & H).
  destruct (nth_error (index_cols index) (Z.to_nat n)) as [col'|];
    [|discriminate].
  destruct (nth_error (rec_fields rec1) (Z.to_nat n)) as [f1|] eqn:E1;
    [|discriminate].
  destruct (nth_error (rec_fields rec2) (Z.to_nat n)) as [f2|] eqn:E2;
    [|discriminate].
  simpl in Hcol, Hf1, Hf2. unfold lift, ret in Hcol, Hf1, Hf2.
  injection Hcol as <-. injection Hf1 as <- <-. injection Hf2 as <- <-.
  exists col', f1, f2. repeat split; assumption.
Qed.

(** One turn of the loop of lines 749-794 on an index with column types. *)
Lemma cmp_rec_rec_fields_step (E : collaborators) (rec1 rec2 : rec_t)
    (index : dict_index_t) (nulls_unequal : bool) (k : nat)
    (cur_field ret_ v : Z) :
  dict_index_is_univ index = false ->
  cmp_rec_rec_simple_field E rec1 rec2 index cur_field = ret v ->
  cmp_rec_rec_fields E rec1 rec2 index nulls_unequal (S k) cur_field ret_
  = if nulls_unequal && field_is_null rec1 (Z.to_nat cur_field)
       && field_is_null rec2 (Z.to_nat cur_field)
    then ret (-1, cur_field)
    else if negb (v =? 0) then ret (v, cur_field)
    else cmp_rec_rec_fields E rec1 rec2 index nulls_unequal k
           (cur_field + 1) v.
Proof.
  intros Huniv H.
  apply cmp_rec_rec_simple_field_inv in H.
  destruct H as (col & f1 & f2 & Hcol & Hf1 & Hf2 & Hu1 & Hu2 & Hcmp).
  cbn [cmp_rec_rec_fields]. rewrite Huniv.
  unfold dict_index_get_nth_col, rec_get_nth_field, rec_nth, field_is_null.
  rewrite Hcol, Hf1, Hf2. cbn [of_option obind].
  rewrite !bind_lift_Ret, !bind_ret, Hu1, Hu2, !bind_ret, !bind_lift_Ret.
  destruct (nulls_unequal && _ && _); [reflexivity|].
  rewrite Hcmp, bind_ret. reflexivity.
Qed.

(** Fields that compare equal, and are not two NULLs when NULLs are to be
    held unequal, are passed over. *)
Lemma cmp_rec_rec_fields_skip (E : collaborators) (rec1 rec2 : rec_t)
    (index : dict_index_t) (nulls_unequal : bool) (k1 k2 : nat) :
  dict_index_is_univ index = false ->
  forall cur_field : Z,
    (forall i : Z, cur_field <= i < cur_field + Z.of_nat k1 ->
       cmp_rec_rec_simple_field E rec1 rec2 index i = ret 0
       /\ nulls_unequal && field_is_null rec1 (Z.to_nat i)
          && field_is_null rec2 (Z.to_nat i) = false) ->
    cmp_rec_rec_fields E rec1 rec2 index nulls_unequal (k1 + k2) cur_field 0
    = cmp_rec_rec_fields E rec1 rec2 index nulls_unequal k2
        (cur_field + Z.of_nat k1) 0.
Proof.
  intro Huniv.
  induction k1 as [|k1 IH]; intros cur_field Hall.
  - cbn [Nat.add Z.of_nat]. rewrite Z.add_0_r. reflexivity.
  - destruct (Hall cur_field ltac:(lia)) as [H0 Hnull].
    cbn [Nat.add].
    rewrite (cmp_rec_rec_fields_step E rec1 rec2 index nulls_unequal
               (k1 + k2) cur_field 0 0 Huniv H0).
    rewrite Hnull. cbn [Z.eqb negb].
    rewrite IH by (intros i Hi; apply Hall; lia).
    f_equal. lia.
Qed.

(** Without a minimum-record marker the comparison is the loop over the
    common fields, and the indeterminate content of [cur_field] is
    overwritten. *)
Lemma cmp_rec_rec_with_match_fields (E : collaborators) (rec1 rec2 : rec_t)
    (index : dict_index_t) (nulls_unequal : bool)
    (cur_field_indeterminate ret_ m : Z) :
  (UNIV_DEBUG E = true -> rec_rec_preconditions E rec1 rec2 index = true) ->
  has_min_rec_flag (rec_info_bits rec1) = false ->
  has_min_rec_flag (rec_info_bits rec2) = false ->
  -1 <= ret_ <= 1 ->
  cmp_rec_rec_fields E rec1 rec2 index nulls_unequal
    (Z.to_nat (Z.min (rec_offs_n_fields rec1) (rec_offs_n_fields rec2))) 0 0
  = ret (ret_, m) ->
  cmp_rec_rec_with_match E rec1 rec2 index nulls_unequal
    cur_field_indeterminate
  = ret (ret_, m).
Proof.
  intros Hpre Hf1 Hf2 Hrange Hloop.
  assert (Hasserts :
            ut_ad E (rec_offs_validate E rec1 (Some index)) = ret tt
            /\ ut_ad E (rec_offs_validate E rec2 (Some index)) = ret tt
            /\ ut_ad E (Bool.eqb (rec_offs_comp rec1) (rec_offs_comp rec2))
               = ret tt).
  { destruct (UNIV_DEBUG E) eqn:Hd.
    - specialize (Hpre eq_refl). unfold rec_rec_preconditions in Hpre.
      repeat (apply andb_prop in Hpre; destruct Hpre as [Hpre ?]).
      unfold rec_offs_comp.
      repeat match goal with H : _ = true |- _ => rewrite H; clear H end.
      rewrite ut_ad_true. auto.
    - rewrite !(ut_ad_release E) by exact Hd. auto. }
  destruct Hasserts as (H1 & H2 & H3).
  unfold cmp_rec_rec_with_match, rec_get_info_bits.
  rewrite H1, H2, H3, ut_ad_true, !bind_ret, Hf1, Hf2, Hloop, bind_ret.
  replace ((-1 <=? ret_) && (ret_ <=? 1)) with true
    by (symmetry; apply andb_true_intro; split; apply Z.leb_le; lia).
  rewrite ut_ad_true, bind_ret. reflexivity.
Qed.

Lemma cmp_rec_rec_simple_field_range (E : collaborators) (rec1 rec2 : rec_t)
    (index : dict_index_t) (n v : Z) :
  cmp_rec_rec_simple_field E rec1 rec2 index n = ret v -> -1 <= v <= 1.
Proof.
  intro H. apply cmp_rec_rec_simple_field_inv in H.
  destruct H as (col & f1 & f2 & _ & _ & _ & _ & _ & Hcmp).
  eapply cmp_data_range. rewrite Hcmp. reflexivity.
Qed.

(** Two fields that do not compare equal are not two NULLs. *)
Lemma cmp_rec_rec_simple_field_differ_nulls (E : collaborators)
    (rec1 rec2 : rec_t) (index : dict_index_t) (n v : Z) :
  cmp_rec_rec_simple_field E rec1 rec2 index n = ret v ->
  v <> 0 ->
  field_is_null rec1 (Z.to_nat n) && field_is_null rec2 (Z.to_nat n) = false.
Proof.
  intros H Hv. apply cmp_rec_rec_simple_field_inv in H.
  destruct H as (col & f1 & f2 & _ & Hf1 & Hf2 & _ & _ & Hcmp).
  unfold field_is_null. rewrite Hf1, Hf2.
  destruct (rec_field_len f1 =? UNIV_SQL_NULL) eqn:Hn1; [|reflexivity].
  destruct (rec_field_len f2 =? UNIV_SQL_NULL) eqn:Hn2; [|reflexivity].
  exfalso. apply Hv.
  unfold cmp_data in Hcmp. rewrite Hn1 in Hcmp. cbn [orb] in Hcmp.
  apply Z.eqb_eq in Hn1. apply Z.eqb_eq in Hn2.
  replace (rec_field_len f1 =? rec_field_len f2) with true in Hcmp
    by (symmetry; apply Z.eqb_eq; congruence).
  unfold ret in Hcmp. congruence.
Qed.

(** X16. Record against record on an index with column types, neither
    record carrying the minimum-record marker: the first of the common
    fields that does not compare equal gives the order and its index is the
    matched-count; when all common fields compare equal the order is 0 and
    the matched-count is the smaller of the two field counts.  The content
    [cur_field] had before the loop has no influence.  With [nulls_unequal]
    the fields passed over are required not to be NULL. *)
Theorem cmp_rec_rec_first_difference (E : collaborators) (rec1 rec2 : rec_t)
    (index : dict_index_t) (nulls_unequal : bool) :
  (UNIV_DEBUG E = true -> rec_rec_preconditions E rec1 rec2 index = true) ->
  has_min_rec_flag (rec_info_bits rec1) = false ->
  has_min_rec_flag (rec_info_bits rec2) = false ->
  dict_index_is_univ index = false ->
  (forall j v : Z,
      0 <= j < Z.min (rec_offs_n_fields rec1) (rec_offs_n_fields rec2) ->
      (forall i : Z, 0 <= i < j ->
         cmp_rec_rec_simple_field E rec1 rec2 index i = ret 0
         /\ (nulls_unequal = true ->
             field_is_null rec1 (Z.to_nat i) = false)) ->
      cmp_rec_rec_simple_field E rec1 rec2 index j = ret v ->
      v <> 0 ->
      forall cur_field_indeterminate : Z,
        cmp_rec_rec_with_match E rec1 rec2 index nulls_unequal
          cur_field_indeterminate
        = ret (v, j))
  /\ ((forall i : Z,
         0 <= i < Z.min (rec_offs_n_fields rec1) (rec_offs_n_fields rec2) ->
         cmp_rec_rec_simple_field E rec1 rec2 index i = ret 0
         /\ (nulls_unequal = true ->
             field_is_null rec1 (Z.to_nat i) = false)) ->
      forall cur_field_indeterminate : Z,
        cmp_rec_rec_with_match E rec1 rec2 index nulls_unequal
          cur_field_indeterminate
        = ret (0, Z.min (rec_offs_n_fields rec1) (rec_offs_n_fields rec2))).
Proof.
  intros Hpre Hf1 Hf2 Huniv.
  assert (Hnot_null : forall i : Z,
            (nulls_unequal = true -> field_is_null rec1 (Z.to_nat i) = false) ->
            nulls_unequal && field_is_null rec1 (Z.to_nat i)
            && field_is_null rec2 (Z.to_nat i) = false).
  { intros i H. destruct nulls_unequal; [|reflexivity].
    rewrite H by reflexivity. reflexivity. }
  split.
  - intros j v Hj Hbefore Hat Hv junk.
    apply cmp_rec_rec_with_match_fields; try assumption.
    { eapply cmp_rec_rec_simple_field_range. exact Hat. }
    replace (Z.to_nat (Z.min (rec_offs_n_fields rec1) (rec_offs_n_fields rec2)))
      with (Z.to_nat j
            + S (Z.to_nat (Z.min (rec_offs_n_fields rec1)
                                 (rec_offs_n_fields rec2) - j - 1)))%nat
      by lia.
    rewrite cmp_rec_rec_fields_skip; [|exact Huniv|].
    + replace (0 + Z.of_nat (Z.to_nat j)) with j by lia.
      rewrite (cmp_rec_rec_fields_step E rec1 rec2 index nulls_unequal _
                 j 0 v Huniv Hat).
      rewrite <- andb_assoc.
      rewrite (cmp_rec_rec_simple_field_differ_nulls E rec1 rec2 index j v
                 Hat Hv).
      rewrite andb_false_r.
      replace (v =? 0) with false by (symmetry; apply Z.eqb_neq; exact Hv).
      reflexivity.
    + intros i Hi. destruct (Hbefore i ltac:(lia)) as [H0 Hn].
      split; [exact H0 | apply Hnot_null; exact Hn].
  - intros Hall junk.
    apply cmp_rec_rec_with_match_fields; try assumption; [lia|].
    replace (Z.to_nat (Z.min (rec_offs_n_fields rec1) (rec_offs_n_fields rec2)))
      with (Z.to_nat (Z.min (rec_offs_n_fields rec1)
                            (rec_offs_n_fields rec2)) + 0)%nat
      by lia.
    rewrite cmp_rec_rec_fields_skip; [|exact Huniv|].
    + cbn [cmp_rec_rec_fields Z.eqb]. rewrite ut_ad_true, bind_ret.
      f_equal. f_equal. unfold rec_offs_n_fields. lia.
    + intros i Hi. destruct (Hall i ltac:(lia)) as [H0 Hn].
      split; [exact H0 | apply Hnot_null; exact Hn].
Qed.

Lemma cmp_rec_rec_first_difference_witness :
  cmp_rec_rec_with_match (Sample.env true)
    (Sample.record 0 [Sample.text "a"; Sample.text "x"])
    (Sample.record 0 [Sample.text "a"; Sample.text "y"])
    (Sample.index_on_two 0) true 7
  = ret (-1, 1).
Proof.
  refine (proj1 (cmp_rec_rec_first_difference (Sample.env true)
                   (Sample.record 0 [Sample.text "a"; Sample.text "x"])
                   (Sample.record 0 [Sample.text "a"; Sample.text "y"])
                   (Sample.index_on_two 0) true
                   (fun _ => eq_refl) eq_refl eq_refl eq_refl)
            1 (-1) _ _ _ _ 7).
  - vm_compute. split; [discriminate | reflexivity].
  - intros i Hi. assert (i = 0) as -> by lia. split; reflexivity.
  - reflexivity.
  - lia.
Defined.

(** X17. With [nulls_unequal], two NULLs in the same field are not equal:
    when the fields before [j] compare equal and are not NULL, and field [j]
    is NULL in both records, the first record is reported as less than the
    second, in whichever order the two records are passed; so a record with
    a NULL is less than itself. *)
Theorem cmp_rec_rec_nulls_unequal (E : collaborators) (rec1 rec2 : rec_t)
    (index : dict_index_t) (j : Z) :
  (UNIV_DEBUG E = true ->
   rec_rec_preconditions E rec1 rec2 index = true
   /\ rec_rec_preconditions E rec2 rec1 index = true) ->
  has_min_rec_flag (rec_info_bits rec1) = false ->
  has_min_rec_flag (rec_info_bits rec2) = false ->
  dict_index_is_univ index = false ->
  0 <= j < Z.min (rec_offs_n_fields rec1) (rec_offs_n_fields rec2) ->
  (forall i : Z, 0 <= i < j ->
     cmp_rec_rec_simple_field E rec1 rec2 index i = ret 0
     /\ cmp_rec_rec_simple_field E rec2 rec1 index i = ret 0
     /\ field_is_null rec1 (Z.to_nat i) = false) ->
  cmp_rec_rec_simple_field E rec1 rec2 index j = ret 0 ->
  cmp_rec_rec_simple_field E rec2 rec1 index j = ret 0 ->
  field_is_null rec1 (Z.to_nat j) = true ->
  forall cur_field_indeterminate : Z,
    cmp_rec_rec_with_match E rec1 rec2 index true cur_field_indeterminate
    = ret (-1, j)
    /\ cmp_rec_rec_with_match E rec2 rec1 index true cur_field_indeterminate
       = ret (-1, j).
Proof.
  intros Hpre Hf1 Hf2 Huniv Hj Hbefore H12 H21 Hnull junk.
  assert (Hnull2 : field_is_null rec2 (Z.to_nat j) = true).
  { pose proof H12 as H. apply cmp_rec_rec_simple_field_zero in H.
    destruct H as (col & f1 & f2 & _ & E1 & E2 & Hn).
    unfold field_is_null in *. rewrite E1 in Hnull. rewrite E2, <- Hn.
    exact Hnull. }
  assert (Hone : forall r1 r2 : rec_t,
            Z.min (rec_offs_n_fields r1) (rec_offs_n_fields r2)
            = Z.min (rec_offs_n_fields rec1) (rec_offs_n_fields rec2) ->
            (forall i : Z, 0 <= i < j ->
               cmp_rec_rec_simple_field E r1 r2 index i = ret 0
               /\ field_is_null r1 (Z.to_nat i) = false) ->
            cmp_rec_rec_simple_field E r1 r2 index j = ret 0 ->
            field_is_null r1 (Z.to_nat j) = true ->
            field_is_null r2 (Z.to_nat j) = true ->
            cmp_rec_rec_fields E r1 r2 index true
              (Z.to_nat (Z.min (rec_offs_n_fields r1) (rec_offs_n_fields r2)))
              0 0
            = ret (-1, j)).
  { intros r1 r2 Hmin Hb Hat Hn1 Hn2. rewrite Hmin.
    replace (Z.to_nat (Z.min (rec_offs_n_fields rec1) (rec_offs_n_fields rec2)))
      with (Z.to_nat j
            + S (Z.to_nat (Z.min (rec_offs_n_fields rec1)
                                 (rec_offs_n_fields rec2) - j - 1)))%nat
      by lia.
    rewrite cmp_rec_rec_fields_skip; [|exact Huniv|].
    - replace (0 + Z.of_nat (Z.to_nat j)) with j by lia.
      rewrite (cmp_rec_rec_fields_step E r1 r2 index true _ j 0 0 Huniv Hat).
      rewrite Hn1, Hn2. reflexivity.
    - intros i Hi. destruct (Hb i ltac:(lia)) as [H0 Hn].
      split; [exact H0 | rewrite Hn; reflexivity]. }
  split.
  - apply cmp_rec_rec_with_match_fields; try assumption; [| lia |].
    + intro Hd. apply (Hpre Hd).
    + apply Hone; try assumption; [reflexivity|].
      intros i Hi. destruct (Hbefore i Hi) as (H & _ & Hn). auto.
  - apply cmp_rec_rec_with_match_fields; try assumption; [| lia |].
    + intro Hd. apply (Hpre Hd).
    + apply Hone; try assumption; [apply Z.min_comm|].
      intros i Hi. destruct (Hbefore i Hi) as (Ha & Hb & Hn).
      split; [exact Hb|].
      apply cmp_rec_rec_simple_field_zero in Ha.
      destruct Ha as (col & f1 & f2 & _ & E1 & E2 & Hnn).
      unfold field_is_null in *. rewrite E1 in Hn. rewrite E2, <- Hnn.
      exact Hn.
Qed.

Lemma cmp_rec_rec_nulls_unequal_witness :
  cmp_rec_rec_with_match (Sample.env true)
    (Sample.record_with_nulls 0 [Some (Sample.text "a"); None])
    (Sample.record_with_nulls 0 [Some (Sample.text "a"); None])
    (Sample.index_on_two 0) true 7
  = ret (-1, 1).
Proof.
  refine (proj1 (cmp_rec_rec_nulls_unequal (Sample.env true)
                   (Sample.record_with_nulls 0 [Some (Sample.text "a"); None])
                   (Sample.record_with_nulls 0 [Some (Sample.text "a"); None])
                   (Sample.index_on_two 0) 1
                   (fun _ => conj eq_refl eq_refl) eq_refl eq_refl eq_refl
                   _ _ eq_refl eq_refl eq_refl 7)).
  - vm_compute. split; [discriminate | reflexivity].
  - intros i Hi. assert (i = 0) as -> by lia. repeat split; reflexivity.
Defined.

(** ** The unique-key comparison: what is reported, and when *)

(** The loop over the uniqueness prefix when column [j] is the first that
    differs. *)
Lemma cmp_rec_rec_simple_uniq_differ (E : collaborators) (rec1 rec2 : rec_t)
    (index : dict_index_t) (k : nat) :
  forall (n j v : Z) (null_eq : bool),
    0 <= n ->
    n <= j < n + Z.of_nat k ->
    (forall i : Z, n <= i < j ->
                   cmp_rec_rec_simple_field E rec1 rec2 index i = ret 0) ->
    cmp_rec_rec_simple_field E rec1 rec2 index j = ret v ->
    v <> 0 ->
    (UNIV_DEBUG E = true ->
     forallb (fun i => negb (field_is_null rec1 i) || col_is_nullable index i)
             (seq (Z.to_nat n) k) = true) ->
    cmp_rec_rec_simple_uniq E rec1 rec2 index k n null_eq = ret (inl v).
Proof.
  induction k as [|k IH]; intros n j v null_eq Hn Hj Heq Hv Hne Hnull; [lia|].
  cbn [cmp_rec_rec_simple_uniq].
  destruct (Z.eq_dec n j) as [-> | Hnj].
  - rewrite Hv, bind_ret.
    replace (v =? 0) with false by (symmetry; apply Z.eqb_neq; exact Hne).
    reflexivity.
  - pose proof (Heq n ltac:(lia)) as H0. rewrite H0, bind_ret.
    cbn [Z.eqb negb].
    rewrite (ut_ad_read_nulls_agree E rec1 rec2 index n H0), bind_ret.
    apply cmp_rec_rec_simple_field_zero in H0.
    destruct H0 as (col & f1 & f2 & Hcol & Hf1 & Hf2 & Hnulls).
    rewrite (field_is_null_eq rec1 n f1 Hf1), bind_lift_Ret.
    assert (Hnull' : UNIV_DEBUG E = true ->
              (negb (field_is_null rec1 (Z.to_nat n))
               || col_is_nullable index (Z.to_nat n)) = true
              /\ forallb (fun i => negb (field_is_null rec1 i)
                                   || col_is_nullable index i)
                         (seq (Z.to_nat (n + 1)) k) = true).
    { intro Hd. specialize (Hnull Hd). cbn [seq forallb] in Hnull.
      apply andb_prop in Hnull.
      replace (Z.to_nat (n + 1)) with (S (Z.to_nat n)) by lia. exact Hnull. }
    assert (Hnext : forall ne : bool,
               cmp_rec_rec_simple_uniq E rec1 rec2 index k (n + 1) ne
               = ret (inl v)).
    { intro ne. apply (IH (n + 1) j v ne); try assumption; try lia.
      - intros i Hi. apply Heq. lia.
      - intro Hd. apply (Hnull' Hd). }
    destruct (field_is_null rec1 (Z.to_nat n)) eqn:Hisnull; [|apply Hnext].
    assert (Hut : ut_ad_read E
                    (col <~ dict_index_get_nth_col index n ;;
                     Ret (Z.land (col_prtype col) DATA_NOT_NULL =? 0))
                  = ret tt).
    { unfold ut_ad_read. destruct (UNIV_DEBUG E) eqn:Hd; [|reflexivity].
      destruct (Hnull' eq_refl) as [Hc _].
      unfold col_is_nullable in Hc. rewrite Hcol in Hc. simpl in Hc.
      unfold dict_index_get_nth_col. rewrite Hcol. cbn [of_option obind].
      rewrite Hc. reflexivity. }
    rewrite Hut, bind_ret. apply Hnext.
Qed.

(** X18. In [cmp_rec_rec_simple] a difference within the uniqueness prefix
    is returned at once: the first column of the prefix that does not compare
    equal gives the result, and nothing is reported through the sink, also
    on a unique index with a sink supplied. *)
Theorem cmp_rec_rec_simple_prefix_difference (E : collaborators)
    (rec1 rec2 : rec_t) (index : dict_index_t) (table : option TABLE)
    (j v : Z) :
  (UNIV_DEBUG E = true ->
   rec_rec_simple_preconditions rec1 rec2 index = true) ->
  0 <= j < index_n_uniq index ->
  (forall i : Z, 0 <= i < j ->
                 cmp_rec_rec_simple_field E rec1 rec2 index i = ret 0) ->
  cmp_rec_rec_simple_field E rec1 rec2 index j = ret v ->
  v <> 0 ->
  cmp_rec_rec_simple E rec1 rec2 index table = ret v.
Proof.
  intros Hpre Hj Heq Hv Hne.
  unfold cmp_rec_rec_simple, dict_index_get_n_unique, rec_offs_comp.
  assert (Hasserts :
            ut_ad E (index_n_uniq index <=? rec_offs_n_fields rec1) = ret tt
            /\ ut_ad E (Bool.eqb (rec_comp rec1) (rec_comp rec2)) = ret tt
            /\ (UNIV_DEBUG E = true ->
                forallb (fun i => negb (field_is_null rec1 i)
                                  || col_is_nullable index i)
                        (seq (Z.to_nat 0) (Z.to_nat (index_n_uniq index)))
                = true)).
  { destruct (UNIV_DEBUG E) eqn:Hd.
    - specialize (Hpre eq_refl). unfold rec_rec_simple_preconditions in Hpre.
      repeat (apply andb_prop in Hpre; destruct Hpre as [Hpre ?]).
      repeat match goal with H : _ = true |- _ => rewrite H end.
      rewrite ut_ad_true. auto.
    - rewrite !(ut_ad_release E) by exact Hd.
      repeat split. intro H. discriminate H. }
  destruct Hasserts as (H1 & H2 & H3).
  rewrite H1, H2, Z.eqb_refl, ut_ad_true, !bind_ret.
  rewrite (cmp_rec_rec_simple_uniq_differ E rec1 rec2 index
             (Z.to_nat (index_n_uniq index)) 0 j v false);
    try assumption; try lia.
  rewrite bind_ret. reflexivity.
Qed.

Lemma cmp_rec_rec_simple_prefix_difference_witness :
  cmp_rec_rec_simple (Sample.env true)
    (Sample.record 0 [Sample.text "a"; Sample.text "x"])
    (Sample.record 0 [Sample.text "b"; Sample.text "x"])
    (Sample.index_on_two DICT_UNIQUE) (Some (mk_TABLE 1))
  = ret (-1).
Proof.
  apply (cmp_rec_rec_simple_prefix_difference (Sample.env true)
           (Sample.record 0 [Sample.text "a"; Sample.text "x"])
           (Sample.record 0 [Sample.text "b"; Sample.text "x"])
           (Sample.index_on_two DICT_UNIQUE) (Some (mk_TABLE 1)) 0 (-1)).
  - reflexivity.
  - simpl. lia.
  - intros i Hi. lia.
  - reflexivity.
  - lia.
Defined.

Lemma events_bind_nil {A B : Type} (c : M A) (k : A -> M B) :
  events c = [] -> (forall a : A, events (k a) = []) ->
  events (bind c k) = [].
Proof.
  destruct c as [t [a|f]]; simpl; intros -> Hk; [|reflexivity].
  specialize (Hk a). destruct (k a) as [t' o]. exact Hk.
Qed.

Lemma events_ut_ad_read (E : collaborators) (c : outcome bool) :
  events (ut_ad_read E c) = [].
Proof.
  unfold ut_ad_read. destruct (UNIV_DEBUG E); [|reflexivity].
  destruct c as [[|]|f]; reflexivity.
Qed.

Lemma ut_ad_read_cases (E : collaborators) (c : outcome bool) :
  ut_ad_read E c = ret tt \/ exists f : fault, ut_ad_read E c = fail f.
Proof.
  unfold ut_ad_read. destruct (UNIV_DEBUG E); [|left; reflexivity].
  destruct c as [[|]|f]; [left; reflexivity | right | right];
    eexists; reflexivity.
Qed.

Lemma cmp_rec_rec_simple_field_events (E : collaborators) (rec1 rec2 : rec_t)
    (index : dict_index_t) (n : Z) :
  events (cmp_rec_rec_simple_field E rec1 rec2 index n) = [].
Proof.
  unfold cmp_rec_rec_simple_field.
  apply events_bind_nil; [reflexivity | intro col].
  apply events_bind_nil; [apply events_ut_ad_read | intros _].
  apply events_bind_nil; [apply events_ut_ad_read | intros _].
  apply events_bind_nil; [reflexivity | intros [p1 l1]].
  apply events_bind_nil; [reflexivity | intros [p2 l2]].
  apply normalised_cmp_data.
Qed.

Lemma cmp_rec_rec_simple_uniq_events (E : collaborators) (rec1 rec2 : rec_t)
    (index : dict_index_t) (k : nat) :
  forall (n : Z) (null_eq : bool),
    events (cmp_rec_rec_simple_uniq E rec1 rec2 index k n null_eq) = [].
Proof.
  induction k as [|k IH]; intros n null_eq; cbn [cmp_rec_rec_simple_uniq].
  - reflexivity.
  - apply events_bind_nil; [apply cmp_rec_rec_simple_field_events | intro cmp].
    destruct (negb (cmp =? 0)); [reflexivity|].
    apply events_bind_nil; [apply events_ut_ad_read | intros _].
    apply events_bind_nil; [reflexivity | intros [|]].
    + apply events_bind_nil; [apply events_ut_ad_read | intros _]. apply IH.
    + apply IH.
Qed.

Lemma cmp_rec_rec_simple_rest_events (E : collaborators) (rec1 rec2 : rec_t)
    (index : dict_index_t) (k : nat) :
  forall n : Z,
    events (cmp_rec_rec_simple_rest E rec1 rec2 index k n) = [].
Proof.
  induction k as [|k IH]; intros n; cbn [cmp_rec_rec_simple_rest].
  - reflexivity.
  - apply events_bind_nil; [apply cmp_rec_rec_simple_field_events | intro cmp].
    destruct (negb (cmp =? 0)); [reflexivity|].
    apply events_bind_nil; [apply events_ut_ad_read | intros _]. apply IH.
Qed.

(** When the loop over the uniqueness prefix is left at its end, every
    column of the prefix has compared equal and the NULLs of the first
    record have been noted. *)
Lemma cmp_rec_rec_simple_uniq_end (E : collaborators) (rec1 rec2 : rec_t)
    (index : dict_index_t) (k : nat) :
  forall (n : Z) (null_eq : bool) (n' : Z) (null_eq' : bool),
    0 <= n ->
    result (cmp_rec_rec_simple_uniq E rec1 rec2 index k n null_eq)
    = Ret (inr (n', null_eq')) ->
    n' = n + Z.of_nat k
    /\ (forall i : Z, n <= i < n + Z.of_nat k ->
                      cmp_rec_rec_simple_field E rec1 rec2 index i = ret 0)
    /\ null_eq'
       = null_eq || existsb (field_is_null rec1) (seq (Z.to_nat n) k).
Proof.
  induction k as [|k IH]; intros n null_eq n' null_eq' Hn;
    cbn [cmp_rec_rec_simple_uniq].
  - simpl. intro H. ret_inv. subst. repeat split.
    + lia.
    + intros i Hi. lia.
    + rewrite orb_false_r. reflexivity.
  - pose proof (cmp_rec_rec_simple_field_events E rec1 rec2 index n) as Hev.
    apply M_eta in Hev.
    destruct (result (cmp_rec_rec_simple_field E rec1 rec2 index n))
      as [v|f] eqn:Hres; rewrite Hev; [|discriminate].
    rewrite bind_lift_Ret.
    destruct (v =? 0) eqn:Hz; cbn [negb]; [|simpl; discriminate].
    apply Z.eqb_eq in Hz. subst v.
    assert (H0 : cmp_rec_rec_simple_field E rec1 rec2 index n = ret 0)
      by exact Hev.
    rewrite (ut_ad_read_nulls_agree E rec1 rec2 index n H0), bind_ret.
    pose proof H0 as Hz.
    apply cmp_rec_rec_simple_field_zero in Hz.
    destruct Hz as (col & f1 & f2 & Hcol & Hf1 & Hf2 & Hnulls).
    rewrite (field_is_null_eq rec1 n f1 Hf1), bind_lift_Ret.
    cbn [seq existsb].
    replace (S (Z.to_nat n)) with (Z.to_nat (n + 1)) by lia.
    assert (Hstep : forall ne : bool,
              result (cmp_rec_rec_simple_uniq E rec1 rec2 index k (n + 1) ne)
              = Ret (inr (n', null_eq')) ->
              n' = n + Z.of_nat (S k)
              /\ (forall i : Z, n <= i < n + Z.of_nat (S k) ->
                    cmp_rec_rec_simple_field E rec1 rec2 index i = ret 0)
              /\ null_eq'
                 = ne || existsb (field_is_null rec1) (seq (Z.to_nat (n + 1)) k)).
    { intros ne H. apply IH in H; [|lia].
      destruct H as (Hn' & Hall & Hne). repeat split.
      - lia.
      - intros i Hi. destruct (Z.eq_dec i n) as [-> | Hin];
          [exact H0 | apply Hall; lia].
      - exact Hne. }
    destruct (field_is_null rec1 (Z.to_nat n)) eqn:Hisnull.
    + destruct (ut_ad_read_cases E
                  (col <~ dict_index_get_nth_col index n ;;
                   Ret (Z.land (col_prtype col) DATA_NOT_NULL =? 0)))
        as [-> | [f ->]]; [|discriminate].
      rewrite bind_ret. intro H. apply Hstep in H.
      destruct H as (Hn' & Hall & Hne). repeat split; try assumption.
      rewrite Hne. cbn [orb]. rewrite orb_true_r. reflexivity.
    + intro H. apply Hstep in H.
      destruct H as (Hn' & Hall & Hne). repeat split; try assumption.
Qed.

(** X19. [cmp_rec_rec_simple] reports nothing, or exactly one row: the first
    record, through the sink that was supplied, on a unique index, when every
    column of the uniqueness prefix compares equal and none of them is NULL
    in the first record; and it then returns 0. *)
Theorem cmp_rec_rec_simple_report_sound (E : collaborators)
    (rec1 rec2 : rec_t) (index : dict_index_t) (table : option TABLE) :
  events (cmp_rec_rec_simple E rec1 rec2 index table) = []
  \/ exists t : TABLE,
       table = Some t
       /\ cmp_rec_rec_simple E rec1 rec2 index table
          = ([RecToMysql t rec1 index], Ret 0)
       /\ dict_index_is_unique index = true
       /\ uniq_has_null rec1 index = false
       /\ forall i : Z, 0 <= i < index_n_uniq index ->
            cmp_rec_rec_simple_field E rec1 rec2 index i = ret 0.
Proof.
  unfold cmp_rec_rec_simple, dict_index_get_n_unique.
  destruct (ut_ad_cases E (index_n_uniq index <=? rec_offs_n_fields rec1))
    as [-> | ->]; [rewrite bind_ret | left; reflexivity].
  destruct (ut_ad_cases E (rec_offs_n_fields rec2 =? rec_offs_n_fields rec2))
    as [-> | ->]; [rewrite bind_ret | left; reflexivity].
  destruct (ut_ad_cases E (Bool.eqb (rec_offs_comp rec1) (rec_offs_comp rec2)))
    as [-> | ->]; [rewrite bind_ret | left; reflexivity].
  pose proof (cmp_rec_rec_simple_uniq_events E rec1 rec2 index
                (Z.to_nat (index_n_uniq index)) 0 false) as Hev.
  apply M_eta in Hev.
  destruct (result (cmp_rec_rec_simple_uniq E rec1 rec2 index
                      (Z.to_nat (index_n_uniq index)) 0 false))
    as [[c | [n' null_eq']] | f] eqn:Hres; rewrite Hev;
    [left; reflexivity | | left; reflexivity].
  rewrite bind_lift_Ret.
  apply cmp_rec_rec_simple_uniq_end in Hres; [|lia].
  destruct Hres as (Hn' & Hall & Hne). cbn [orb] in Hne.
  destruct (negb null_eq' && non_null table && dict_index_is_unique index)
    eqn:Hg.
  - right.
    apply andb_prop in Hg. destruct Hg as [Hg Huniq].
    apply andb_prop in Hg. destruct Hg as [Hnull Htable].
    destruct table as [t|]; [|discriminate Htable].
    exists t. repeat split.
    + exact Huniq.
    + unfold uniq_has_null. change 0%nat with (Z.to_nat 0).
      rewrite <- Hne. destruct null_eq'; [discriminate Hnull | reflexivity].
    + intros i Hi. apply Hall. lia.
  - left.
    apply events_bind_nil; [apply cmp_rec_rec_simple_rest_events|].
    intros [c|]; [reflexivity|].
    apply events_bind_nil; [apply events_ut_ad | reflexivity].
Qed.

(** ** Fatal errors of the scalar comparison *)

(** X20. On two values that are not NULL, the scalar comparison of a type
    number it does not know logs "unknown data type number" with that number
    as a fatal error and returns nothing; and the comparison of a MySQL
    string type, or of a BLOB without the binary flag, whose
    charset-collation is not found logs "Unable to find charset-collation"
    with the collation id as a fatal error. *)
Theorem cmp_data_fatal_errors (E : collaborators) (mtype prtype : Z)
    (data1 data2 : list byte) (len1 len2 : Z) :
  len1 <> UNIV_SQL_NULL ->
  len2 <> UNIV_SQL_NULL ->
  (mtype < DATA_VARCHAR \/ DATA_GEOMETRY < mtype ->
   cmp_data E mtype prtype data1 len1 data2 len2
   = fail (LoggedFatal "unknown data type number %lu" mtype))
  /\ (mtype = DATA_VARMYSQL \/ mtype = DATA_MYSQL
      \/ (mtype = DATA_BLOB /\ Z.land prtype DATA_BINARY_TYPE = 0) ->
      (UNIV_DEBUG E = true -> mysql_string_type prtype = true) ->
      get_charset E (dtype_get_charset_coll E prtype) = None ->
      cmp_data E mtype prtype data1 len1 data2 len2
      = fail (LoggedFatal "Unable to find charset-collation %u"
                (dtype_get_charset_coll E prtype))).
Proof.
  intros H1 H2.
  apply Z.eqb_neq in H1, H2.
  assert (Hmysql : (UNIV_DEBUG E = true -> mysql_string_type prtype = true) ->
            get_charset E (dtype_get_charset_coll E prtype) = None ->
            forall (a b : list byte) (al bl : Z),
              innobase_mysql_cmp E prtype a al b bl
              = fail (LoggedFatal "Unable to find charset-collation %u"
                        (dtype_get_charset_coll E prtype))).
  { intros Hty Hcs a b al bl. unfold innobase_mysql_cmp. rewrite Hcs.
    destruct (UNIV_DEBUG E); [|reflexivity].
    specialize (Hty eq_refl). unfold mysql_string_type in Hty.
    cbv zeta in Hty |- *. rewrite Hty. reflexivity. }
  unfold cmp_data. rewrite H1, H2. cbn [orb].
  split.
  - intro Hm. unfold cmp_whole_field.
    unfold DATA_VARCHAR, DATA_GEOMETRY in Hm.
    repeat match goal with
           | |- context [mtype =? ?c] =>
               replace (mtype =? c) with false
                 by (symmetry; apply Z.eqb_neq;
                     unfold DATA_VARCHAR, DATA_CHAR, DATA_FIXBINARY,
                       DATA_BINARY, DATA_BLOB, DATA_INT, DATA_SYS_CHILD,
                       DATA_SYS, DATA_FLOAT, DATA_DOUBLE, DATA_DECIMAL,
                       DATA_VARMYSQL, DATA_MYSQL, DATA_GEOMETRY; lia)
           end.
    reflexivity.
  - intros Hm Hty Hcs. unfold cmp_whole_field.
    destruct Hm as [-> | [-> | [-> Hflag]]].
    + cbn. apply Hmysql; assumption.
    + cbn. apply Hmysql; assumption.
    + apply Z.eqb_eq in Hflag. rewrite Hflag. cbn.
      rewrite Hmysql by assumption. reflexivity.
Qed.

Lemma cmp_data_fatal_errors_witness :
  cmp_data (Sample.env true) 99 0 (Sample.text "a") 1 (Sample.text "b") 1
  = fail (LoggedFatal "unknown data type number %lu" 99)
  /\ cmp_data (Sample.env true) DATA_VARMYSQL
       (MYSQL_TYPE_VARCHAR + 33 * 65536)
       (Sample.text "a") 1 (Sample.text "b") 1
     = fail (LoggedFatal "Unable to find charset-collation %u" 33).
Proof.
  split.
  - refine (proj1 (cmp_data_fatal_errors (Sample.env true) 99 0
                     (Sample.text "a") (Sample.text "b") 1 1 _ _) _).
    + discriminate.
    + discriminate.
    + right. reflexivity.
  - refine (proj2 (cmp_data_fatal_errors (Sample.env true) DATA_VARMYSQL
                     (MYSQL_TYPE_VARCHAR + 33 * 65536)
                     (Sample.text "a") (Sample.text "b") 1 1 _ _) _ _ _).
    + discriminate.
    + discriminate.
    + left. reflexivity.
    + reflexivity.
    + reflexivity.
Defined.

(** ** Record against record: the matched-count and the exchange of the
    operands *)

Lemma result_bind_Ret {A B : Type} (c : M A) (k : A -> M B) (b : B) :
  result (bind c k) = Ret b ->
  exists a : A, result c = Ret a /\ result (k a) = Ret b.
Proof.
  destruct c as [t [a|f]]; simpl; [|discriminate].
  destruct (k a) as [t' o] eqn:Hk. simpl. intro H.
  exists a. rewrite Hk. auto.
Qed.

Lemma result_ut_ad_Ret (E : collaborators) (c : bool) (u : unit) :
  result (ut_ad E c) = Ret u -> ut_ad E c = ret tt.
Proof.
  destruct (ut_ad_cases E c) as [-> | ->]; [reflexivity | discriminate].
Qed.

(** The column type the loop of lines 749-794 compares field [cur_field]
    under. *)
Lemma cmp_rec_rec_fields_type (index : dict_index_t) (cur_field : Z) :
  (if dict_index_is_univ index then ret (DATA_BINARY, 0)
   else col <- lift (dict_index_get_nth_col index cur_field) ;;
        ret (col_mtype col, col_prtype col))
  = lift (if dict_index_is_univ index then Ret (DATA_BINARY, 0)
          else col <~ dict_index_get_nth_col index cur_field ;;
               Ret (col_mtype col, col_prtype col)).
Proof.
  destruct (dict_index_is_univ index); [reflexivity|].
  destruct (dict_index_get_nth_col index cur_field); reflexivity.
Qed.

(** Where the loop over the common fields stops. *)
Lemma cmp_rec_rec_fields_stop (E : collaborators) (rec1 rec2 : rec_t)
    (index : dict_index_t) (nulls_unequal : bool) (k : nat) :
  forall cur_field ret_ m : Z,
    result (cmp_rec_rec_fields E rec1 rec2 index nulls_unequal k cur_field 0)
    = Ret (ret_, m) ->
    -1 <= ret_ <= 1
    /\ cur_field <= m <= cur_field + Z.of_nat k
    /\ (ret_ <> 0 -> m < cur_field + Z.of_nat k)
    /\ (ret_ = 0 -> m = cur_field + Z.of_nat k).
Proof.
  induction k as [|k IH]; intros cur_field ret_ m;
    cbn [cmp_rec_rec_fields].
  - cbn [Z.eqb]. rewrite ut_ad_true, bind_ret. simpl.
    intro H. ret_inv. subst. lia.
  - rewrite cmp_rec_rec_fields_type.
    match goal with
    | |- context [lift ?o] => destruct o as [[mtype prtype]|]
    end; [|discriminate].
    rewrite bind_lift_Ret.
    match goal with
    | |- context [ut_ad_read E ?c] =>
        destruct (ut_ad_read_cases E c) as [-> | [f ->]]
    end; [|discriminate].
    rewrite bind_ret.
    match goal with
    | |- context [ut_ad_read E ?c] =>
        destruct (ut_ad_read_cases E c) as [-> | [f ->]]
    end; [|discriminate].
    rewrite bind_ret.
    destruct (rec_get_nth_field rec1 cur_field) as [[p1 l1]|]; [|discriminate].
    rewrite bind_lift_Ret.
    destruct (rec_get_nth_field rec2 cur_field) as [[p2 l2]|]; [|discriminate].
    rewrite bind_lift_Ret.
    destruct (nulls_unequal && _ && _).
    { simpl. intro H. ret_inv. subst. lia. }
    rewrite cmp_data_lift.
    destruct (result (cmp_data E _ _ _ _ _ _)) as [v|] eqn:Hv; [|discriminate].
    apply cmp_data_range in Hv.
    rewrite bind_lift_Ret. destruct (v =? 0) eqn:Hz; cbn [negb].
    + apply Z.eqb_eq in Hz. subst v. intro H. apply IH in H. lia.
    + apply Z.eqb_neq in Hz. simpl. intro H. ret_inv. subst. lia.
Qed.

(** X21. What [cmp_rec_rec_with_match] returns: the order is -1, 0 or 1;
    and when neither record carries the minimum-record marker, the
    matched-count lies between 0 and the smaller of the two field counts, is
    below it when the order is not 0, and equals it when the order is 0. *)
Theorem cmp_rec_rec_matched_bounds (E : collaborators) (rec1 rec2 : rec_t)
    (index : dict_index_t) (nulls_unequal : bool)
    (cur_field_indeterminate ret_ m : Z) :
  result (cmp_rec_rec_with_match E rec1 rec2 index nulls_unequal
            cur_field_indeterminate) = Ret (ret_, m) ->
  -1 <= ret_ <= 1
  /\ (has_min_rec_flag (rec_info_bits rec1) = false ->
      has_min_rec_flag (rec_info_bits rec2) = false ->
      0 <= m <= Z.min (rec_offs_n_fields rec1) (rec_offs_n_fields rec2)
      /\ (ret_ <> 0 ->
          m < Z.min (rec_offs_n_fields rec1) (rec_offs_n_fields rec2))
      /\ (ret_ = 0 ->
          m = Z.min (rec_offs_n_fields rec1) (rec_offs_n_fields rec2))).
Proof.
  unfold cmp_rec_rec_with_match, rec_get_info_bits. intro H.
  do 4 (apply result_bind_Ret in H; destruct H as ([] & _ & H)).
  apply result_bind_Ret in H. destruct H as ([r' m'] & Hsel & H).
  apply result_bind_Ret in H. destruct H as ([] & _ & H).
  simpl in H. ret_inv. subst r' m'.
  assert (Hnf : 0 <= Z.min (rec_offs_n_fields rec1) (rec_offs_n_fields rec2))
    by (unfold rec_offs_n_fields; lia).
  destruct (has_min_rec_flag (rec_info_bits rec1)).
  { apply result_bind_Ret in Hsel. destruct Hsel as ([] & _ & Hsel).
    simpl in Hsel. ret_inv. subst. split; [lia | discriminate]. }
  destruct (has_min_rec_flag (rec_info_bits rec2)).
  { simpl in Hsel. ret_inv. subst. split; [lia | discriminate]. }
  apply cmp_rec_rec_fields_stop in Hsel.
  split; [lia|]. intros _ _. repeat split; lia.
Qed.

Lemma cmp_rec_rec_matched_bounds_witness :
  -1 <= -1 <= 1
  /\ (has_min_rec_flag
        (rec_info_bits (Sample.record 0 [Sample.text "a"; Sample.text "x"]))
      = false ->
      has_min_rec_flag
        (rec_info_bits (Sample.record 0 [Sample.text "a"; Sample.text "y"]))
      = false ->
      0 <= 1 <= Z.min
                  (rec_offs_n_fields
                     (Sample.record 0 [Sample.text "a"; Sample.text "x"]))
                  (rec_offs_n_fields
                     (Sample.record 0 [Sample.text "a"; Sample.text "y"]))
      /\ (-1 <> 0 ->
          1 < Z.min
                (rec_offs_n_fields
                   (Sample.record 0 [Sample.text "a"; Sample.text "x"]))
                (rec_offs_n_fields
                   (Sample.record 0 [Sample.text "a"; Sample.text "y"])))
      /\ (-1 = 0 ->
          1 = Z.min
                (rec_offs_n_fields
                   (Sample.record 0 [Sample.text "a"; Sample.text "x"]))
                (rec_offs_n_fields
                   (Sample.record 0 [Sample.text "a"; Sample.text "y"])))).
Proof.
  apply (cmp_rec_rec_matched_bounds (Sample.env true)
           (Sample.record 0 [Sample.text "a"; Sample.text "x"])
           (Sample.record 0 [Sample.text "a"; Sample.text "y"])
           (Sample.index_on_two 0) false 7 (-1) 1).
  reflexivity.
Defined.





(** X23. [cmp_dtuple_is_prefix_of_rec] decides by the fields: for a tuple
    all of whose fields take part in the comparison, against a record with
    at least as many fields, neither carrying the minimum-record marker, the
    answer is TRUE when every field of the tuple compares equal to the
    record's, and FALSE when one of them does not. *)
Theorem cmp_dtuple_is_prefix_of_rec_by_fields (E : collaborators)
    (dtuple : dtuple_t) (rec : rec_t) :
  (UNIV_DEBUG E = true ->
   dtuple_rec_preconditions E dtuple rec (dtuple_n_fields_cmp dtuple) 0 = true) ->
  has_min_rec_flag (rec_info_bits rec) = false ->
  has_min_rec_flag (dtuple_info_bits dtuple) = false ->
  dtuple_n_fields_cmp dtuple = dtuple_get_n_fields dtuple ->
  dtuple_get_n_fields dtuple <= rec_offs_n_fields rec ->
  ((forall i : Z, 0 <= i < dtuple_get_n_fields dtuple ->
                  tuple_field_compares E dtuple rec i 0) ->
   cmp_dtuple_is_prefix_of_rec E dtuple rec = ret true)
  /\ (forall j v : Z,
        0 <= j < dtuple_get_n_fields dtuple ->
        (forall i : Z, 0 <= i < j -> tuple_field_compares E dtuple rec i 0) ->
        tuple_field_compares E dtuple rec j v ->
        v <> 0 ->
        cmp_dtuple_is_prefix_of_rec E dtuple rec = ret false).
Proof.
  intros Hpre Hfr Hft Hcmp Hlen.
  unfold cmp_dtuple_is_prefix_of_rec, cmp_dtuple_rec_with_match,
    dtuple_get_n_fields_cmp.
  rewrite (dtuple_rec_preconditions_validate E dtuple rec _ 0 Hpre), bind_ret.
  replace (rec_offs_n_fields rec <? dtuple_get_n_fields dtuple) with false
    by (symmetry; apply Z.ltb_ge; exact Hlen).
  rewrite (cmp_dtuple_rec_with_match_low_fields E dtuple rec _ 0 Hpre)
    by (intros _; split; assumption).
  rewrite Hcmp.
  assert (Hnf : 0 <= dtuple_get_n_fields dtuple)
    by (unfold dtuple_get_n_fields; lia).
  split.
  - intros Hall.
    rewrite cmp_dtuple_rec_fields_all_equal
      by (intros i Hi; apply Hall; lia).
    rewrite bind_ret.
    replace (0 + Z.of_nat (Z.to_nat (dtuple_get_n_fields dtuple - 0)))
      with (dtuple_get_n_fields dtuple) by lia.
    rewrite Z.eqb_refl. reflexivity.
  - intros j v Hj Hbefore Hat Hv.
    rewrite (cmp_dtuple_rec_fields_first_difference E dtuple rec _ 0 j v);
      try assumption; [|lia].
    rewrite bind_ret.
    replace (j =? dtuple_get_n_fields dtuple) with false
      by (symmetry; apply Z.eqb_neq; lia).
    reflexivity.
Qed.

Lemma cmp_dtuple_is_prefix_of_rec_by_fields_witness :
  cmp_dtuple_is_prefix_of_rec (Sample.env true)
    (Sample.tuple 0 [Sample.text "a"; Sample.text "b"; Sample.text "c"])
    Sample.record_abcdfg = ret true
  /\ cmp_dtuple_is_prefix_of_rec (Sample.env true)
       Sample.tuple_abcef Sample.record_abcdfg = ret false.
Proof.
  split.
  - refine (proj1 (cmp_dtuple_is_prefix_of_rec_by_fields (Sample.env true)
                     (Sample.tuple 0 [Sample.text "a"; Sample.text "b";
                                      Sample.text "c"])
                     Sample.record_abcdfg
                     (fun _ => eq_refl) eq_refl eq_refl eq_refl _) _).
    + vm_compute. discriminate.
    + intros i Hi.
      assert (Hc : i = 0 \/ i = 1 \/ i = 2)
        by (change (dtuple_get_n_fields _) with 3 in Hi; lia).
      destruct Hc as [-> | [-> | ->]];
        do 2 eexists; repeat split; reflexivity.
  - refine (proj2 (cmp_dtuple_is_prefix_of_rec_by_fields (Sample.env true)
                     Sample.tuple_abcef Sample.record_abcdfg
                     (fun _ => eq_refl) eq_refl eq_refl eq_refl _)
              3 1 _ _ _ _).
    + vm_compute. discriminate.
    + vm_compute. split; [discriminate | reflexivity].
    + intros i Hi. apply (tuple_abcef_compares true). lia.
    + apply (tuple_abcef_compares true).
    + lia.
Defined.

(** ** The binary path as an order on byte strings *)

(** X24. On a binary-comparable type without pad character, the scalar
    comparison of two in-page values is the lexicographic order of their
    bytes as unsigned numbers, a value that is a proper prefix of the other
    being the lesser: the [memcmp] over the common length and the comparison
    of the lengths add up to that order. *)
Theorem cmp_data_binary_is_lex_order (E : collaborators) (mtype prtype : Z)
    (data1 data2 : list byte) :
  binary_comparable mtype prtype = true ->
  dtype_get_pad_char E mtype prtype = ULINT_UNDEFINED ->
  len_of data1 < UNIV_SQL_NULL ->
  len_of data2 < UNIV_SQL_NULL ->
  cmp_data E mtype prtype data1 (len_of data1) data2 (len_of data2)
  = ret (lex_order data1 data2).
Proof. apply cmp_data_lex_order. Qed.

Lemma cmp_data_binary_is_lex_order_witness :
  cmp_data (Sample.env true) DATA_INT 0
    (Sample.text "ab") (len_of (Sample.text "ab"))
    (Sample.text "abc") (len_of (Sample.text "abc"))
  = ret (lex_order (Sample.text "ab") (Sample.text "abc")).
Proof.
  exact (cmp_data_binary_is_lex_order (Sample.env true) DATA_INT 0
           (Sample.text "ab") (Sample.text "abc")
           eq_refl eq_refl eq_refl eq_refl).
Defined.
